(** * Middleman message forwarding (toolkit/recordreplay/ipc)

    A shallow embedding of the forwarding logic of the record/replay
    middleman process: the interception policy [HandleMessageInMiddleman],
    the shutdown trigger [BeginShutdown], the main-thread runnable queue
    ([DispatchToMainThread], [ProcessMainThreadRunnables]) and the
    [MiddlemanProtocol] endpoints with their synchronous-call slots.

    Conventions.
    - The two endpoints are the objects [gChildProtocol] and
      [gParentProtocol]; an endpoint is named by its [mSide], which is fixed
      by the constructor, and [mOpposite] of one endpoint is the endpoint of
      the other side.  [gChildProtocol] ([ChildSide]) receives from the UI
      process on the main thread and its channel leads to the UI process;
      [gParentProtocol] ([ParentSide]) receives from the recording process
      on the forwarding thread and its channel leads to the recording
      process.
    - Every call into a collaborator that is not part of this file (the IPC
      channel, the local actor tree, the monitor, the message loops) leaves
      an [Event] in the [log] of the state, newest first, and so do
      [runnable->Run()] and the end of a drain of the runnable queue; the
      results of the collaborators' calls come from an environment [Env].
    - The bodies of [HandleSyncMessage] up to its wait loop and of
      [MaybeSendSyncMessage] run without interleaving of the other thread;
      the other thread takes its turns while [HandleSyncMessage] waits.
      [MaybeSendSyncMessage] holds the monitor throughout; the head of
      [HandleSyncMessage] does not, and [HandleSyncMessage_unlocked] lets
      the main thread take turns between its writes.
    - [MOZ_RELEASE_ASSERT] and [MOZ_CRASH] stop the computation with
      [Crash]; the state reached at that point is kept.

    The helper functions of ProcessRecordReplay.h and the canvas update of
    ipc/ParentGraphics.cpp follow the forwarding code, with their own
    conventions. *)

From Stdlib Require Import ZArith String List Bool Arith Lia.
Import ListNotations.

(** ** Messages, sides, results *)

(** [ipc::Side]. *)
Inductive Side := ParentSide | ChildSide.

Definition Side_eqb (a b : Side) : bool :=
  match a, b with
  | ParentSide, ParentSide | ChildSide, ChildSide => true
  | _, _ => false
  end.

Definition opposite (s : Side) : Side :=
  match s with ParentSide => ChildSide | ChildSide => ParentSide end.

(** [ipc::IProtocol::Result], the status a receive handler hands back to
    the transport. *)
Inductive IProtocolResult :=
| MsgProcessed | MsgDropped | MsgNotKnown | MsgNotAllowed
| MsgPayloadError | MsgProcessingError | MsgRouteError | MsgValueError.

Definition IProtocolResult_eqb (a b : IProtocolResult) : bool :=
  match a, b with
  | MsgProcessed, MsgProcessed | MsgDropped, MsgDropped
  | MsgNotKnown, MsgNotKnown | MsgNotAllowed, MsgNotAllowed
  | MsgPayloadError, MsgPayloadError
  | MsgProcessingError, MsgProcessingError
  | MsgRouteError, MsgRouteError | MsgValueError, MsgValueError => true
  | _, _ => false
  end.

(** [IPC::Message]: the forwarding code reads [type()] and [routing_id()]
    and copies the rest. *)
Record Message := {
  type : Z;
  routing_id : Z;
  payload : list Byte.byte
}.

(** The message identifiers and protocol ranges generated from the IPDL
    protocol definitions. *)
Record MsgIds := {
  PContent_Msg_ConstructBrowser__ID : Z;
  PContent_Msg_RegisterBrowsingContextGroup__ID : Z;
  PContent_Msg_RegisterChrome__ID : Z;
  PContent_Msg_SetXPCOMProcessAttributes__ID : Z;
  PContent_Msg_UpdateSharedData__ID : Z;
  PContent_Msg_SetProcessSandbox__ID : Z;
  PBrowser_Msg_InitRendering__ID : Z;
  PBrowser_Msg_SetDocShellIsActive__ID : Z;
  PBrowser_Msg_RenderLayers__ID : Z;
  PBrowser_Msg_UpdateDimensions__ID : Z;
  PBrowser_Msg_LoadURL__ID : Z;
  PBrowser_Msg_Show__ID : Z;
  PBrowser_Msg_LoadRemoteScript__ID : Z;
  PBrowser_Msg_AsyncMessage__ID : Z;
  PBrowser_Msg_Destroy__ID : Z;
  PContent_Msg_InitRendering__ID : Z;
  PContent_Msg_Shutdown__ID : Z;
  PBrowserStart : Z;
  PBrowserEnd : Z;
  PCompositorBridgeStart : Z;
  PCompositorBridgeEnd : Z;
  PWindowGlobalStart : Z;
  PWindowGlobalEnd : Z
}.

(** ** Runnables, tasks and message loops *)

(** The runnables this file creates with [NewRunnableFunction] and hands
    to [PostOppositeRunnable]; the endpoint argument is named by its side. *)
Inductive Runnable :=
| ForwardMessageAsyncRunnable (aProtocol : Side) (aMessage : Message)
| StaticMaybeSendSyncMessageRunnable (aProtocol : Side).

(** What a message loop can hold. *)
Inductive Task :=
| ShutdownTask
| ProcessMainThreadRunnablesTask
| RunnableTask (r : Runnable).

Inductive MessageLoopId := MainThreadMessageLoop | gForwardingMessageLoop.

(** ** The local actor tree *)

(** What the policy reads of [dom::ContentChild]: the routing ids of the
    managed [PBrowserChild] actors and the ids [Lookup] resolves. *)
Record ContentChild := {
  ManagedPBrowserChild : list Z;
  LookupIds : list Z
}.

Definition Lookup (c : ContentChild) (id : Z) : bool :=
  existsb (Z.eqb id) (LookupIds c).

(** ** Events *)

Inductive Event :=
| EvContentChildReceived (m : Message)
| EvCompositorChildReceived (m : Message)
| EvPostTask (l : MessageLoopId) (t : Task)
| EvChannelSend (s : Side) (m : Message) (ok : bool)
| EvChannelSync (s : Side) (isCall : bool) (m : Message) (ok : bool)
                (reply : Message)
| EvRun (r : Runnable)
| EvNotifyAll
| EvDrained.

(** ** Endpoints and the process state *)

Record MiddlemanProtocol := {
  mOppositeMessageLoop : option MessageLoopId;
  mSyncMessage : option Message;
  mSyncMessageReply : option Message;
  mSyncMessageIsCall : bool
}.

Record Sys := {
  gChildProtocol : MiddlemanProtocol;
  gParentProtocol : option MiddlemanProtocol;
  gMainThreadRunnables : list Runnable;
  gPostedProcessMainThreadRunnables : bool;
  mainLoop : list Task;
  forwardingLoop : list Task;
  contentChild : ContentChild;
  log : list Event
}.

(** The endpoint whose [mSide] is [s]; [gParentProtocol] is null in a
    middleman that has no recording process. *)
Definition proto (s : Side) (st : Sys) : option MiddlemanProtocol :=
  match s with
  | ChildSide => Some (gChildProtocol st)
  | ParentSide => gParentProtocol st
  end.

Definition set_proto (s : Side) (p : MiddlemanProtocol) (st : Sys) : Sys :=
  match s with
  | ChildSide =>
      {| gChildProtocol := p;
         gParentProtocol := gParentProtocol st;
         gMainThreadRunnables := gMainThreadRunnables st;
         gPostedProcessMainThreadRunnables :=
           gPostedProcessMainThreadRunnables st;
         mainLoop := mainLoop st;
         forwardingLoop := forwardingLoop st;
         contentChild := contentChild st;
         log := log st |}
  | ParentSide =>
      {| gChildProtocol := gChildProtocol st;
         gParentProtocol := Some p;
         gMainThreadRunnables := gMainThreadRunnables st;
         gPostedProcessMainThreadRunnables :=
           gPostedProcessMainThreadRunnables st;
         mainLoop := mainLoop st;
         forwardingLoop := forwardingLoop st;
         contentChild := contentChild st;
         log := log st |}
  end.

Definition set_queue (q : list Runnable) (posted : bool) (st : Sys) : Sys :=
  {| gChildProtocol := gChildProtocol st;
     gParentProtocol := gParentProtocol st;
     gMainThreadRunnables := q;
     gPostedProcessMainThreadRunnables := posted;
     mainLoop := mainLoop st;
     forwardingLoop := forwardingLoop st;
     contentChild := contentChild st;
     log := log st |}.

Definition set_loops (ml fl : list Task) (st : Sys) : Sys :=
  {| gChildProtocol := gChildProtocol st;
     gParentProtocol := gParentProtocol st;
     gMainThreadRunnables := gMainThreadRunnables st;
     gPostedProcessMainThreadRunnables :=
       gPostedProcessMainThreadRunnables st;
     mainLoop := ml;
     forwardingLoop := fl;
     contentChild := contentChild st;
     log := log st |}.

Definition set_contentChild (c : ContentChild) (st : Sys) : Sys :=
  {| gChildProtocol := gChildProtocol st;
     gParentProtocol := gParentProtocol st;
     gMainThreadRunnables := gMainThreadRunnables st;
     gPostedProcessMainThreadRunnables :=
       gPostedProcessMainThreadRunnables st;
     mainLoop := mainLoop st;
     forwardingLoop := forwardingLoop st;
     contentChild := c;
     log := log st |}.

Definition emit (e : Event) (st : Sys) : Sys :=
  {| gChildProtocol := gChildProtocol st;
     gParentProtocol := gParentProtocol st;
     gMainThreadRunnables := gMainThreadRunnables st;
     gPostedProcessMainThreadRunnables :=
       gPostedProcessMainThreadRunnables st;
     mainLoop := mainLoop st;
     forwardingLoop := forwardingLoop st;
     contentChild := contentChild st;
     log := e :: log st |}.

(** ** Outcomes *)

(** Why a computation stops without returning: a fatal assertion or
    [MOZ_CRASH], the orderly exit made by the shutdown task, a wait that is
    never satisfied by the schedule it was given, or a loop that ran out of
    the fuel it was given. *)
Inductive Halt :=
| Crash (why : string)
| Exit
| Blocked
| OutOfFuel.

Inductive Outcome (A : Type) :=
| Ret (a : A) (st : Sys)
| Stop (h : Halt) (st : Sys).
Arguments Ret {A} a st.
Arguments Stop {A} h st.

Definition M (A : Type) := Sys -> Outcome A.

Definition ret {A} (a : A) : M A := fun st => Ret a st.

Definition bind {A B} (m : M A) (k : A -> M B) : M B :=
  fun st => match m st with
            | Ret a st' => k a st'
            | Stop h st' => Stop h st'
            end.

Notation "x <- m ;; k" := (bind m (fun x => k))
  (at level 61, m at next level, right associativity).
Notation "m ;;; k" := (bind m (fun _ => k))
  (at level 61, right associativity).

Definition get : M Sys := fun st => Ret st st.
Definition modify (f : Sys -> Sys) : M unit := fun st => Ret tt (f st).
Definition crash {A} (why : string) : M A := fun st => Stop (Crash why) st.

(** [MOZ_RELEASE_ASSERT(cond)]. *)
Definition MOZ_RELEASE_ASSERT (cond : bool) (what : string) : M unit :=
  if cond then ret tt else crash what.

(** [loop->PostTask(task)]. *)
Definition PostTask (l : MessageLoopId) (t : Task) : M unit :=
  modify (fun st =>
    emit (EvPostTask l t)
      (match l with
       | MainThreadMessageLoop =>
           set_loops (mainLoop st ++ [t]) (forwardingLoop st) st
       | gForwardingMessageLoop =>
           set_loops (mainLoop st) (forwardingLoop st ++ [t]) st
       end)).

(** [gMonitor->NotifyAll()]. *)
Definition NotifyAll : M unit := modify (emit EvNotifyAll).

(** ** The environment *)

(** Results of the calls that leave this file.  A channel operation may
    depend on everything that happened before it (the [log]).
    [channel_SendSync] is [MessageChannel::Send(msg, reply)] and
    [channel_Call] is [MessageChannel::Call(msg, reply)]: they give the
    success flag and the contents of the reply object afterwards.
    [new_Message] is the default-constructed [Message]. *)
Record Env := {
  new_Message : Message;
  channel_Send : Side -> list Event -> Message -> bool;
  channel_SendSync : Side -> list Event -> Message -> bool * Message;
  channel_Call : Side -> list Event -> Message -> bool * Message;
  PContentChild_OnMessageReceived :
    ContentChild -> Message -> IProtocolResult * ContentChild;
  CompositorBridgeChild_OnMessageReceived :
    list Event -> Message -> IProtocolResult;
  MessageOriginatesFromMiddleman : Message -> bool
}.

Definition isSome {A} (o : option A) : bool :=
  match o with Some _ => true | None => false end.

Definition in_range (lo hi t : Z) : bool := (lo <=? t)%Z && (t <=? hi)%Z.

Section Forwarding.

Variable ids : MsgIds.
Variable env : Env.

(** ** Interception policy *)

(** The types sent to both the middleman and the child process (the first
    condition of [HandleMessageInMiddleman]). *)
Definition sent_to_both (t : Z) : bool :=
  (t =? PContent_Msg_ConstructBrowser__ID ids)%Z ||
  (t =? PContent_Msg_RegisterBrowsingContextGroup__ID ids)%Z ||
  (t =? PContent_Msg_RegisterChrome__ID ids)%Z ||
  (t =? PContent_Msg_SetXPCOMProcessAttributes__ID ids)%Z ||
  (t =? PContent_Msg_UpdateSharedData__ID ids)%Z ||
  (t =? PContent_Msg_SetProcessSandbox__ID ids)%Z ||
  (t =? PBrowser_Msg_InitRendering__ID ids)%Z ||
  (t =? PBrowser_Msg_SetDocShellIsActive__ID ids)%Z ||
  (t =? PBrowser_Msg_RenderLayers__ID ids)%Z ||
  (t =? PBrowser_Msg_UpdateDimensions__ID ids)%Z ||
  (t =? PBrowser_Msg_LoadURL__ID ids)%Z ||
  (t =? PBrowser_Msg_Show__ID ids)%Z ||
  (t =? PBrowser_Msg_LoadRemoteScript__ID ids)%Z ||
  (t =? PBrowser_Msg_AsyncMessage__ID ids)%Z ||
  (t =? PBrowser_Msg_Destroy__ID ids)%Z.

(** The types sent only to the middleman (the second condition). *)
Definition sent_to_middleman_only (t : Z) : bool :=
  (t =? PContent_Msg_InitRendering__ID ids)%Z ||
  (t =? PContent_Msg_Shutdown__ID ids)%Z.

(** [contentChild->PContentChild::OnMessageReceived(aMessage)]. *)
Definition ContentChild_OnMessageReceived (aMessage : Message)
  : M IProtocolResult :=
  fun st =>
    let (r, c) :=
      PContentChild_OnMessageReceived env (contentChild st) aMessage in
    Ret r (emit (EvContentChildReceived aMessage) (set_contentChild c st)).

(** [compositorChild->OnMessageReceived(aMessage)]. *)
Definition CompositorChild_OnMessageReceived (aMessage : Message)
  : M IProtocolResult :=
  fun st =>
    Ret (CompositorBridgeChild_OnMessageReceived env (log st) aMessage)
        (emit (EvCompositorChildReceived aMessage) st).

(** The loop over [ManagedPBrowserChild] looking for [child->Id()] equal to
    the routing id. *)
Definition found_browser (c : ContentChild) (aMessage : Message) : bool :=
  existsb (fun id => (id =? routing_id aMessage)%Z) (ManagedPBrowserChild c).

Definition assert_processed (r : IProtocolResult) : M unit :=
  MOZ_RELEASE_ASSERT (IProtocolResult_eqb r MsgProcessed)
                     "r == ipc::IProtocol::MsgProcessed".

(** [HandleMessageInMiddleman]: the result [true] means the message is
    not forwarded. *)
Definition HandleMessageInMiddleman (aSide : Side) (aMessage : Message)
  : M bool :=
  let t := type aMessage in
  if Side_eqb aSide ParentSide then ret false
  else if sent_to_both t then
    st <- get ;;
    if in_range (PBrowserStart ids) (PBrowserEnd ids) t
       && negb (found_browser (contentChild st) aMessage)
    then ret false
    else
      r <- ContentChild_OnMessageReceived aMessage ;;
      assert_processed r ;;;
      ret false
  else if sent_to_middleman_only t then
    r <- ContentChild_OnMessageReceived aMessage ;;
    assert_processed r ;;;
    ret true
  else if in_range (PCompositorBridgeStart ids) (PCompositorBridgeEnd ids) t
  then
    r <- CompositorChild_OnMessageReceived aMessage ;;
    assert_processed r ;;;
    ret true
  else if in_range (PWindowGlobalStart ids) (PWindowGlobalEnd ids) t then
    st <- get ;;
    if Lookup (contentChild st) (routing_id aMessage) then
      r <- ContentChild_OnMessageReceived aMessage ;;
      assert_processed r ;;;
      ret true
    else ret false
  else if MessageOriginatesFromMiddleman env aMessage then ret true
  else ret false.

(** ** Shutdown and the main-thread runnable queue *)

Definition BeginShutdown : M unit :=
  PostTask MainThreadMessageLoop ShutdownTask.

Definition DispatchToMainThread (aRunnable : Runnable) : M unit :=
  modify (fun st =>
    set_queue (gMainThreadRunnables st ++ [aRunnable])
              (gPostedProcessMainThreadRunnables st) st) ;;;
  st <- get ;;
  if negb (gPostedProcessMainThreadRunnables st) then
    PostTask MainThreadMessageLoop ProcessMainThreadRunnablesTask ;;;
    modify (fun st => set_queue (gMainThreadRunnables st) true st)
  else ret tt.

(** ** Endpoint methods *)

(** Access to the endpoint a method is called on. *)
Definition this_protocol (this : Side) : M MiddlemanProtocol :=
  fun st => match proto this st with
            | Some p => Ret p st
            | None => Stop (Crash "null MiddlemanProtocol") st
            end.

Definition set_sync_slots (this : Side) (msg reply : option Message)
  (isCall : bool) : M unit :=
  p <- this_protocol this ;;
  modify (set_proto this
    {| mOppositeMessageLoop := mOppositeMessageLoop p;
       mSyncMessage := msg;
       mSyncMessageReply := reply;
       mSyncMessageIsCall := isCall |}).

Definition PostOppositeRunnable (this : Side) (aRunnable : Runnable)
  : M unit :=
  if Side_eqb this ChildSide then
    p <- this_protocol this ;;
    match mOppositeMessageLoop p with
    | Some l => PostTask l (RunnableTask aRunnable)
    | None => crash "null mOppositeMessageLoop"
    end
  else DispatchToMainThread aRunnable.

(** [ForwardMessageAsync(aProtocol, aMessage)]: the send goes out on
    [aProtocol]'s own channel. *)
Definition ForwardMessageAsync (aProtocol : Side) (aMessage : Message)
  : M unit :=
  st <- get ;;
  let ok := channel_Send env aProtocol (log st) aMessage in
  modify (emit (EvChannelSend aProtocol aMessage ok)) ;;;
  if negb ok then
    MOZ_RELEASE_ASSERT (Side_eqb aProtocol ParentSide)
                       "aProtocol->mSide == ipc::ParentSide" ;;;
    BeginShutdown
  else ret tt.

(** The asynchronous [OnMessageReceived(const Message&)].  The copy
    [nMessage] is taken before the policy runs. *)
Definition OnMessageReceived (this : Side) (aMessage : Message)
  : M IProtocolResult :=
  p <- this_protocol this ;;
  match mOppositeMessageLoop p with
  | None =>
      MOZ_RELEASE_ASSERT (Side_eqb this ChildSide)
                         "mSide == ipc::ChildSide" ;;;
      _ <- HandleMessageInMiddleman this aMessage ;;
      ret MsgProcessed
  | Some _ =>
      let nMessage := aMessage in
      handled <- HandleMessageInMiddleman this aMessage ;;
      if (handled : bool) then ret MsgProcessed
      else
        PostOppositeRunnable this
          (ForwardMessageAsyncRunnable (opposite this) nMessage) ;;;
        ret MsgProcessed
  end.

(** [MaybeSendSyncMessage] up to and including
    [mSyncMessageReply = new Message()]; [false] is the early return. *)
Definition MaybeSendSyncMessage_alloc (this : Side) : M bool :=
  p <- this_protocol this ;;
  match mSyncMessage p with
  | None => ret false
  | Some m =>
      MOZ_RELEASE_ASSERT (negb (isSome (mSyncMessageReply p)))
                         "!mSyncMessageReply" ;;;
      set_sync_slots this (Some m) (Some (new_Message env))
                     (mSyncMessageIsCall p) ;;;
      ret true
  end.

(** The rest of [MaybeSendSyncMessage]: the call or send on the opposite
    endpoint's channel, which fills the reply object, the failure branch,
    [mSyncMessage = nullptr] and [NotifyAll]. *)
Definition MaybeSendSyncMessage_transmit (this : Side) : M unit :=
  p <- this_protocol this ;;
  match mSyncMessage p with
  | None => crash "null mSyncMessage"
  | Some m =>
      st <- get ;;
      let (ok, reply) :=
        if mSyncMessageIsCall p
        then channel_Call env (opposite this) (log st) m
        else channel_SendSync env (opposite this) (log st) m in
      modify (emit (EvChannelSync (opposite this) (mSyncMessageIsCall p)
                                  m ok reply)) ;;;
      set_sync_slots this (Some m) (Some reply) (mSyncMessageIsCall p) ;;;
      (if negb ok then
         MOZ_RELEASE_ASSERT (Side_eqb this ChildSide)
                            "mSide == ipc::ChildSide" ;;;
         BeginShutdown
       else ret tt) ;;;
      set_sync_slots this None (Some reply) (mSyncMessageIsCall p) ;;;
      NotifyAll
  end.

Definition MaybeSendSyncMessage (this : Side) : M unit :=
  go <- MaybeSendSyncMessage_alloc this ;;
  if (go : bool) then MaybeSendSyncMessage_transmit this else ret tt.

(** [HandleSyncMessage] up to the wait loop. *)
Definition HandleSyncMessage_begin (this : Side) (aMessage : Message)
  (aCall : bool) : M unit :=
  p <- this_protocol this ;;
  MOZ_RELEASE_ASSERT (isSome (mOppositeMessageLoop p))
                     "mOppositeMessageLoop" ;;;
  set_sync_slots this (Some aMessage) (mSyncMessageReply p) aCall ;;;
  PostOppositeRunnable this (StaticMaybeSendSyncMessageRunnable this) ;;;
  if Side_eqb this ChildSide then crash "NYI"
  else NotifyAll.

(** [aReply = mSyncMessageReply; mSyncMessageReply = nullptr;]. *)
Definition HandleSyncMessage_end (this : Side) : M (option Message) :=
  p <- this_protocol this ;;
  set_sync_slots this (mSyncMessage p) None (mSyncMessageIsCall p) ;;;
  ret (mSyncMessageReply p).

(** ** Running runnables and tasks *)

Definition Run (r : Runnable) : M unit :=
  modify (emit (EvRun r)) ;;;
  match r with
  | ForwardMessageAsyncRunnable aProtocol aMessage =>
      ForwardMessageAsync aProtocol aMessage
  | StaticMaybeSendSyncMessageRunnable aProtocol =>
      MaybeSendSyncMessage aProtocol
  end.

(** The loop of [ProcessMainThreadRunnables]; the length of the vector is
    read again at every iteration. *)
Fixpoint ProcessMainThreadRunnables_loop (fuel i : nat) : M unit :=
  fun st =>
    match fuel with
    | O => Stop OutOfFuel st
    | S fuel' =>
        match nth_error (gMainThreadRunnables st) i with
        | Some runnable =>
            (Run runnable ;;;
             ProcessMainThreadRunnables_loop fuel' (S i)) st
        | None => Ret tt st
        end
    end.

Definition ProcessMainThreadRunnables (fuel : nat) : M unit :=
  ProcessMainThreadRunnables_loop fuel 0 ;;;
  modify (set_queue [] false) ;;;
  modify (emit EvDrained).

(** Modelled from the spec: [Shutdown], the function the shutdown task
    runs, is defined outside these sources; it tears the process down in an
    orderly way, after which nothing else runs. *)
Definition Shutdown : M unit := fun st => Stop Exit st.

Definition RunTask (fuel : nat) (t : Task) : M unit :=
  match t with
  | ShutdownTask => Shutdown
  | ProcessMainThreadRunnablesTask => ProcessMainThreadRunnables fuel
  | RunnableTask r => Run r
  end.

Definition MaybeHandleForwardedMessages (fuel : nat) : M unit :=
  st <- get ;;
  (if isSome (gParentProtocol st) then MaybeSendSyncMessage ParentSide
   else ret tt) ;;;
  ProcessMainThreadRunnables fuel.

(** What the main thread does in one turn: run the next task of its
    message loop, or call [MaybeHandleForwardedMessages]. *)
Inductive MainAct :=
| MainRunNextTask (fuel : nat)
| MainMaybeHandleForwardedMessages (fuel : nat).

Definition main_act (a : MainAct) : M unit :=
  match a with
  | MainRunNextTask fuel =>
      st <- get ;;
      match mainLoop st with
      | [] => ret tt
      | t :: rest =>
          modify (set_loops rest (forwardingLoop st)) ;;;
          RunTask fuel t
      end
  | MainMaybeHandleForwardedMessages fuel => MaybeHandleForwardedMessages fuel
  end.

(** ** Waiting for the reply *)

Definition isNotifyAll (e : Event) : bool :=
  match e with EvNotifyAll => true | _ => false end.

Definition notifyCount (st : Sys) : nat :=
  length (filter isNotifyAll (log st)).

(** [while (!mSyncMessageReply) gMonitor->Wait();] on the forwarding
    thread, with the turns the main thread takes meanwhile.  At the head of
    the loop ([inWait = false]) the reply slot is tested; inside [Wait] the
    thread sleeps until a turn of the main thread has called [NotifyAll].
    A schedule that ends first leaves the call [Blocked]. *)
Fixpoint wait_for_reply (this : Side) (inWait : bool) (sched : list MainAct)
  : M unit :=
  fun st =>
    match proto this st with
    | None => Stop (Crash "null MiddlemanProtocol") st
    | Some p =>
        if negb inWait && isSome (mSyncMessageReply p) then Ret tt st
        else
          match sched with
          | [] => Stop Blocked st
          | a :: sched' =>
              match main_act a st with
              | Ret _ st' =>
                  wait_for_reply this
                    (negb (notifyCount st <? notifyCount st')) sched' st'
              | Stop h st' => Stop h st'
              end
          end
    end.

Definition HandleSyncMessage (this : Side) (aMessage : Message)
  (aCall : bool) (sched : list MainAct) : M (option Message) :=
  HandleSyncMessage_begin this aMessage aCall ;;;
  wait_for_reply this false sched ;;;
  HandleSyncMessage_end this.

(** The synchronous [OnMessageReceived(const Message&, Message*&)]. *)
Definition OnMessageReceivedSync (this : Side) (aMessage : Message)
  (sched : list MainAct) : M (IProtocolResult * option Message) :=
  aReply <- HandleSyncMessage this aMessage false sched ;;
  ret (MsgProcessed, aReply).

Definition OnCallReceived (this : Side) (aMessage : Message)
  (sched : list MainAct) : M (IProtocolResult * option Message) :=
  aReply <- HandleSyncMessage this aMessage true sched ;;
  ret (MsgProcessed, aReply).

Definition OnChannelClose (this : Side) : M unit :=
  MOZ_RELEASE_ASSERT (Side_eqb this ChildSide) "mSide == ipc::ChildSide" ;;;
  BeginShutdown.

Definition OnChannelError (this : Side) : M unit := BeginShutdown.

(** ** The unlocked writes of [HandleSyncMessage] *)

Fixpoint main_acts (acts : list MainAct) : M unit :=
  match acts with
  | [] => ret tt
  | a :: acts' => main_act a ;;; main_acts acts'
  end.

(** [HandleSyncMessage] with turns of the main thread before the flag is
    written.  [mSyncMessage] and [mSyncMessageIsCall] are written without
    the monitor, and the main thread takes the monitor only inside
    [MaybeSendSyncMessage] and the queue functions: it can take the turns
    [between] when the message has been stored and [mSyncMessageIsCall]
    has not. *)
Definition HandleSyncMessage_unlocked (this : Side) (aMessage : Message)
  (aCall : bool) (between sched : list MainAct) : M (option Message) :=
  p <- this_protocol this ;;
  MOZ_RELEASE_ASSERT (isSome (mOppositeMessageLoop p))
                     "mOppositeMessageLoop" ;;;
  set_sync_slots this (Some aMessage) (mSyncMessageReply p)
                 (mSyncMessageIsCall p) ;;;
  main_acts between ;;;
  q <- this_protocol this ;;
  set_sync_slots this (mSyncMessage q) (mSyncMessageReply q) aCall ;;;
  PostOppositeRunnable this (StaticMaybeSendSyncMessageRunnable this) ;;;
  (if Side_eqb this ChildSide then crash "NYI" else NotifyAll) ;;;
  wait_for_reply this false sched ;;;
  HandleSyncMessage_end this.

End Forwarding.

(** ** Initial state *)

(** The state [InitializeForwarding] leaves behind.  [gChildProtocol] is
    always created; in a [MiddlemanRecording] process [gParentProtocol] is
    created as well, its opposite loop is the main thread's, and the
    forwarding thread, once started, stores its own loop in
    [gChildProtocol->mOppositeMessageLoop]. *)
Definition new_MiddlemanProtocol : MiddlemanProtocol :=
  {| mOppositeMessageLoop := None;
     mSyncMessage := None;
     mSyncMessageReply := None;
     mSyncMessageIsCall := false |}.

Definition with_loop (l : MessageLoopId) (p : MiddlemanProtocol)
  : MiddlemanProtocol :=
  {| mOppositeMessageLoop := Some l;
     mSyncMessage := mSyncMessage p;
     mSyncMessageReply := mSyncMessageReply p;
     mSyncMessageIsCall := mSyncMessageIsCall p |}.

Definition InitializeForwarding (middlemanRecording : bool)
  (c : ContentChild) : Sys :=
  {| gChildProtocol :=
       if middlemanRecording
       then with_loop gForwardingMessageLoop new_MiddlemanProtocol
       else new_MiddlemanProtocol;
     gParentProtocol :=
       if middlemanRecording
       then Some (with_loop MainThreadMessageLoop new_MiddlemanProtocol)
       else None;
     gMainThreadRunnables := [];
     gPostedProcessMainThreadRunnables := false;
     mainLoop := [];
     forwardingLoop := [];
     contentChild := c;
     log := [] |}.

(** ** Counting in the log *)

Definition isShutdownPost (e : Event) : bool :=
  match e with
  | EvPostTask MainThreadMessageLoop ShutdownTask => true
  | _ => false
  end.

Definition isWakeupPost (e : Event) : bool :=
  match e with
  | EvPostTask MainThreadMessageLoop ProcessMainThreadRunnablesTask => true
  | _ => false
  end.

Definition count (f : Event -> bool) (l : list Event) : nat :=
  length (filter f l).

Definition shutdownPosts (st : Sys) : nat := count isShutdownPost (log st).
Definition wakeupPosts (st : Sys) : nat := count isWakeupPost (log st).

(** ** Concrete data for the examples *)

Module Demo.

Definition ids : MsgIds :=
  {| PContent_Msg_ConstructBrowser__ID := 3276801;
     PContent_Msg_RegisterBrowsingContextGroup__ID := 3276802;
     PContent_Msg_RegisterChrome__ID := 3276803;
     PContent_Msg_SetXPCOMProcessAttributes__ID := 3276804;
     PContent_Msg_UpdateSharedData__ID := 3276805;
     PContent_Msg_SetProcessSandbox__ID := 3276806;
     PBrowser_Msg_InitRendering__ID := 1310721;
     PBrowser_Msg_SetDocShellIsActive__ID := 1310722;
     PBrowser_Msg_RenderLayers__ID := 1310723;
     PBrowser_Msg_UpdateDimensions__ID := 1310724;
     PBrowser_Msg_LoadURL__ID := 1310725;
     PBrowser_Msg_Show__ID := 1310726;
     PBrowser_Msg_LoadRemoteScript__ID := 1310727;
     PBrowser_Msg_AsyncMessage__ID := 1310728;
     PBrowser_Msg_Destroy__ID := 1310729;
     PContent_Msg_InitRendering__ID := 3276807;
     PContent_Msg_Shutdown__ID := 3276808;
     PBrowserStart := 1310720;
     PBrowserEnd := 1310900;
     PCompositorBridgeStart := 2621440;
     PCompositorBridgeEnd := 2621500;
     PWindowGlobalStart := 9830400;
     PWindowGlobalEnd := 9830420 |}.

Definition msg (t r : Z) : Message :=
  {| type := t; routing_id := r; payload := [] |}.

Definition ok_reply : Message :=
  {| type := 7; routing_id := 0; payload := [Byte.x6f; Byte.x6b] |}.

(** A peer that accepts every send and answers every synchronous message
    with [ok_reply] when [alive], and fails every operation otherwise. *)
Definition env (alive : bool) : Env :=
  {| new_Message := msg 0 0;
     channel_Send := fun _ _ _ => alive;
     channel_SendSync := fun _ _ _ =>
       if alive then (true, ok_reply) else (false, msg 0 0);
     channel_Call := fun _ _ _ =>
       if alive then (true, ok_reply) else (false, msg 0 0);
     PContentChild_OnMessageReceived := fun c _ => (MsgProcessed, c);
     CompositorBridgeChild_OnMessageReceived := fun _ _ => MsgProcessed;
     MessageOriginatesFromMiddleman := fun _ => false |}.

Definition actors : ContentChild :=
  {| ManagedPBrowserChild := [10%Z; 11%Z]; LookupIds := [10%Z; 11%Z; 40%Z] |}.

Definition st0 : Sys := InitializeForwarding true actors.

End Demo.

(** ** Shutdown triggers *)

(** The events that lead to [BeginShutdown]: the two channel callbacks,
    and an asynchronous forward whose [Send] fails. *)
Inductive Trigger :=
| ChannelClose (s : Side)
| ChannelError (s : Side)
| SendFailure (aProtocol : Side) (m : Message).

Definition fire (env : Env) (t : Trigger) : M unit :=
  match t with
  | ChannelClose s => OnChannelClose s
  | ChannelError s => OnChannelError s
  | SendFailure aProtocol m => ForwardMessageAsync env aProtocol m
  end.

Fixpoint fire_all (env : Env) (ts : list Trigger) : M unit :=
  match ts with
  | [] => ret tt
  | t :: ts' => fire env t ;;; fire_all env ts'
  end.

(** A trigger passes its assertion: a close must come from the endpoint
    whose side is [ChildSide], a failed send from the endpoint whose side
    is [ParentSide]. *)
Definition trigger_allowed (t : Trigger) : bool :=
  match t with
  | ChannelClose s => Side_eqb s ChildSide
  | ChannelError _ => true
  | SendFailure aProtocol _ => Side_eqb aProtocol ParentSide
  end.

(** Every asynchronous send fails. *)
Definition channel_down (env : Env) : Prop :=
  forall s l m, channel_Send env s l m = false.

(** ** Queue scheduling seen from the log *)

(** The runnables run so far, oldest first. *)
Fixpoint runs (l : list Event) : list Runnable :=
  match l with
  | [] => []
  | EvRun r :: l' => runs l' ++ [r]
  | _ :: l' => runs l'
  end.

Fixpoint DispatchToMainThread_all (rs : list Runnable) : M unit :=
  match rs with
  | [] => ret tt
  | r :: rs' => DispatchToMainThread r ;;; DispatchToMainThread_all rs'
  end.

(** Running a list of runnables one after the other, first to last. *)
Fixpoint Run_in_order (env : Env) (rs : list Runnable) : M unit :=
  match rs with
  | [] => ret tt
  | r :: rs' => Run env r ;;; Run_in_order env rs'
  end.

(** ** Executions *)

(** The entry points other code and the two threads use, as operations on
    the state. *)
Inductive Op :=
| OpOnMessageReceived (this : Side) (m : Message)
| OpOnMessageReceivedSync (this : Side) (m : Message) (sched : list MainAct)
| OpOnCallReceived (this : Side) (m : Message) (sched : list MainAct)
| OpOnChannel (t : Trigger)
| OpDispatchToMainThread (r : Runnable)
| OpMain (a : MainAct)
| OpForwardingLoopRun.

Definition run_op (ids : MsgIds) (env : Env) (o : Op) : M unit :=
  match o with
  | OpOnMessageReceived this m =>
      _ <- OnMessageReceived ids env this m ;; ret tt
  | OpOnMessageReceivedSync this m sched =>
      _ <- OnMessageReceivedSync env this m sched ;; ret tt
  | OpOnCallReceived this m sched =>
      _ <- OnCallReceived env this m sched ;; ret tt
  | OpOnChannel t => fire env t
  | OpDispatchToMainThread r => DispatchToMainThread r
  | OpMain a => main_act env a
  | OpForwardingLoopRun =>
      st <- get ;;
      match forwardingLoop st with
      | [] => ret tt
      | t :: rest =>
          modify (set_loops (mainLoop st) rest) ;;;
          RunTask env 0 t
      end
  end.

Fixpoint run_ops (ids : MsgIds) (env : Env) (os : list Op) : M unit :=
  match os with
  | [] => ret tt
  | o :: os' => run_op ids env o ;;; run_ops ids env os'
  end.

(** The state an outcome ends in, returned or stopped. *)
Definition final_state {A} (o : Outcome A) : Sys :=
  match o with Ret _ st => st | Stop _ st => st end.

Definition returns {A} (o : Outcome A) : bool :=
  match o with Ret _ _ => true | Stop _ _ => false end.

(** ** The synchronous exchange, step by step *)

Definition at_most_one (p : MiddlemanProtocol) : Prop :=
  mSyncMessage p = None \/ mSyncMessageReply p = None.

Definition both_set (p : MiddlemanProtocol) : bool :=
  isSome (mSyncMessage p) && isSome (mSyncMessageReply p).

(** Where the thread that receives on an endpoint stands: outside
    [HandleSyncMessage], or inside its wait loop. *)
Inductive RecvPc := RecvIdle | RecvWaiting.

(** Where a thread running [MaybeSendSyncMessage] on an endpoint stands:
    not inside it, or between [mSyncMessageReply = new Message()] and
    [mSyncMessage = nullptr], with the monitor held. *)
Inductive SendPc := SendIdle | SendInTransmit.

Record Config := {
  sys : Sys;
  recvPc : Side -> RecvPc;
  sendPc : Side -> SendPc
}.

Definition upd {A} (f : Side -> A) (s : Side) (v : A) : Side -> A :=
  fun s' => if Side_eqb s' s then v else f s'.

Definition slots (p : MiddlemanProtocol) : option Message * option Message :=
  (mSyncMessage p, mSyncMessageReply p).

Definition same_slots (st st' : Sys) : Prop :=
  forall s, option_map slots (proto s st') = option_map slots (proto s st).

Definition monitor_free (c : Config) : Prop :=
  forall s, sendPc c s = SendIdle.

(** One step of an execution.  [HandleSyncMessage] is cut at its wait
    loop, [MaybeSendSyncMessage] after the allocation of the reply object;
    everything else the process does leaves the slots alone. *)
Inductive step (env : Env) : Config -> Config -> Prop :=
| step_sync_begin c this m call st' :
    recvPc c this = RecvIdle ->
    monitor_free c ->
    HandleSyncMessage_begin this m call (sys c) = Ret tt st' ->
    step env c {| sys := st';
                  recvPc := upd (recvPc c) this RecvWaiting;
                  sendPc := sendPc c |}
| step_sync_end c this r st' :
    recvPc c this = RecvWaiting ->
    monitor_free c ->
    (exists p, proto this (sys c) = Some p /\ mSyncMessageReply p = Some r) ->
    HandleSyncMessage_end this (sys c) = Ret (Some r) st' ->
    step env c {| sys := st';
                  recvPc := upd (recvPc c) this RecvIdle;
                  sendPc := sendPc c |}
| step_send_skip c this st' :
    monitor_free c ->
    MaybeSendSyncMessage_alloc env this (sys c) = Ret false st' ->
    step env c {| sys := st'; recvPc := recvPc c; sendPc := sendPc c |}
| step_send_alloc c this st' :
    monitor_free c ->
    MaybeSendSyncMessage_alloc env this (sys c) = Ret true st' ->
    step env c {| sys := st';
                  recvPc := recvPc c;
                  sendPc := upd (sendPc c) this SendInTransmit |}
| step_send_transmit c this st' :
    sendPc c this = SendInTransmit ->
    MaybeSendSyncMessage_transmit env this (sys c) = Ret tt st' ->
    step env c {| sys := st';
                  recvPc := recvPc c;
                  sendPc := upd (sendPc c) this SendIdle |}
| step_other c st' :
    same_slots (sys c) st' ->
    step env c {| sys := st'; recvPc := recvPc c; sendPc := sendPc c |}.

(** Both endpoints as their constructor leaves them, no thread inside a
    synchronous exchange. *)
Definition initial (c : Config) : Prop :=
  (forall s, recvPc c s = RecvIdle /\ sendPc c s = SendIdle) /\
  (forall s p, proto s (sys c) = Some p ->
               mSyncMessage p = None /\ mSyncMessageReply p = None).

Inductive reachable (env : Env) : Config -> Prop :=
| reachable_initial c : initial c -> reachable env c
| reachable_step c c' : reachable env c -> step env c c' -> reachable env c'.

(** What holds of an endpoint at every reachable configuration. *)
Definition exchange_inv (c : Config) (s : Side) (p : MiddlemanProtocol)
  : Prop :=
  match sendPc c s, recvPc c s with
  | SendInTransmit, RecvWaiting =>
      mSyncMessage p <> None /\ mSyncMessageReply p <> None
  | SendInTransmit, RecvIdle => False
  | SendIdle, RecvWaiting => at_most_one p
  | SendIdle, RecvIdle => mSyncMessage p = None /\ mSyncMessageReply p = None
  end.

Definition idle_config (st : Sys) : Config :=
  {| sys := st; recvPc := fun _ => RecvIdle; sendPc := fun _ => SendIdle |}.

(** An assertion on the state that survives a computation, whether it
    returns or stops. *)
Definition preserves {A} (P : Sys -> Prop) (m : M A) : Prop :=
  forall st, P st -> P (final_state (m st)).

(** The local collaborators keep their contract: a delivered message is
    reported as processed (the policy asserts it). *)
Definition local_delivery_ok (env : Env) : Prop :=
  (forall c m, fst (PContentChild_OnMessageReceived env c m) = MsgProcessed) /\
  (forall l m, CompositorBridgeChild_OnMessageReceived env l m = MsgProcessed).

Definition isContentChildReceived (e : Event) : bool :=
  match e with EvContentChildReceived _ => true | _ => false end.

(** How often a message has been handed to the local [ContentChild]. *)
Definition contentDeliveries (st : Sys) : nat :=
  count isContentChildReceived (log st).

(** The events that say nothing about the runnable queue or about which
    runnables ran. *)
Definition frame_event (e : Event) : bool :=
  match e with
  | EvPostTask MainThreadMessageLoop ProcessMainThreadRunnablesTask => false
  | EvDrained => false
  | EvRun _ => false
  | _ => true
  end.

Ltac unfold_M :=
  unfold BeginShutdown, NotifyAll, PostTask, set_sync_slots,
    MOZ_RELEASE_ASSERT, this_protocol, crash, modify, get, ret, bind in *.

(** The queue and its flag. *)
Definition queue_is (q : list Runnable) (b : bool) (st : Sys) : Prop :=
  gMainThreadRunnables st = q /\ gPostedProcessMainThreadRunnables st = b.


(** The values a computation can return. *)
Definition returns_only {A} (Q : A -> Prop) (m : M A) : Prop :=
  forall st a st', m st = Ret a st' -> Q a.

(** An endpoint with its two slots replaced. *)
Definition with_slots (p : MiddlemanProtocol) (msg reply : option Message)
  : MiddlemanProtocol :=
  {| mOppositeMessageLoop := mOppositeMessageLoop p;
     mSyncMessage := msg;
     mSyncMessageReply := reply;
     mSyncMessageIsCall := mSyncMessageIsCall p |}.

(** The synchronous operation [MaybeSendSyncMessage] performs for the
    pending message of an endpoint: a call or a send with reply, on the
    opposite endpoint's channel. *)
Definition sync_transmit (env : Env) (this : Side) (isCall : bool)
  (l : list Event) (m : Message) : bool * Message :=
  if isCall then channel_Call env (opposite this) l m
  else channel_SendSync env (opposite this) l m.

(** Both endpoints are as they are in [st]. *)
Definition protos_same (st st' : Sys) : Prop :=
  forall s, proto s st' = proto s st.

(** Nothing was posted to a message loop or queued for the main thread. *)
Definition nothing_posted (st st' : Sys) : Prop :=
  mainLoop st' = mainLoop st /\
  forwardingLoop st' = forwardingLoop st /\
  gMainThreadRunnables st' = gMainThreadRunnables st /\
  gPostedProcessMainThreadRunnables st' =
    gPostedProcessMainThreadRunnables st.

(** A type that none of the lists and ranges of the policy names. *)
Definition unlisted (ids : MsgIds) (t : Z) : bool :=
  negb (sent_to_both ids t) &&
  negb (sent_to_middleman_only ids t) &&
  negb (in_range (PCompositorBridgeStart ids) (PCompositorBridgeEnd ids) t) &&
  negb (in_range (PWindowGlobalStart ids) (PWindowGlobalEnd ids) t).

Module DemoMore.

(** As [Demo.env true], with messages of type 99 marked as originating
    from the middleman. *)
Definition loopback_env : Env :=
  {| new_Message := Demo.msg 0 0;
     channel_Send := fun _ _ _ => true;
     channel_SendSync := fun _ _ _ => (true, Demo.ok_reply);
     channel_Call := fun _ _ _ => (true, Demo.ok_reply);
     PContentChild_OnMessageReceived := fun c _ => (MsgProcessed, c);
     CompositorBridgeChild_OnMessageReceived := fun _ _ => MsgProcessed;
     MessageOriginatesFromMiddleman := fun m => (type m =? 99)%Z |}.

(** The state of a middleman that has no recording process. *)
Definition st_alone : Sys := InitializeForwarding false Demo.actors.

End DemoMore.

(** What was attempted on the channels, oldest first: an asynchronous
    [Send], or a synchronous [Call] or [Send] with reply, on the channel of
    the endpoint [s], successful or not. *)
Inductive ChannelOp :=
| AsyncSend (s : Side) (m : Message)
| SyncSend (s : Side) (isCall : bool) (m : Message).

Fixpoint channel_ops (l : list Event) : list ChannelOp :=
  match l with
  | [] => []
  | EvChannelSend s m _ :: l' => channel_ops l' ++ [AsyncSend s m]
  | EvChannelSync s isCall m _ _ :: l' => channel_ops l' ++ [SyncSend s isCall m]
  | _ :: l' => channel_ops l'
  end.

Definition isFailedSend (e : Event) : bool :=
  match e with EvChannelSend _ _ false => true | _ => false end.

(** The asynchronous sends that failed. *)
Definition failedSends (st : Sys) : nat := count isFailedSend (log st).

(** The forwarding thread runs the next [n] tasks of its loop. *)
Definition forwarding_loop_runs (n : nat) : list Op :=
  repeat OpForwardingLoopRun n.

(** A synchronous exchange on a channel: the way the message went out
    ([Call], or [Send] with reply), the message, whether the channel
    reported success, and the reply object as the channel left it. *)
Record SyncExchange : Type := {
  exViaCall : bool;
  exMessage : Message;
  exSucceeded : bool;
  exReply : Message
}.

(** The synchronous exchanges attempted on the channel of the endpoint
    [s], oldest first. *)
Fixpoint sync_exchanges (s : Side) (l : list Event) : list SyncExchange :=
  match l with
  | [] => []
  | EvChannelSync s' isCall m ok r :: l' =>
      if Side_eqb s' s
      then sync_exchanges s l'
             ++ [{| exViaCall := isCall; exMessage := m;
                    exSucceeded := ok; exReply := r |}]
      else sync_exchanges s l'
  | _ :: l' => sync_exchanges s l'
  end.

(** The state of the [ParentSide] endpoint between the posting phase of
    [HandleSyncMessage] and its return: the message is pending and
    nothing has gone out, or it has gone out once, successfully, and its
    reply is in the reply slot. *)
Definition sync_in_progress (before : list SyncExchange) (m : Message)
  (call : bool) (st : Sys) : Prop :=
  exists p,
    gParentProtocol st = Some p /\
    ((mSyncMessage p = Some m /\ mSyncMessageIsCall p = call /\
      mSyncMessageReply p = None /\
      sync_exchanges ChildSide (log st) = before) \/
     (exists r,
        mSyncMessage p = None /\ mSyncMessageReply p = Some r /\
        sync_exchanges ChildSide (log st) =
          before ++ [{| exViaCall := call; exMessage := m;
                        exSucceeded := true; exReply := r |}])).

(** No queued runnable is stranded: a non-empty queue has its flag set,
    and a set flag has a drain task waiting on the main thread's loop. *)
Definition wakeup_pending (st : Sys) : Prop :=
  (gMainThreadRunnables st = [] \/
   gPostedProcessMainThreadRunnables st = true) /\
  (gPostedProcessMainThreadRunnables st = true ->
   In ProcessMainThreadRunnablesTask (mainLoop st)).

(** An assertion that survives every return of a computation. *)
Definition ret_preserves {A} (P : Sys -> Prop) (m : M A) : Prop :=
  forall st a st', P st -> m st = Ret a st' -> P st'.

Local Open Scope Z_scope.

(** ** Helper functions of ProcessRecordReplay.h

    [size_t] is the 64-bit unsigned type of the targets this code is
    built for: a value is a [Z] in [0, 2^64) and every arithmetic
    operation on it wraps around.  A pointer is the 64-bit address it
    holds; pointer arithmetic is arithmetic on addresses. *)

Definition size_t_modulus : Z := 2 ^ 64.

Definition to_size_t (z : Z) : Z := z mod size_t_modulus.

Definition is_size_t (z : Z) : Prop := 0 <= z < size_t_modulus.

(** The two pointer sums are 64-bit additions and wrap around like
    [size_t] sums. *)
Definition MemoryContains (aBase aSize aPtr aPtrSize : Z) : bool :=
  (aBase <=? aPtr)
  && (to_size_t (aPtr + aPtrSize) <=? to_size_t (aBase + aSize)).

Definition MemoryIntersects (aBase0 aSize0 aBase1 aSize1 : Z) : bool :=
  MemoryContains aBase0 aSize0 aBase1 1
  || MemoryContains aBase0 aSize0
       (to_size_t (to_size_t (aBase1 + aSize1) - 1)) 1
  || MemoryContains aBase1 aSize1 aBase0 1.

Definition PageSize : Z := 4096.

Definition PageBase (aAddress : Z) : Z := aAddress - (aAddress mod PageSize).

Definition RoundupSizeToPageBoundary (aSize : Z) : Z :=
  if negb (aSize mod PageSize =? 0)
  then to_size_t (to_size_t (aSize + PageSize) - aSize mod PageSize)
  else aSize.

(** The bytes of a memory range: the addresses [aBase <= a < aBase + aSize]. *)
Definition in_memory (aBase aSize a : Z) : Prop := aBase <= a < aBase + aSize.

Section Vectors.

Variable Entry : Type.
(** [operator==] of the entry type. *)
Variable Entry_eqb : Entry -> Entry -> bool.

(** [std::find(begin, end, aEntry) != end]. *)
Fixpoint VectorContains (aVector : list Entry) (aEntry : Entry) : bool :=
  match aVector with
  | [] => false
  | existing :: rest =>
      if Entry_eqb existing aEntry then true else VectorContains rest aEntry
  end.

(** The range-for loop of [VectorAddOrRemoveEntry] with the elements
    already passed in [seen] and the elements still to visit in the
    second list; [None] is a failed MOZ_RELEASE_ASSERT.  [erase] takes
    the one element the loop stands on out of the vector, [append]
    puts the entry behind the last element. *)
Fixpoint VectorAddOrRemoveEntry_from (seen aVector : list Entry)
         (aEntry : Entry) (aAdding : bool) : option (list Entry) :=
  match aVector with
  | [] => if aAdding then Some (seen ++ [aEntry]) else None
  | existing :: rest =>
      if Entry_eqb existing aEntry
      then (if negb aAdding then Some (seen ++ rest) else None)
      else VectorAddOrRemoveEntry_from (seen ++ [existing]) rest aEntry aAdding
  end.

Definition VectorAddOrRemoveEntry (aVector : list Entry) (aEntry : Entry)
           (aAdding : bool) : option (list Entry) :=
  VectorAddOrRemoveEntry_from [] aVector aEntry aAdding.

End Vectors.

Arguments VectorContains {Entry} Entry_eqb aVector aEntry.
Arguments VectorAddOrRemoveEntry_from {Entry} Entry_eqb seen aVector aEntry aAdding.
Arguments VectorAddOrRemoveEntry {Entry} Entry_eqb aVector aEntry aAdding.

(** ** The canvas memory of ParentGraphics.cpp *)

(** [CheckedInt<size_t>(a) * b]: the product, or [None] when it does not
    fit [size_t] and the checked integer is invalid. *)
Definition CheckedInt_mul (a b : Z) : option Z :=
  if a * b <? size_t_modulus then Some (a * b) else None.

(** The byte at an offset of an allocation, [None] outside it. *)
Definition byte_at (m : list Byte.byte) (i : Z) : option Byte.byte :=
  if i <? 0 then None else nth_error m (Z.to_nat i).

(** [memcpy(dst + dstOff, src + srcOff, n)] between two allocations;
    [None] when one of the two ranges leaves its allocation, which is
    undefined in the source. *)
Definition memcpy (dst : list Byte.byte) (dstOff : Z)
           (src : list Byte.byte) (srcOff n : Z) : option (list Byte.byte) :=
  if (dstOff + n <=? Z.of_nat (length dst))
     && (srcOff + n <=? Z.of_nat (length src))
  then Some (firstn (Z.to_nat dstOff) dst
             ++ firstn (Z.to_nat n) (skipn (Z.to_nat srcOff) src)
             ++ skipn (Z.to_nat (dstOff + n)) dst)
  else None.

(** The loop [for (size_t y = 0; y < aHeight; y++)] of
    UpdateMiddlemanCanvas from row [y] on, [rows] being the number of
    rows still to copy. *)
Fixpoint copy_rows (rows : nat) (y aWidth aStride : Z)
         (aData gBufferMemory : list Byte.byte) : option (list Byte.byte) :=
  match rows with
  | O => Some gBufferMemory
  | S rows' =>
      let src := to_size_t (y * aStride) in
      let dst := to_size_t (to_size_t (y * aWidth) * 4) in
      match memcpy gBufferMemory dst aData src (to_size_t (aWidth * 4)) with
      | None => None
      | Some buffer => copy_rows rows' (to_size_t (y + 1)) aWidth aStride
                                 aData buffer
      end
  end.

(** What UpdateMiddlemanCanvas has when it turns to the JS engine: the
    memory it hands over, the byte length it gives for it and the
    transform buffer it keeps; or a failed release assertion; or an
    access outside an allocation. *)
Inductive CanvasMemory : Type :=
| CanvasAssertFailed
| CanvasOutOfBounds
| CanvasReady (memory : list Byte.byte) (byteLength : Z)
              (gBufferMemory : option (list Byte.byte)).

Section Canvas.

(** [GraphicsMemorySize] is declared in ParentInternal.h. *)
Variable GraphicsMemorySize : Z.

(** The first part of UpdateMiddlemanCanvas, up to the row copy, with the
    byte length it computes later for the ArrayBuffer.  [aData] is [None]
    for a null pointer, [gBufferMemory] is [None] until the buffer is
    allocated, and [fresh] is what [malloc] hands out then. *)
Definition UpdateMiddlemanCanvas_memory (aWidth aHeight aStride : Z)
           (aData : option (list Byte.byte))
           (gBufferMemory : option (list Byte.byte))
           (fresh : list Byte.byte) : CanvasMemory :=
  let scaledWidth := CheckedInt_mul aWidth 4 in
  let scaledHeight := CheckedInt_mul aHeight aStride in
  if match scaledWidth with Some v => v <=? aStride | None => false end
  then
    if match scaledHeight with
       | Some v => v <=? GraphicsMemorySize
       | None => false
       end
    then
      match aData with
      | None => CanvasAssertFailed
      | Some data =>
          let byteLength := to_size_t (to_size_t (aWidth * aHeight) * 4) in
          if negb (aStride =? to_size_t (aWidth * 4))
          then
            let buffer := match gBufferMemory with
                          | Some b => b
                          | None => fresh
                          end in
            match copy_rows (Z.to_nat aHeight) 0 aWidth aStride data buffer with
            | Some memory => CanvasReady memory byteLength (Some memory)
            | None => CanvasOutOfBounds
            end
          else CanvasReady data byteLength gBufferMemory
      end
    else CanvasAssertFailed
  else CanvasAssertFailed.

(** A JS ArrayBuffer over memory its creator owns. *)
Record ArrayBuffer : Type := {
  contents : list Byte.byte;
  byteLength : Z
}.

(** The two statics of the file that UpdateMiddlemanCanvas reads and
    writes.  [gLastBuffer] is [None] for a null pointer and [Some None]
    for a root that holds no object. *)
Record Graphics : Type := {
  gBufferMemory : option (list Byte.byte);
  gLastBuffer : option (option ArrayBuffer)
}.

(** The JS engine and the graphics module are not among these sources.
    [ArrayBuffer_allocated] says whether
    [JS::NewArrayBufferWithUserOwnedContents] returns an object rather
    than null, [DetachArrayBuffer] is the result of
    [JS::DetachArrayBuffer], [UpdateCanvas_failed] says whether
    [NS_FAILED] holds of the result of [gGraphics->UpdateCanvas], and
    [MOZ_DIAGNOSTIC_ASSERT_enabled] says whether the build compiles the
    diagnostic assertion in, which is what [MOZ_ALWAYS_TRUE] comes to
    when its argument is false. *)
Variable ArrayBuffer_allocated : Z -> list Byte.byte -> bool.
Variable DetachArrayBuffer : ArrayBuffer -> bool.
Variable UpdateCanvas_failed : ArrayBuffer -> Z -> Z -> string -> bool.
Variable MOZ_DIAGNOSTIC_ASSERT_enabled : bool.

Definition NewArrayBufferWithUserOwnedContents (nbytes : Z)
           (memory : list Byte.byte) : option ArrayBuffer :=
  if ArrayBuffer_allocated nbytes memory
  then Some {| contents := memory; byteLength := nbytes |}
  else None.

(** The places at which UpdateMiddlemanCanvas stops the process. *)
Inductive CanvasFatalSite : Type :=
| CanvasArgumentAssert
| CanvasDetachAssert
| CanvasBufferObjectAssert
| CanvasUpdateCanvasCrash.

Inductive CanvasOutcome : Type :=
| CanvasFatal (site : CanvasFatalSite)
| CanvasOutOfBoundsAccess
| CanvasUpdated (g : Graphics).

(** UpdateMiddlemanCanvas.  The caller, UpdateGraphicsAfterPaint, has made
    sure that [gGraphics] is set. *)
Definition UpdateMiddlemanCanvas (aWidth aHeight aStride : Z)
           (aData : option (list Byte.byte)) (aOptions : string)
           (fresh : list Byte.byte) (g : Graphics) : CanvasOutcome :=
  match UpdateMiddlemanCanvas_memory aWidth aHeight aStride aData
          (gBufferMemory g) fresh with
  | CanvasAssertFailed => CanvasFatal CanvasArgumentAssert
  | CanvasOutOfBounds => CanvasOutOfBoundsAccess
  | CanvasReady memory nbytes buffer =>
      let detached :=
        match gLastBuffer g with
        | Some (Some last) => DetachArrayBuffer last
        | _ => true
        end in
      if negb detached && MOZ_DIAGNOSTIC_ASSERT_enabled
      then CanvasFatal CanvasDetachAssert
      else
        match NewArrayBufferWithUserOwnedContents nbytes memory with
        | None => CanvasFatal CanvasBufferObjectAssert
        | Some bufferObject =>
            if UpdateCanvas_failed bufferObject aWidth aHeight aOptions
            then CanvasFatal CanvasUpdateCanvasCrash
            else CanvasUpdated {| gBufferMemory := buffer;
                                  gLastBuffer := Some (Some bufferObject) |}
        end
  end.

End Canvas.

Local Close Scope Z_scope.

(** * Properties *)

(** ** Reading the monad *)

Lemma count_cons f e l :
  count f (e :: l) = (if f e then 1 else 0) + count f l.
Proof. unfold count; simpl; destruct (f e); reflexivity. Qed.

Lemma fire_allowed env t st :
  channel_down env ->
  trigger_allowed t = true ->
  exists st',
    fire env t st = Ret tt st' /\
    mainLoop st' = mainLoop st ++ [ShutdownTask] /\
    shutdownPosts st' = S (shutdownPosts st).
Proof.
  intros Hdown Hok. destruct t as [s | s | p m]; simpl in *.
  - destruct s; try discriminate. eexists; split; [reflexivity |].
    split; reflexivity.
  - eexists; split; [reflexivity |]. split; reflexivity.
  - destruct p; try discriminate.
    unfold ForwardMessageAsync. unfold_M. rewrite Hdown. simpl.
    eexists; split; [reflexivity |]. split; reflexivity.
Qed.

(** ** Shutdown *)

(** C7. A channel-closure event on the endpoint whose close is a shutdown
    trigger, the endpoint whose side is [ChildSide] (the worker-facing
    endpoint A of the shutdown section and of the close scenario of the
    specification), is not fatal: the assertion of [OnChannelClose] holds
    there, one shutdown task is posted to the main thread's loop, behind
    the tasks already waiting, and the handler returns, with the two
    endpoints, the runnable queue and the forwarding loop as they were. *)
Theorem channel_close_initiates_orderly_shutdown :
  forall st,
    exists st',
      OnChannelClose ChildSide st = Ret tt st' /\
      mainLoop st' = mainLoop st ++ [ShutdownTask] /\
      log st' = EvPostTask MainThreadMessageLoop ShutdownTask :: log st /\
      shutdownPosts st' = S (shutdownPosts st) /\
      forwardingLoop st' = forwardingLoop st /\
      gMainThreadRunnables st' = gMainThreadRunnables st /\
      gChildProtocol st' = gChildProtocol st /\
      gParentProtocol st' = gParentProtocol st.
Proof.
  intros st. unfold OnChannelClose.
  eexists. split; [reflexivity |].
  split; [reflexivity |]. split; [reflexivity |].
  split; [unfold shutdownPosts; simpl; apply count_cons |].
  repeat split.
Qed.

(** The assertion of [OnChannelClose] distinguishes the endpoints: on the
    endpoint whose side is [ParentSide] a close stops there and nothing is
    posted.  A channel error posts the shutdown task on either endpoint. *)
Lemma OnChannelClose_asserts_ChildSide :
  forall st,
    OnChannelClose ParentSide st
      = Stop (Crash "mSide == ipc::ChildSide") st /\
    (forall this, exists st',
       OnChannelError this st = Ret tt st' /\
       mainLoop st' = mainLoop st ++ [ShutdownTask] /\
       shutdownPosts st' = S (shutdownPosts st)).
Proof.
  intros st. split.
  - reflexivity.
  - intros this. eexists. split; [reflexivity |]. split; reflexivity.
Qed.

(** C3, as the code has it. [BeginShutdown] keeps no record of an earlier
    post: every trigger that passes its assertion posts one more shutdown
    task, so [k] triggers post [k] tasks. *)
Theorem every_trigger_posts_a_shutdown_task :
  forall env ts st,
    channel_down env ->
    forallb trigger_allowed ts = true ->
    exists st',
      fire_all env ts st = Ret tt st' /\
      mainLoop st' = mainLoop st ++ repeat ShutdownTask (length ts) /\
      shutdownPosts st' = shutdownPosts st + length ts.
Proof.
  intros env ts. induction ts as [| t ts IH]; intros st Hdown Hall.
  - exists st. simpl. rewrite app_nil_r, Nat.add_0_r. auto.
  - simpl in Hall. apply andb_true_iff in Hall as [Ht Hts].
    destruct (fire_allowed env t st Hdown Ht) as (st1 & Hf & Hl & Hc).
    destruct (IH st1 Hdown Hts) as (st2 & Hf2 & Hl2 & Hc2).
    exists st2. simpl. unfold bind at 1. rewrite Hf.
    split; [exact Hf2 |]. split.
    + rewrite Hl2, Hl, <- app_assoc. reflexivity.
    + rewrite Hc2, Hc. lia.
Qed.

Lemma every_trigger_posts_a_shutdown_task_witness :
  exists st',
    fire_all (Demo.env false)
      [ChannelClose ChildSide; ChannelError ParentSide;
       SendFailure ParentSide (Demo.msg 5 10)] Demo.st0 = Ret tt st' /\
    mainLoop st' = mainLoop Demo.st0 ++ repeat ShutdownTask 3 /\
    shutdownPosts st' = shutdownPosts Demo.st0 + 3.
Proof.
  apply (every_trigger_posts_a_shutdown_task (Demo.env false)
           [ChannelClose ChildSide; ChannelError ParentSide;
            SendFailure ParentSide (Demo.msg 5 10)] Demo.st0).
  - intros s l m. reflexivity.
  - reflexivity.
Defined.

(** C3, as stated, fails: a second close event before the shutdown task
    has run posts a second shutdown task. *)
Lemma second_trigger_posts_second_shutdown_task :
  exists st',
    fire_all (Demo.env true)
      [ChannelClose ChildSide; ChannelClose ChildSide] Demo.st0
      = Ret tt st' /\
    mainLoop st' = [ShutdownTask; ShutdownTask] /\
    shutdownPosts st' = 2 /\
    shutdownPosts st' <> 1.
Proof.
  eexists. split; [reflexivity |]. repeat split. discriminate.
Qed.

Lemma bind_Ret_inv {A B} (m : M A) (k : A -> M B) st b st' :
  bind m k st = Ret b st' ->
  exists a st1, m st = Ret a st1 /\ k a st1 = Ret b st'.
Proof.
  unfold bind. destruct (m st) as [a st1 | h st1]; [eauto | discriminate].
Qed.

Lemma bind_Ret {A B} (m : M A) (k : A -> M B) st a st1 :
  m st = Ret a st1 -> bind m k st = k a st1.
Proof. unfold bind. intros ->. reflexivity. Qed.

Lemma bind_Stop {A B} (m : M A) (k : A -> M B) st h st1 :
  m st = Stop h st1 -> bind m k st = Stop h st1.
Proof. unfold bind. intros ->. reflexivity. Qed.

(** ** Synchronous messages on the ChildSide endpoint *)

Lemma HandleSyncMessage_begin_ChildSide m call st l :
  mOppositeMessageLoop (gChildProtocol st) = Some l ->
  exists st',
    HandleSyncMessage_begin ChildSide m call st = Stop (Crash "NYI") st' /\
    log st' =
      EvPostTask l (RunnableTask (StaticMaybeSendSyncMessageRunnable ChildSide))
        :: log st /\
    mSyncMessage (gChildProtocol st') = Some m /\
    mSyncMessageIsCall (gChildProtocol st') = call.
Proof.
  intros Hl. unfold HandleSyncMessage_begin, PostOppositeRunnable.
  unfold_M. simpl. rewrite Hl. simpl. rewrite Hl.
  destruct l; eexists; (split; [reflexivity |]); repeat split.
Qed.

Lemma HandleSyncMessage_begin_ChildSide_stops m call st :
  returns (HandleSyncMessage_begin ChildSide m call st) = false.
Proof.
  unfold HandleSyncMessage_begin, PostOppositeRunnable. unfold_M. simpl.
  destruct (mOppositeMessageLoop (gChildProtocol st)) as [l |] eqn:Hl;
    simpl; [| reflexivity].
  rewrite Hl. destruct l; reflexivity.
Qed.

Lemma HandleSyncMessage_ChildSide_stops env m call sched st :
  returns (HandleSyncMessage env ChildSide m call sched st) = false.
Proof.
  unfold HandleSyncMessage.
  pose proof (HandleSyncMessage_begin_ChildSide_stops m call st) as H.
  destruct (HandleSyncMessage_begin ChildSide m call st) as [u st1 | h st1]
    eqn:E; [discriminate |].
  rewrite (bind_Stop _ _ _ _ _ E). reflexivity.
Qed.

Lemma HandleSyncMessage_ChildSide_crashes env m call sched st :
  exists why st',
    HandleSyncMessage env ChildSide m call sched st = Stop (Crash why) st'.
Proof.
  unfold HandleSyncMessage, HandleSyncMessage_begin, PostOppositeRunnable.
  unfold_M. simpl.
  destruct (mOppositeMessageLoop (gChildProtocol st)) as [l |] eqn:Hl;
    simpl; [| eauto].
  rewrite Hl. destruct l; simpl; eauto.
Qed.

(** C10. On the endpoint whose side is [ChildSide] a synchronous message
    is always fatal.  With the opposite loop established,
    [HandleSyncMessage] stores the message, posts the
    [StaticMaybeSendSyncMessage] runnable to that loop and then stops at
    [MOZ_CRASH("NYI")], and so do both synchronous handlers (without the
    loop the assertion at the head of [HandleSyncMessage] is fatal before
    anything is posted).  A [HandleSyncMessage] that returns was called on
    the endpoint whose side is [ParentSide]. *)
Theorem sync_message_on_ChildSide_is_NYI :
  forall env m call sched st,
    (exists why st',
       HandleSyncMessage env ChildSide m call sched st
         = Stop (Crash why) st') /\
    (forall l,
       mOppositeMessageLoop (gChildProtocol st) = Some l ->
       (exists st',
          HandleSyncMessage env ChildSide m call sched st
            = Stop (Crash "NYI") st' /\
          log st' =
            EvPostTask l
              (RunnableTask (StaticMaybeSendSyncMessageRunnable ChildSide))
              :: log st /\
          mSyncMessage (gChildProtocol st') = Some m) /\
       (exists st',
          OnMessageReceivedSync env ChildSide m sched st
            = Stop (Crash "NYI") st') /\
       (exists st',
          OnCallReceived env ChildSide m sched st
            = Stop (Crash "NYI") st')) /\
    (forall this r st',
       HandleSyncMessage env this m call sched st = Ret r st' ->
       this = ParentSide).
Proof.
  intros env m call sched st.
  split; [apply HandleSyncMessage_ChildSide_crashes |]. split.
  - intros l Hl.
    assert (Hb : forall c, exists st',
               HandleSyncMessage env ChildSide m c sched st
                 = Stop (Crash "NYI") st' /\
               log st' =
                 EvPostTask l
                   (RunnableTask
                      (StaticMaybeSendSyncMessageRunnable ChildSide))
                   :: log st /\
               mSyncMessage (gChildProtocol st') = Some m).
    { intros c.
      destruct (HandleSyncMessage_begin_ChildSide m c st l Hl)
        as (st' & Hs & Hlog & Hm & _).
      exists st'. unfold HandleSyncMessage.
      rewrite (bind_Stop _ _ _ _ _ Hs). auto. }
    split; [apply Hb |]. split.
    + destruct (Hb false) as (st' & Hs & _). exists st'.
      unfold OnMessageReceivedSync. rewrite (bind_Stop _ _ _ _ _ Hs).
      reflexivity.
    + destruct (Hb true) as (st' & Hs & _). exists st'.
      unfold OnCallReceived. rewrite (bind_Stop _ _ _ _ _ Hs). reflexivity.
  - intros this r st' Hr. destruct this; [reflexivity |].
    pose proof (HandleSyncMessage_ChildSide_stops env m call sched st) as H.
    rewrite Hr in H. discriminate.
Qed.

Lemma sync_message_on_ChildSide_is_NYI_witness :
  exists st',
    HandleSyncMessage (Demo.env true) ChildSide (Demo.msg 7 3) true
      [MainRunNextTask 5] Demo.st0 = Stop (Crash "NYI") st' /\
    log st' =
      EvPostTask gForwardingMessageLoop
        (RunnableTask (StaticMaybeSendSyncMessageRunnable ChildSide))
        :: log Demo.st0 /\
    mSyncMessage (gChildProtocol st') = Some (Demo.msg 7 3).
Proof.
  apply (proj1 (proj1 (proj2
           (sync_message_on_ChildSide_is_NYI (Demo.env true) (Demo.msg 7 3)
              true [MainRunNextTask 5] Demo.st0))
           gForwardingMessageLoop eq_refl)).
Defined.

(** ** Assertions that survive a computation *)

Lemma preserves_ret {A} P (a : A) : preserves P (ret a).
Proof. intros st H. exact H. Qed.

Lemma preserves_get P : preserves P get.
Proof. intros st H. exact H. Qed.

Lemma preserves_crash {A} P why : preserves P (@crash A why).
Proof. intros st H. exact H. Qed.

Lemma preserves_assert P c what : preserves P (MOZ_RELEASE_ASSERT c what).
Proof. intros st H. destruct c; exact H. Qed.

Lemma preserves_this_protocol P this : preserves P (this_protocol this).
Proof.
  intros st H. unfold this_protocol. destruct (proto this st); exact H.
Qed.

Lemma preserves_modify P f :
  (forall st, P st -> P (f st)) -> preserves P (modify f).
Proof. intros Hf st H. apply Hf, H. Qed.

Lemma preserves_bind {A B} P (m : M A) (k : A -> M B) :
  preserves P m -> (forall a, preserves P (k a)) -> preserves P (bind m k).
Proof.
  intros Hm Hk st H. unfold bind. specialize (Hm st H).
  destruct (m st) as [a st1 | h st1]; simpl in *; [apply Hk, Hm | exact Hm].
Qed.

Lemma preserves_Shutdown P : preserves P Shutdown.
Proof. intros st H. exact H. Qed.

Ltac pres_step leaf :=
  lazymatch goal with
  | |- preserves _ (ret _) => apply preserves_ret
  | |- preserves _ (bind _ _) => apply preserves_bind; [| intros ?]
  | |- preserves _ get => apply preserves_get
  | |- preserves _ (crash _) => apply preserves_crash
  | |- preserves _ (MOZ_RELEASE_ASSERT _ _) => apply preserves_assert
  | |- preserves _ (this_protocol _) => apply preserves_this_protocol
  | |- preserves _ (modify _) => apply preserves_modify; leaf
  | |- preserves _ Shutdown => apply preserves_Shutdown
  | |- preserves _ (match ?x with _ => _ end) => destruct x
  end.

Ltac pres leaf := repeat pres_step leaf.

Section Frame.

Variable P : Sys -> Prop.
Hypothesis P_emit : forall e st, frame_event e = true -> P st -> P (emit e st).
Hypothesis P_set_proto : forall s p st, P st -> P (set_proto s p st).
Hypothesis P_set_loops :
  forall ml fl st, P st -> P (set_loops ml fl st).
Hypothesis P_set_contentChild : forall c st, P st -> P (set_contentChild c st).

Ltac frame_leaf :=
  intros; simpl;
  repeat first
    [ assumption
    | apply P_emit; [reflexivity |]
    | apply P_set_proto
    | apply P_set_loops
    | apply P_set_contentChild ].

Lemma frame_PostTask l t :
  frame_event (EvPostTask l t) = true -> preserves P (PostTask l t).
Proof.
  intros He. unfold PostTask. apply preserves_modify. intros st H.
  apply P_emit; [exact He |]. destruct l; apply P_set_loops, H.
Qed.

Lemma frame_BeginShutdown : preserves P BeginShutdown.
Proof. apply frame_PostTask. reflexivity. Qed.

Lemma frame_NotifyAll : preserves P NotifyAll.
Proof. unfold NotifyAll. pres frame_leaf. Qed.

Lemma frame_set_sync_slots this a b c :
  preserves P (set_sync_slots this a b c).
Proof. unfold set_sync_slots. pres frame_leaf. Qed.

Lemma frame_ContentChild_OnMessageReceived env m :
  preserves P (ContentChild_OnMessageReceived env m).
Proof.
  intros st H. unfold ContentChild_OnMessageReceived.
  destruct (PContentChild_OnMessageReceived env (contentChild st) m).
  simpl. frame_leaf.
Qed.

Lemma frame_CompositorChild_OnMessageReceived env m :
  preserves P (CompositorChild_OnMessageReceived env m).
Proof.
  intros st H. unfold CompositorChild_OnMessageReceived. simpl. frame_leaf.
Qed.

Lemma frame_HandleMessageInMiddleman ids env aSide m :
  preserves P (HandleMessageInMiddleman ids env aSide m).
Proof.
  unfold HandleMessageInMiddleman, assert_processed.
  repeat first
    [ apply frame_ContentChild_OnMessageReceived
    | apply frame_CompositorChild_OnMessageReceived
    | pres_step frame_leaf ].
Qed.

Lemma frame_ForwardMessageAsync env aProtocol m :
  preserves P (ForwardMessageAsync env aProtocol m).
Proof.
  unfold ForwardMessageAsync.
  repeat first [ apply frame_BeginShutdown | pres_step frame_leaf ].
Qed.

Lemma frame_MaybeSendSyncMessage_alloc env this :
  preserves P (MaybeSendSyncMessage_alloc env this).
Proof.
  unfold MaybeSendSyncMessage_alloc.
  repeat first [ apply frame_set_sync_slots | pres_step frame_leaf ].
Qed.

Lemma frame_MaybeSendSyncMessage_transmit env this :
  preserves P (MaybeSendSyncMessage_transmit env this).
Proof.
  unfold MaybeSendSyncMessage_transmit.
  repeat first
    [ apply frame_set_sync_slots
    | apply frame_BeginShutdown
    | apply frame_NotifyAll
    | pres_step frame_leaf ].
Qed.

Lemma frame_MaybeSendSyncMessage env this :
  preserves P (MaybeSendSyncMessage env this).
Proof.
  unfold MaybeSendSyncMessage.
  repeat first
    [ apply frame_MaybeSendSyncMessage_alloc
    | apply frame_MaybeSendSyncMessage_transmit
    | pres_step frame_leaf ].
Qed.

Lemma frame_HandleSyncMessage_end this :
  preserves P (HandleSyncMessage_end this).
Proof.
  unfold HandleSyncMessage_end.
  repeat first [ apply frame_set_sync_slots | pres_step frame_leaf ].
Qed.

Lemma frame_fire env t : preserves P (fire env t).
Proof.
  destruct t; simpl; unfold OnChannelClose, OnChannelError;
    repeat first
      [ apply frame_BeginShutdown
      | apply frame_ForwardMessageAsync
      | pres_step frame_leaf ].
Qed.

Hypothesis P_run : forall r st, P st -> P (emit (EvRun r) st).

Lemma frame_Run env r : preserves P (Run env r).
Proof.
  unfold Run. apply preserves_bind.
  - apply preserves_modify. intros st H. apply P_run, H.
  - intros _. destruct r;
      [apply frame_ForwardMessageAsync | apply frame_MaybeSendSyncMessage].
Qed.

End Frame.

(** ** The main-thread runnable queue *)

Lemma DispatchToMainThread_spec r st :
  exists st',
    DispatchToMainThread r st = Ret tt st' /\
    gMainThreadRunnables st' = gMainThreadRunnables st ++ [r] /\
    gPostedProcessMainThreadRunnables st' = true /\
    wakeupPosts st' =
      wakeupPosts st +
      (if gPostedProcessMainThreadRunnables st then 0 else 1) /\
    mainLoop st' =
      mainLoop st ++
      (if gPostedProcessMainThreadRunnables st then []
       else [ProcessMainThreadRunnablesTask]).
Proof.
  unfold DispatchToMainThread. unfold_M. simpl.
  destruct (gPostedProcessMainThreadRunnables st) eqn:Hp; simpl;
    eexists; (split; [reflexivity |]); simpl.
  - rewrite app_nil_r, Nat.add_0_r. repeat split; auto.
  - unfold wakeupPosts. simpl. rewrite count_cons. simpl.
    repeat split; auto. lia.
Qed.


Lemma Run_keeps_queue env r q b : preserves (queue_is q b) (Run env r).
Proof.
  apply frame_Run; unfold queue_is; intros; try destruct s; simpl; assumption.
Qed.





Lemma nth_error_middle {A} (pre : list A) (r : A) (rs : list A) :
  nth_error (pre ++ r :: rs) (length pre) = Some r.
Proof. induction pre as [| a pre IH]; simpl; [reflexivity | exact IH]. Qed.

Lemma nth_error_end {A} (pre : list A) : nth_error pre (length pre) = None.
Proof. apply nth_error_None. lia. Qed.

(** The index loop runs the queue from position [length pre] on, one
    runnable after the other, and needs one unit of fuel more than there
    are runnables left. *)
Lemma ProcessMainThreadRunnables_loop_runs env rs :
  forall pre b fuel st,
    queue_is (pre ++ rs) b st ->
    length rs < fuel ->
    ProcessMainThreadRunnables_loop env fuel (length pre) st
      = Run_in_order env rs st.
Proof.
  induction rs as [| r rs IH]; intros pre b fuel st Hq Hf.
  - destruct fuel as [| fuel]; [simpl in Hf; lia |].
    simpl. destruct Hq as [Hq _]. rewrite Hq, app_nil_r, nth_error_end.
    reflexivity.
  - destruct fuel as [| fuel]; [simpl in Hf; lia |].
    simpl. destruct Hq as [Hq Hb]. rewrite Hq, nth_error_middle.
    unfold bind.
    pose proof (Run_keeps_queue env r (pre ++ r :: rs) b st (conj Hq Hb))
      as Hk.
    destruct (Run env r st) as [u st1 | h st1]; [| reflexivity].
    simpl in Hk.
    replace (S (length pre)) with (length (pre ++ [r]))
      by (rewrite length_app; simpl; lia).
    apply (IH (pre ++ [r]) b).
    + rewrite <- app_assoc. exact Hk.
    + simpl in Hf. lia.
Qed.


(** The drain of the example returns, the two runnables having run. *)
Example drain_of_two_runnables :
  exists st1 st2,
    DispatchToMainThread_all
      [ForwardMessageAsyncRunnable ChildSide (Demo.msg 5 10);
       StaticMaybeSendSyncMessageRunnable ParentSide] Demo.st0
      = Ret tt st1 /\
    ProcessMainThreadRunnables (Demo.env true) 3 st1 = Ret tt st2 /\
    runs (log st2) =
      [ForwardMessageAsyncRunnable ChildSide (Demo.msg 5 10);
       StaticMaybeSendSyncMessageRunnable ParentSide] /\
    wakeupPosts st2 = 1.
Proof.
  eexists. eexists. split; [reflexivity |]. split; [reflexivity |].
  split; reflexivity.
Qed.

(** ** The interception policy *)

Lemma found_browser_In c m :
  found_browser c m = true <-> In (routing_id m) (ManagedPBrowserChild c).
Proof.
  unfold found_browser. rewrite existsb_exists. split.
  - intros (id & Hin & Heq). apply Z.eqb_eq in Heq. subst. exact Hin.
  - intros Hin. exists (routing_id m). split; [exact Hin | apply Z.eqb_refl].
Qed.

Lemma HandleMessageInMiddleman_ParentSide ids env m st :
  HandleMessageInMiddleman ids env ParentSide m st = Ret false st.
Proof. reflexivity. Qed.

Lemma HandleMessageInMiddleman_browser_missing ids env m st :
  sent_to_both ids (type m) = true ->
  in_range (PBrowserStart ids) (PBrowserEnd ids) (type m) = true ->
  found_browser (contentChild st) m = false ->
  HandleMessageInMiddleman ids env ChildSide m st = Ret false st.
Proof.
  intros Hb Hr Hf. unfold HandleMessageInMiddleman. simpl.
  rewrite Hb. unfold bind, get. rewrite Hr, Hf. reflexivity.
Qed.

Lemma HandleMessageInMiddleman_browser_found ids env m st :
  sent_to_both ids (type m) = true ->
  found_browser (contentChild st) m = true ->
  HandleMessageInMiddleman ids env ChildSide m st =
    let (r, c) := PContentChild_OnMessageReceived env (contentChild st) m in
    let st' := emit (EvContentChildReceived m) (set_contentChild c st) in
    if IProtocolResult_eqb r MsgProcessed then Ret false st'
    else Stop (Crash "r == ipc::IProtocol::MsgProcessed") st'.
Proof.
  intros Hb Hf. unfold HandleMessageInMiddleman. simpl.
  rewrite Hb. unfold bind at 1. unfold get. rewrite Hf, andb_false_r.
  unfold ContentChild_OnMessageReceived, assert_processed. unfold_M.
  destruct (PContentChild_OnMessageReceived env (contentChild st) m) as [r c].
  destruct r; reflexivity.
Qed.

Lemma deliver_to_ContentChild_returns {A} env m (a : A) st :
  local_delivery_ok env ->
  exists st',
    (r <- ContentChild_OnMessageReceived env m ;;
     assert_processed r ;;;
     ret a) st = Ret a st'.
Proof.
  intros [Hc _]. unfold ContentChild_OnMessageReceived, assert_processed.
  unfold_M. pose proof (Hc (contentChild st) m) as Hc'.
  destruct (PContentChild_OnMessageReceived env (contentChild st) m) as [r c].
  simpl in Hc'. subst r. simpl. eauto.
Qed.

Lemma deliver_to_CompositorChild_returns {A} env m (a : A) st :
  local_delivery_ok env ->
  exists st',
    (r <- CompositorChild_OnMessageReceived env m ;;
     assert_processed r ;;;
     ret a) st = Ret a st'.
Proof.
  intros [_ Hk]. unfold CompositorChild_OnMessageReceived, assert_processed.
  unfold_M. rewrite Hk. simpl. eauto.
Qed.

Lemma HandleMessageInMiddleman_returns ids env aSide m st :
  local_delivery_ok env ->
  exists b st', HandleMessageInMiddleman ids env aSide m st = Ret b st'.
Proof.
  intros Hok. unfold HandleMessageInMiddleman.
  destruct (Side_eqb aSide ParentSide); [unfold ret; eauto |].
  destruct (sent_to_both ids (type m)).
  { unfold bind at 1. unfold get.
    destruct (in_range (PBrowserStart ids) (PBrowserEnd ids) (type m)
              && negb (found_browser (contentChild st) m));
      [unfold ret; eauto |].
    eexists. apply deliver_to_ContentChild_returns, Hok. }
  destruct (sent_to_middleman_only ids (type m)).
  { eexists. apply deliver_to_ContentChild_returns, Hok. }
  destruct (in_range (PCompositorBridgeStart ids) (PCompositorBridgeEnd ids)
              (type m)).
  { eexists. apply deliver_to_CompositorChild_returns, Hok. }
  destruct (in_range (PWindowGlobalStart ids) (PWindowGlobalEnd ids) (type m)).
  { unfold bind at 1. unfold get.
    destruct (Lookup (contentChild st) (routing_id m));
      [| unfold ret; eauto].
    eexists. apply deliver_to_ContentChild_returns, Hok. }
  destruct (MessageOriginatesFromMiddleman env m); unfold ret; eauto.
Qed.

Lemma HandleMessageInMiddleman_keeps_child ids env aSide m st :
  gChildProtocol (final_state (HandleMessageInMiddleman ids env aSide m st))
    = gChildProtocol st.
Proof.
  apply (frame_HandleMessageInMiddleman
           (fun s => gChildProtocol s = gChildProtocol st));
    intros; simpl; auto.
Qed.

Lemma returns_only_ret {A} (Q : A -> Prop) a : Q a -> returns_only Q (ret a).
Proof. intros H st b st' E. inversion E; subst. exact H. Qed.

Lemma returns_only_bind {A B} (Q : B -> Prop) (m : M A) (k : A -> M B) :
  (forall a, returns_only Q (k a)) -> returns_only Q (bind m k).
Proof.
  intros Hk st b st' E. apply bind_Ret_inv in E as (a & st1 & _ & E).
  exact (Hk a st1 b st' E).
Qed.

Lemma OnMessageReceived_status ids env this m :
  returns_only (fun r => r = MsgProcessed) (OnMessageReceived ids env this m).
Proof.
  unfold OnMessageReceived.
  apply returns_only_bind. intros p.
  destruct (mOppositeMessageLoop p).
  - apply returns_only_bind. intros handled. destruct handled.
    + apply returns_only_ret. reflexivity.
    + apply returns_only_bind. intros _. apply returns_only_ret. reflexivity.
  - apply returns_only_bind. intros _. apply returns_only_bind. intros _.
    apply returns_only_ret. reflexivity.
Qed.

Lemma OnMessageReceivedSync_status env this m sched :
  returns_only (fun ra => fst ra = MsgProcessed)
    (OnMessageReceivedSync env this m sched).
Proof.
  unfold OnMessageReceivedSync. apply returns_only_bind. intros a.
  apply returns_only_ret. reflexivity.
Qed.

Lemma OnCallReceived_status env this m sched :
  returns_only (fun ra => fst ra = MsgProcessed)
    (OnCallReceived env this m sched).
Proof.
  unfold OnCallReceived. apply returns_only_bind. intros a.
  apply returns_only_ret. reflexivity.
Qed.

Lemma OnMessageReceived_returns ids env this m st p :
  local_delivery_ok env ->
  proto this st = Some p ->
  (mOppositeMessageLoop p <> None \/ this = ChildSide) ->
  exists st', OnMessageReceived ids env this m st = Ret MsgProcessed st'.
Proof.
  intros Hok Hp Hpre. unfold OnMessageReceived.
  unfold bind at 1. unfold this_protocol. rewrite Hp.
  destruct (HandleMessageInMiddleman_returns ids env this m st Hok)
    as (b & st1 & E).
  pose proof (HandleMessageInMiddleman_keeps_child ids env this m st) as Hk.
  rewrite E in Hk. simpl in Hk.
  destruct (mOppositeMessageLoop p) as [l |] eqn:Hl.
  - rewrite (bind_Ret _ _ _ _ _ E). destruct b; [eexists; reflexivity |].
    destruct this.
    + unfold PostOppositeRunnable. simpl.
      destruct (DispatchToMainThread_spec
                  (ForwardMessageAsyncRunnable ChildSide m) st1)
        as (st2 & E2 & _).
      rewrite (bind_Ret _ _ _ _ _ E2). eexists; reflexivity.
    + unfold PostOppositeRunnable. simpl. unfold_M. simpl.
      simpl in Hp. inversion Hp; subst p. rewrite Hk, Hl.
      eexists; reflexivity.
  - destruct Hpre as [Hn | ->]; [congruence |]. simpl.
    unfold bind at 1. simpl. rewrite (bind_Ret _ _ _ _ _ E).
    eexists; reflexivity.
Qed.

Lemma found_browser_false_In c m :
  found_browser c m = false <-> ~ In (routing_id m) (ManagedPBrowserChild c).
Proof.
  rewrite <- found_browser_In. destruct (found_browser c m); split;
    congruence.
Qed.

(** C4. A message received on the endpoint whose side is [ChildSide]
    (the only side the policy intercepts; on [ParentSide] it returns
    before looking at the type), of a type in the sent-to-both list and in
    the [PBrowser] range: it is handed to the local [ContentChild] exactly
    when a managed [PBrowserChild] has its routing id.  Without such an
    actor nothing is delivered, the policy answers "forward", and the
    handler posts the [ForwardMessageAsync] runnable for the opposite
    endpoint with a copy of the message.  The policy never answers
    "handled here" for such a message. *)
Theorem dual_delivery_needs_a_local_browser_actor :
  forall ids env m st,
    sent_to_both ids (type m) = true ->
    in_range (PBrowserStart ids) (PBrowserEnd ids) (type m) = true ->
    let o := HandleMessageInMiddleman ids env ChildSide m st in
    let actor := In (routing_id m) (ManagedPBrowserChild (contentChild st)) in
    (actor -> log (final_state o) = EvContentChildReceived m :: log st) /\
    (~ actor -> o = Ret false st) /\
    (contentDeliveries (final_state o) = S (contentDeliveries st)
       <-> actor) /\
    (forall b st', o = Ret b st' -> b = false) /\
    (~ actor ->
     forall l, mOppositeMessageLoop (gChildProtocol st) = Some l ->
     exists st',
       OnMessageReceived ids env ChildSide m st = Ret MsgProcessed st' /\
       log st' =
         EvPostTask l (RunnableTask (ForwardMessageAsyncRunnable ParentSide m))
           :: log st) /\
    (actor ->
     fst (PContentChild_OnMessageReceived env (contentChild st) m)
       = MsgProcessed ->
     forall l, mOppositeMessageLoop (gChildProtocol st) = Some l ->
     exists st',
       OnMessageReceived ids env ChildSide m st = Ret MsgProcessed st' /\
       log st' =
         EvPostTask l (RunnableTask (ForwardMessageAsyncRunnable ParentSide m))
           :: EvContentChildReceived m :: log st).
Proof.
  intros ids env m st Hb Hr o actor.
  destruct (found_browser (contentChild st) m) eqn:Hf.
  - assert (Ha : actor) by (apply found_browser_In; exact Hf).
    pose proof (HandleMessageInMiddleman_browser_found ids env m st Hb Hf)
      as Ho.
    fold o in Ho.
    destruct (PContentChild_OnMessageReceived env (contentChild st) m)
      as [r c] eqn:Er.
    assert (Hlog : log (final_state o) = EvContentChildReceived m :: log st).
    { rewrite Ho. destruct (IProtocolResult_eqb r MsgProcessed); reflexivity. }
    split; [intros _; exact Hlog |].
    split; [intros Hn; contradiction |].
    split.
    { split; [intros _; exact Ha |]. intros _.
      unfold contentDeliveries. rewrite Hlog, count_cons. reflexivity. }
    split.
    { intros b st' E. rewrite Ho in E.
      destruct (IProtocolResult_eqb r MsgProcessed); inversion E; reflexivity. }
    split; [intros Hn; contradiction |].
    intros _ Hp l Hl. simpl in Hp. subst r. simpl in Ho.
    unfold OnMessageReceived. unfold bind at 1. unfold this_protocol. simpl.
    rewrite Hl. fold o. rewrite (bind_Ret _ _ _ _ _ Ho).
    unfold PostOppositeRunnable. simpl. unfold_M. simpl. rewrite Hl.
    eexists. split; [reflexivity |]. destruct l; reflexivity.
  - assert (Ha : ~ actor) by (apply found_browser_false_In; exact Hf).
    pose proof (HandleMessageInMiddleman_browser_missing ids env m st Hb Hr Hf)
      as Ho.
    fold o in Ho.
    split; [intros H; contradiction |].
    split; [intros _; exact Ho |].
    split.
    { split; [| intros H; contradiction]. rewrite Ho. simpl. lia. }
    split; [intros b st' E; rewrite Ho in E; inversion E; reflexivity |].
    split; [| intros H; contradiction].
    intros _ l Hl.
    unfold OnMessageReceived. unfold bind at 1. unfold this_protocol. simpl.
    rewrite Hl. fold o. rewrite (bind_Ret _ _ _ _ _ Ho).
    unfold PostOppositeRunnable. simpl. unfold_M. simpl. rewrite Hl.
    eexists. split; [reflexivity |]. destruct l; reflexivity.
Qed.

Lemma dual_delivery_needs_a_local_browser_actor_witness :
  let m := Demo.msg 1310729 12 in
  let st := Demo.st0 in
  let o := HandleMessageInMiddleman Demo.ids (Demo.env true) ChildSide m st in
  let actor := In (routing_id m) (ManagedPBrowserChild (contentChild st)) in
  (actor -> log (final_state o) = EvContentChildReceived m :: log st) /\
  (~ actor -> o = Ret false st) /\
  (contentDeliveries (final_state o) = S (contentDeliveries st) <-> actor) /\
  (forall b st', o = Ret b st' -> b = false) /\
  (~ actor ->
   forall l, mOppositeMessageLoop (gChildProtocol st) = Some l ->
   exists st',
     OnMessageReceived Demo.ids (Demo.env true) ChildSide m st
       = Ret MsgProcessed st' /\
     log st' =
       EvPostTask l (RunnableTask (ForwardMessageAsyncRunnable ParentSide m))
         :: log st) /\
  (actor ->
   fst (PContentChild_OnMessageReceived (Demo.env true) (contentChild st) m)
     = MsgProcessed ->
   forall l, mOppositeMessageLoop (gChildProtocol st) = Some l ->
   exists st',
     OnMessageReceived Demo.ids (Demo.env true) ChildSide m st
       = Ret MsgProcessed st' /\
     log st' =
       EvPostTask l (RunnableTask (ForwardMessageAsyncRunnable ParentSide m))
         :: EvContentChildReceived m :: log st).
Proof.
  apply (dual_delivery_needs_a_local_browser_actor Demo.ids (Demo.env true)
           (Demo.msg 1310729 12) Demo.st0); reflexivity.
Defined.

(** The two cases of the policy on the example actors, and the origin
    check. *)
Example destroy_for_known_browser :
  exists st',
    OnMessageReceived Demo.ids (Demo.env true) ChildSide
      (Demo.msg 1310729 10) Demo.st0 = Ret MsgProcessed st' /\
    log st' =
      [EvPostTask gForwardingMessageLoop
         (RunnableTask
            (ForwardMessageAsyncRunnable ParentSide (Demo.msg 1310729 10)));
       EvContentChildReceived (Demo.msg 1310729 10)].
Proof. eexists. split; [lazy; reflexivity | reflexivity]. Qed.

Example destroy_for_unknown_browser :
  exists st',
    OnMessageReceived Demo.ids (Demo.env true) ChildSide
      (Demo.msg 1310729 12) Demo.st0 = Ret MsgProcessed st' /\
    log st' =
      [EvPostTask gForwardingMessageLoop
         (RunnableTask
            (ForwardMessageAsyncRunnable ParentSide (Demo.msg 1310729 12)))].
Proof. eexists. split; [lazy; reflexivity | reflexivity]. Qed.

Example destroy_received_on_ParentSide :
  HandleMessageInMiddleman Demo.ids (Demo.env true) ParentSide
    (Demo.msg 1310729 10) Demo.st0 = Ret false Demo.st0.
Proof. reflexivity. Qed.

(** ** The synchronous exchange, function by function *)

Lemma MaybeSendSyncMessage_alloc_none env this st p :
  proto this st = Some p ->
  mSyncMessage p = None ->
  MaybeSendSyncMessage_alloc env this st = Ret false st.
Proof.
  intros Hp Hm. unfold MaybeSendSyncMessage_alloc. unfold_M.
  rewrite Hp, Hm. reflexivity.
Qed.

Lemma MaybeSendSyncMessage_alloc_pending env this st p m :
  proto this st = Some p ->
  mSyncMessage p = Some m ->
  mSyncMessageReply p = None ->
  MaybeSendSyncMessage_alloc env this st =
    Ret true
      (set_proto this (with_slots p (Some m) (Some (new_Message env))) st).
Proof.
  intros Hp Hm Hr. unfold MaybeSendSyncMessage_alloc. unfold_M.
  rewrite Hp, Hm, Hr. simpl. rewrite Hp. reflexivity.
Qed.

Lemma MaybeSendSyncMessage_alloc_occupied env this st p m r :
  proto this st = Some p ->
  mSyncMessage p = Some m ->
  mSyncMessageReply p = Some r ->
  MaybeSendSyncMessage_alloc env this st
    = Stop (Crash "!mSyncMessageReply") st.
Proof.
  intros Hp Hm Hr. unfold MaybeSendSyncMessage_alloc. unfold_M.
  rewrite Hp, Hm, Hr. reflexivity.
Qed.

Lemma proto_set_proto this p st : proto this (set_proto this p st) = Some p.
Proof. destruct this; reflexivity. Qed.

Lemma proto_emit this e st : proto this (emit e st) = proto this st.
Proof. destruct this; reflexivity. Qed.

Lemma MaybeSendSyncMessage_transmit_spec env this st p m ok r :
  proto this st = Some p ->
  mSyncMessage p = Some m ->
  sync_transmit env this (mSyncMessageIsCall p) (log st) m = (ok, r) ->
  let sent :=
    emit (EvChannelSync (opposite this) (mSyncMessageIsCall p) m ok r) st in
  MaybeSendSyncMessage_transmit env this st =
    if ok then
      Ret tt (emit EvNotifyAll
                (set_proto this (with_slots p None (Some r)) sent))
    else if Side_eqb this ChildSide then
      Ret tt
        (emit EvNotifyAll
           (set_proto this (with_slots p None (Some r))
              (emit (EvPostTask MainThreadMessageLoop ShutdownTask)
                 (set_loops (mainLoop st ++ [ShutdownTask])
                            (forwardingLoop st)
                    (set_proto this (with_slots p (Some m) (Some r))
                               sent)))))
    else
      Stop (Crash "mSide == ipc::ChildSide")
           (set_proto this (with_slots p (Some m) (Some r)) sent).
Proof.
  intros Hp Hm Ht sent. unfold MaybeSendSyncMessage_transmit.
  unfold bind at 1. unfold this_protocol. rewrite Hp, Hm.
  unfold bind at 1. unfold get. unfold sync_transmit in Ht. rewrite Ht.
  unfold_M. rewrite !proto_emit, Hp.
  destruct ok; simpl.
  - rewrite proto_set_proto. simpl. destruct this; reflexivity.
  - destruct this; simpl; reflexivity.
Qed.

Lemma MaybeSendSyncMessage_spec env this st p m ok r :
  proto this st = Some p ->
  mSyncMessage p = Some m ->
  mSyncMessageReply p = None ->
  sync_transmit env this (mSyncMessageIsCall p) (log st) m = (ok, r) ->
  let sent :=
    emit (EvChannelSync (opposite this) (mSyncMessageIsCall p) m ok r) st in
  MaybeSendSyncMessage env this st =
    if ok then
      Ret tt (emit EvNotifyAll
                (set_proto this (with_slots p None (Some r)) sent))
    else if Side_eqb this ChildSide then
      Ret tt
        (emit EvNotifyAll
           (set_proto this (with_slots p None (Some r))
              (emit (EvPostTask MainThreadMessageLoop ShutdownTask)
                 (set_loops (mainLoop st ++ [ShutdownTask])
                            (forwardingLoop st) sent))))
    else
      Stop (Crash "mSide == ipc::ChildSide")
           (set_proto this (with_slots p (Some m) (Some r)) sent).
Proof.
  intros Hp Hm Hr Ht sent. unfold MaybeSendSyncMessage.
  rewrite (bind_Ret _ _ _ _ _
             (MaybeSendSyncMessage_alloc_pending env this st p m Hp Hm Hr)).
  rewrite (MaybeSendSyncMessage_transmit_spec env this _
             (with_slots p (Some m) (Some (new_Message env))) m ok r).
  - destruct ok; [destruct this; reflexivity |].
    destruct this; reflexivity.
  - apply proto_set_proto.
  - reflexivity.
  - destruct this; exact Ht.
Qed.

(** The wait loop, entered or resumed with the reply in its slot, leaves
    at once. *)
Lemma wait_for_reply_ready env this sched st p r :
  proto this st = Some p ->
  mSyncMessageReply p = Some r ->
  wait_for_reply env this false sched st = Ret tt st.
Proof.
  intros Hp Hr. destruct sched; simpl; rewrite Hp, Hr; reflexivity.
Qed.

Lemma HandleSyncMessage_end_spec this st p :
  proto this st = Some p ->
  HandleSyncMessage_end this st =
    Ret (mSyncMessageReply p)
        (set_proto this (with_slots p (mSyncMessage p) None) st).
Proof.
  intros Hp. unfold HandleSyncMessage_end. unfold_M. rewrite Hp. simpl.
  rewrite Hp. reflexivity.
Qed.


Lemma HandleSyncMessage_begin_ParentSide m call st p :
  gParentProtocol st = Some p ->
  isSome (mOppositeMessageLoop p) = true ->
  exists st1,
    HandleSyncMessage_begin ParentSide m call st = Ret tt st1 /\
    gParentProtocol st1 =
      Some {| mOppositeMessageLoop := mOppositeMessageLoop p;
              mSyncMessage := Some m;
              mSyncMessageReply := mSyncMessageReply p;
              mSyncMessageIsCall := call |} /\
    gChildProtocol st1 = gChildProtocol st /\
    gMainThreadRunnables st1 =
      gMainThreadRunnables st ++ [StaticMaybeSendSyncMessageRunnable ParentSide]
    /\
    gPostedProcessMainThreadRunnables st1 = true /\
    notifyCount st1 = S (notifyCount st) /\
    wakeupPosts st1 =
      wakeupPosts st +
      (if gPostedProcessMainThreadRunnables st then 0 else 1).
Proof.
  intros Hp Hl. unfold HandleSyncMessage_begin, PostOppositeRunnable.
  simpl. unfold DispatchToMainThread. unfold_M. simpl. rewrite Hp, Hl.
  simpl. rewrite Hp. simpl.
  destruct (gPostedProcessMainThreadRunnables st) eqn:Hf; simpl;
    eexists; (split; [reflexivity |]); simpl; repeat split; auto.
  all: unfold wakeupPosts; simpl; rewrite ?count_cons; simpl; lia.
Qed.

(** A blocked [HandleSyncMessage] on the [ParentSide] endpoint whose
    runnable is the only one queued: one call of
    [MaybeHandleForwardedMessages] on the main thread transmits the
    message, and the call returns the reply. *)
Lemma exchange_after_begin env m fuel sched st1 p1 r :
  gParentProtocol st1 = Some p1 ->
  mSyncMessage p1 = Some m ->
  mSyncMessageReply p1 = None ->
  gMainThreadRunnables st1 = [StaticMaybeSendSyncMessageRunnable ParentSide] ->
  sync_transmit env ParentSide (mSyncMessageIsCall p1) (log st1) m
    = (true, r) ->
  1 < fuel ->
  exists st',
    (wait_for_reply env ParentSide false
       (MainMaybeHandleForwardedMessages fuel :: sched) ;;;
     HandleSyncMessage_end ParentSide) st1 = Ret (Some r) st' /\
    gParentProtocol st' = Some (with_slots p1 None None) /\
    gChildProtocol st' = gChildProtocol st1 /\
    gMainThreadRunnables st' = [] /\
    gPostedProcessMainThreadRunnables st' = false /\
    shutdownPosts st' = shutdownPosts st1.
Proof.
  intros Hp Hm Hr Hq Ht Hfuel.
  set (st2 := emit EvNotifyAll
                (set_proto ParentSide (with_slots p1 None (Some r))
                   (emit (EvChannelSync ChildSide (mSyncMessageIsCall p1)
                                        m true r) st1))).
  assert (E2 : MaybeSendSyncMessage env ParentSide st1 = Ret tt st2).
  { exact (MaybeSendSyncMessage_spec env ParentSide st1 p1 m true r
             Hp Hm Hr Ht). }
  set (st3 := emit (EvRun (StaticMaybeSendSyncMessageRunnable ParentSide))
                st2).
  set (st4 := emit EvDrained (set_queue [] false st3)).
  assert (E3 : ProcessMainThreadRunnables env fuel st2 = Ret tt st4).
  { unfold ProcessMainThreadRunnables. unfold bind at 1.
    pose proof (ProcessMainThreadRunnables_loop_runs env
                  [StaticMaybeSendSyncMessageRunnable ParentSide] []
                  (gPostedProcessMainThreadRunnables st1) fuel st2) as X.
    change (length (@nil Runnable)) with 0 in X. rewrite X.
    - reflexivity.
    - split; [exact Hq | reflexivity].
    - simpl. exact Hfuel. }
  assert (E4 : main_act env (MainMaybeHandleForwardedMessages fuel) st1
               = Ret tt st4).
  { simpl. unfold MaybeHandleForwardedMessages. unfold bind at 1.
    unfold get. rewrite Hp. simpl. rewrite (bind_Ret _ _ _ _ _ E2).
    exact E3. }
  assert (Hn : (notifyCount st1 <? notifyCount st4) = true).
  { apply Nat.ltb_lt. unfold notifyCount, st4, st3, st2. simpl. lia. }
  assert (E5 : wait_for_reply env ParentSide false
                 (MainMaybeHandleForwardedMessages fuel :: sched) st1
               = Ret tt st4).
  { cbn [wait_for_reply]. simpl (proto ParentSide st1). rewrite Hp, Hr.
    simpl (negb false && isSome None). cbv iota. rewrite E4, Hn.
    simpl (negb true).
    apply (wait_for_reply_ready env ParentSide sched st4
             (with_slots p1 None (Some r)) r); reflexivity. }
  rewrite (bind_Ret _ _ _ _ _ E5).
  rewrite (HandleSyncMessage_end_spec ParentSide st4
             (with_slots p1 None (Some r)) eq_refl).
  eexists. split; [reflexivity |]. repeat split.
Qed.

(** The whole exchange on the [ParentSide] endpoint, from an idle
    endpoint and an empty queue. *)
Lemma sync_exchange_completes env m call fuel sched st p r :
  gParentProtocol st = Some p ->
  isSome (mOppositeMessageLoop p) = true ->
  mSyncMessageReply p = None ->
  gMainThreadRunnables st = [] ->
  (forall l, sync_transmit env ParentSide call l m = (true, r)) ->
  1 < fuel ->
  exists st',
    HandleSyncMessage env ParentSide m call
      (MainMaybeHandleForwardedMessages fuel :: sched) st
      = Ret (Some r) st' /\
    (exists p', gParentProtocol st' = Some p' /\
                mSyncMessage p' = None /\ mSyncMessageReply p' = None) /\
    shutdownPosts st' = shutdownPosts st.
Proof.
  intros Hp Hl Hr Hq Ht Hfuel.
  destruct (HandleSyncMessage_begin_ParentSide m call st p Hp Hl)
    as (st1 & E1 & Hp1 & _ & Hq1 & _ & _ & _).
  rewrite Hq, Hr in *. simpl in Hq1.
  assert (Hs1 : shutdownPosts st1 = shutdownPosts st).
  { revert E1. unfold HandleSyncMessage_begin, PostOppositeRunnable.
    simpl. unfold DispatchToMainThread. unfold_M. simpl. rewrite Hp, Hl.
    simpl. rewrite Hp. simpl.
    destruct (gPostedProcessMainThreadRunnables st); simpl;
      intros E; inversion E; reflexivity. }
  destruct (exchange_after_begin env m fuel sched st1 _ r Hp1 eq_refl eq_refl
              Hq1 (Ht _) Hfuel)
    as (st' & E & Hp' & _ & _ & _ & Hs').
  exists st'. unfold HandleSyncMessage.
  rewrite (bind_Ret _ _ _ _ _ E1). split; [exact E |].
  split; [| congruence].
  eexists. split; [exact Hp' |]. split; reflexivity.
Qed.

Lemma sync_exchange_crashes env m call fuel sched st p r :
  gParentProtocol st = Some p ->
  isSome (mOppositeMessageLoop p) = true ->
  mSyncMessageReply p = None ->
  (forall l, sync_transmit env ParentSide call l m = (false, r)) ->
  exists st',
    HandleSyncMessage env ParentSide m call
      (MainMaybeHandleForwardedMessages fuel :: sched) st
      = Stop (Crash "mSide == ipc::ChildSide") st' /\
    shutdownPosts st' = shutdownPosts st /\
    (exists p', gParentProtocol st' = Some p' /\
                mSyncMessage p' = Some m /\ mSyncMessageReply p' = Some r).
Proof.
  intros Hp Hl Hr Ht.
  destruct (HandleSyncMessage_begin_ParentSide m call st p Hp Hl)
    as (st1 & E1 & Hp1 & _ & _ & _ & _ & _).
  assert (Hs1 : shutdownPosts st1 = shutdownPosts st).
  { revert E1. unfold HandleSyncMessage_begin, PostOppositeRunnable.
    simpl. unfold DispatchToMainThread. unfold_M. simpl. rewrite Hp, Hl.
    simpl. rewrite Hp. simpl.
    destruct (gPostedProcessMainThreadRunnables st); simpl;
      intros E; inversion E; reflexivity. }
  rewrite Hr in Hp1.
  pose proof (MaybeSendSyncMessage_spec env ParentSide st1 _ m false r
                Hp1 eq_refl eq_refl (Ht _)) as E2.
  simpl in E2.
  match type of E2 with _ = Stop _ ?s => set (sx := s) in * end.
  assert (E4 : main_act env (MainMaybeHandleForwardedMessages fuel) st1
               = Stop (Crash "mSide == ipc::ChildSide") sx).
  { simpl. unfold MaybeHandleForwardedMessages. unfold bind at 1.
    unfold get. rewrite Hp1. simpl (isSome _). cbv iota.
    rewrite (bind_Stop _ _ _ _ _ E2). reflexivity. }
  assert (E5 : wait_for_reply env ParentSide false
                 (MainMaybeHandleForwardedMessages fuel :: sched) st1
               = Stop (Crash "mSide == ipc::ChildSide") sx).
  { cbn [wait_for_reply]. simpl (proto ParentSide st1). rewrite Hp1.
    simpl (negb false && _). cbv iota. rewrite E4. reflexivity. }
  unfold HandleSyncMessage. rewrite (bind_Ret _ _ _ _ _ E1).
  rewrite (bind_Stop _ _ _ _ _ E5).
  exists sx. split; [reflexivity |]. split.
  - unfold shutdownPosts in *. unfold sx. simpl. rewrite count_cons. simpl.
    exact Hs1.
  - eexists. split; [reflexivity |]. split; reflexivity.
Qed.

(** ** Success and failure of the synchronous transmit *)

(** C5. When [MaybeSendSyncMessage] finds a pending message and the
    synchronous transmit succeeds with reply [r], it returns with [r] in
    [mSyncMessageReply], [mSyncMessage] cleared and [NotifyAll] called
    after the transmit.  The wait loop of [HandleSyncMessage], woken on
    that state, ends, and the call returns [r] and leaves
    [mSyncMessageReply] empty.  Put together on the endpoint whose side is
    [ParentSide]: a [HandleSyncMessage] on an idle endpoint, answered by
    one [MaybeHandleForwardedMessages] of the main thread, returns the
    peer's reply with both slots empty. *)
Theorem successful_transmit_reply_reaches_the_caller :
  forall env this st p m r sched,
    proto this st = Some p ->
    mSyncMessage p = Some m ->
    mSyncMessageReply p = None ->
    sync_transmit env this (mSyncMessageIsCall p) (log st) m = (true, r) ->
    (exists st',
       MaybeSendSyncMessage env this st = Ret tt st' /\
       proto this st' = Some (with_slots p None (Some r)) /\
       log st' =
         EvNotifyAll
           :: EvChannelSync (opposite this) (mSyncMessageIsCall p) m true r
           :: log st /\
       exists st'',
         (wait_for_reply env this false sched ;;;
          HandleSyncMessage_end this) st' = Ret (Some r) st'' /\
         proto this st'' = Some (with_slots p None None)) /\
    (forall m0 call fuel st0 p0,
       gParentProtocol st0 = Some p0 ->
       isSome (mOppositeMessageLoop p0) = true ->
       mSyncMessageReply p0 = None ->
       gMainThreadRunnables st0 = [] ->
       (forall l, sync_transmit env ParentSide call l m0 = (true, r)) ->
       1 < fuel ->
       exists st',
         HandleSyncMessage env ParentSide m0 call
           (MainMaybeHandleForwardedMessages fuel :: sched) st0
           = Ret (Some r) st' /\
         exists p', gParentProtocol st' = Some p' /\
                    mSyncMessage p' = None /\ mSyncMessageReply p' = None).
Proof.
  intros env this st p m r sched Hp Hm Hr Ht. split.
  - pose proof (MaybeSendSyncMessage_spec env this st p m true r Hp Hm Hr Ht)
      as E.
    simpl in E. eexists. split; [exact E |].
    split; [destruct this; reflexivity |].
    split; [destruct this; reflexivity |].
    match goal with
    | |- exists st'', (_ ;;; _) ?s = _ /\ _ =>
        assert (Hp' : proto this s = Some (with_slots p None (Some r)))
          by (destruct this; reflexivity);
        rewrite (bind_Ret _ _ _ _ _
                   (wait_for_reply_ready env this sched s _ r Hp' eq_refl));
        rewrite (HandleSyncMessage_end_spec this s _ Hp')
    end.
    eexists. split; [reflexivity |]. destruct this; reflexivity.
  - intros m0 call fuel st0 p0 Hp0 Hl0 Hr0 Hq0 Ht0 Hfuel.
    destruct (sync_exchange_completes env m0 call fuel sched st0 p0 r
                Hp0 Hl0 Hr0 Hq0 Ht0 Hfuel) as (st' & E & Hslots & _).
    exists st'. split; [exact E | exact Hslots].
Qed.

Lemma successful_transmit_reply_reaches_the_caller_witness :
  exists st1,
    HandleSyncMessage_begin ParentSide (Demo.msg 7 3) true Demo.st0
      = Ret tt st1 /\
    exists st' st'',
      MaybeSendSyncMessage (Demo.env true) ParentSide st1 = Ret tt st' /\
      (wait_for_reply (Demo.env true) ParentSide false [] ;;;
       HandleSyncMessage_end ParentSide) st' = Ret (Some Demo.ok_reply) st''.
Proof.
  eexists. split; [reflexivity |].
  destruct (proj1 (successful_transmit_reply_reaches_the_caller
                     (Demo.env true) ParentSide _ _ (Demo.msg 7 3)
                     Demo.ok_reply []
                     (eq_refl : proto ParentSide
                        (final_state
                           (HandleSyncMessage_begin ParentSide (Demo.msg 7 3)
                              true Demo.st0)) = Some _)
                     eq_refl eq_refl eq_refl))
    as (st' & E & _ & _ & st'' & E' & _).
  exists st', st''. split; [exact E | exact E'].
Defined.

(** C8, as the code has it. A failed synchronous transmit on the endpoint
    whose side is [ChildSide] posts one shutdown task, leaves the reply
    object in [mSyncMessageReply], clears [mSyncMessage] and calls
    [NotifyAll]; a wait on the reply slot ends on that state.  On the
    endpoint whose side is [ParentSide], the only one whose
    [HandleSyncMessage] waits, the failure is a fatal assertion: no
    shutdown task is posted, [NotifyAll] is not called and the waiting
    call does not return. *)
Theorem failed_transmit_shuts_down_on_ChildSide_and_is_fatal_on_ParentSide :
  forall env this st p m r,
    proto this st = Some p ->
    mSyncMessage p = Some m ->
    mSyncMessageReply p = None ->
    sync_transmit env this (mSyncMessageIsCall p) (log st) m = (false, r) ->
    (this = ChildSide ->
     exists st',
       MaybeSendSyncMessage env this st = Ret tt st' /\
       shutdownPosts st' = S (shutdownPosts st) /\
       mainLoop st' = mainLoop st ++ [ShutdownTask] /\
       proto this st' = Some (with_slots p None (Some r)) /\
       notifyCount st' = S (notifyCount st) /\
       forall sched, wait_for_reply env this false sched st' = Ret tt st') /\
    (this = ParentSide ->
     (exists st',
        MaybeSendSyncMessage env this st
          = Stop (Crash "mSide == ipc::ChildSide") st' /\
        shutdownPosts st' = shutdownPosts st /\
        notifyCount st' = notifyCount st /\
        proto this st' = Some (with_slots p (Some m) (Some r))) /\
     (forall m0 call fuel sched st0 p0,
        gParentProtocol st0 = Some p0 ->
        isSome (mOppositeMessageLoop p0) = true ->
        mSyncMessageReply p0 = None ->
        (forall l, sync_transmit env ParentSide call l m0 = (false, r)) ->
        exists st',
          HandleSyncMessage env ParentSide m0 call
            (MainMaybeHandleForwardedMessages fuel :: sched) st0
            = Stop (Crash "mSide == ipc::ChildSide") st' /\
          shutdownPosts st' = shutdownPosts st0)).
Proof.
  intros env this st p m r Hp Hm Hr Ht.
  pose proof (MaybeSendSyncMessage_spec env this st p m false r Hp Hm Hr Ht)
    as E.
  split; intros ->; simpl in E.
  - eexists. split; [exact E |].
    split; [unfold shutdownPosts; simpl; rewrite !count_cons; reflexivity |].
    split; [reflexivity |]. split; [reflexivity |].
    split; [reflexivity |].
    intros sched.
    apply (wait_for_reply_ready env ChildSide sched _
             (with_slots p None (Some r)) r); reflexivity.
  - split.
    + eexists. split; [exact E |].
      split; [unfold shutdownPosts; simpl; rewrite count_cons; reflexivity |].
      split; reflexivity.
    + intros m0 call fuel sched st0 p0 Hp0 Hl0 Hr0 Ht0.
      destruct (sync_exchange_crashes env m0 call fuel sched st0 p0 r
                  Hp0 Hl0 Hr0 Ht0) as (st' & E' & Hs & _).
      exists st'. split; assumption.
Qed.

Lemma failed_transmit_shuts_down_on_ChildSide_and_is_fatal_on_ParentSide_witness :
  let p := {| mOppositeMessageLoop := Some gForwardingMessageLoop;
              mSyncMessage := Some (Demo.msg 7 3);
              mSyncMessageReply := None;
              mSyncMessageIsCall := true |} in
  let st := set_proto ChildSide p Demo.st0 in
  exists st',
    MaybeSendSyncMessage (Demo.env false) ChildSide st = Ret tt st' /\
    shutdownPosts st' = S (shutdownPosts st) /\
    mainLoop st' = mainLoop st ++ [ShutdownTask] /\
    proto ChildSide st' = Some (with_slots p None (Some (Demo.msg 0 0))) /\
    notifyCount st' = S (notifyCount st) /\
    forall sched,
      wait_for_reply (Demo.env false) ChildSide false sched st' = Ret tt st'.
Proof.
  intros p st.
  apply (proj1 (failed_transmit_shuts_down_on_ChildSide_and_is_fatal_on_ParentSide
                  (Demo.env false) ChildSide st p (Demo.msg 7 3)
                  (Demo.msg 0 0) eq_refl eq_refl eq_refl eq_refl)).
  reflexivity.
Defined.

(** C8, as stated, fails on the endpoint whose side is [ParentSide]: with
    a peer that fails the call, the process stops at the assertion inside
    [MaybeSendSyncMessage]; no shutdown task has been posted and the
    blocked [HandleSyncMessage] has not returned. *)
Lemma failed_transmit_on_ParentSide_does_not_return :
  exists st',
    HandleSyncMessage (Demo.env false) ParentSide (Demo.msg 7 3) true
      [MainMaybeHandleForwardedMessages 5; MainRunNextTask 5] Demo.st0
      = Stop (Crash "mSide == ipc::ChildSide") st' /\
    shutdownPosts st' = 0 /\
    mainLoop st' = [ProcessMainThreadRunnablesTask] /\
    notifyCount st' = 1 /\
    log st' =
      [EvChannelSync ChildSide true (Demo.msg 7 3) false (Demo.msg 0 0);
       EvNotifyAll;
       EvPostTask MainThreadMessageLoop ProcessMainThreadRunnablesTask].
Proof.
  eexists. split; [lazy; reflexivity |]. repeat split.
Qed.

(** ** What the handlers return *)

Lemma ForwardMessageAsync_failed env aProtocol m st :
  channel_Send env aProtocol (log st) m = false ->
  match aProtocol with
  | ParentSide =>
      exists st',
        ForwardMessageAsync env aProtocol m st = Ret tt st' /\
        shutdownPosts st' = S (shutdownPosts st)
  | ChildSide =>
      exists st',
        ForwardMessageAsync env aProtocol m st
          = Stop (Crash "aProtocol->mSide == ipc::ParentSide") st' /\
        shutdownPosts st' = shutdownPosts st
  end.
Proof.
  intros Hs. unfold ForwardMessageAsync. unfold_M. rewrite Hs.
  destruct aProtocol; simpl; eexists; (split; [reflexivity |]);
    unfold shutdownPosts; simpl; rewrite ?count_cons; reflexivity.
Qed.

(** C9, as the code has it. A handler that returns to the transport
    returns [MsgProcessed], whatever the policy decided and whatever the
    channel does later: a failed forward shows in the posted runnable, as
    a shutdown task or a fatal assertion.  The asynchronous handler
    returns whenever its assertions hold.  The synchronous handlers return
    only on the endpoint whose side is [ParentSide], once the reply is
    there; on the endpoint whose side is [ChildSide] they never return. *)
Theorem handlers_return_only_MsgProcessed :
  forall ids env,
    (forall this m st r st',
       OnMessageReceived ids env this m st = Ret r st' -> r = MsgProcessed) /\
    (forall this m sched st r a st',
       OnMessageReceivedSync env this m sched st = Ret (r, a) st' ->
       r = MsgProcessed /\ this = ParentSide) /\
    (forall this m sched st r a st',
       OnCallReceived env this m sched st = Ret (r, a) st' ->
       r = MsgProcessed /\ this = ParentSide) /\
    (forall this m st p,
       local_delivery_ok env ->
       proto this st = Some p ->
       mOppositeMessageLoop p <> None \/ this = ChildSide ->
       exists st', OnMessageReceived ids env this m st = Ret MsgProcessed st')
    /\
    (forall m call fuel sched st p r,
       gParentProtocol st = Some p ->
       isSome (mOppositeMessageLoop p) = true ->
       mSyncMessageReply p = None ->
       gMainThreadRunnables st = [] ->
       (forall l, sync_transmit env ParentSide call l m = (true, r)) ->
       1 < fuel ->
       exists st',
         (if call then OnCallReceived env ParentSide m
          else OnMessageReceivedSync env ParentSide m)
           (MainMaybeHandleForwardedMessages fuel :: sched) st
           = Ret (MsgProcessed, Some r) st') /\
    (forall aProtocol m st,
       channel_Send env aProtocol (log st) m = false ->
       exists st',
         ForwardMessageAsync env aProtocol m st =
           match aProtocol with
           | ParentSide => Ret tt st'
           | ChildSide =>
               Stop (Crash "aProtocol->mSide == ipc::ParentSide") st'
           end).
Proof.
  intros ids env. split; [| split; [| split; [| split; [| split]]]].
  - intros this m st r st' E.
    exact (OnMessageReceived_status ids env this m st r st' E).
  - intros this m sched st r a st' E. split.
    + exact (OnMessageReceivedSync_status env this m sched st (r, a) st' E).
    + destruct this; [reflexivity |].
      unfold OnMessageReceivedSync in E.
      apply bind_Ret_inv in E as (x & s1 & E & _).
      pose proof (HandleSyncMessage_ChildSide_stops env m false sched st) as H.
      rewrite E in H. discriminate.
  - intros this m sched st r a st' E. split.
    + exact (OnCallReceived_status env this m sched st (r, a) st' E).
    + destruct this; [reflexivity |].
      unfold OnCallReceived in E.
      apply bind_Ret_inv in E as (x & s1 & E & _).
      pose proof (HandleSyncMessage_ChildSide_stops env m true sched st) as H.
      rewrite E in H. discriminate.
  - intros this m st p Hok Hp Hpre.
    exact (OnMessageReceived_returns ids env this m st p Hok Hp Hpre).
  - intros m call fuel sched st p r Hp Hl Hr Hq Ht Hfuel.
    destruct (sync_exchange_completes env m call fuel sched st p r
                Hp Hl Hr Hq Ht Hfuel) as (st' & E & _).
    exists st'. destruct call.
    + unfold OnCallReceived. rewrite (bind_Ret _ _ _ _ _ E). reflexivity.
    + unfold OnMessageReceivedSync. rewrite (bind_Ret _ _ _ _ _ E).
      reflexivity.
  - intros aProtocol m st Hs.
    pose proof (ForwardMessageAsync_failed env aProtocol m st Hs) as H.
    destruct aProtocol; destruct H as (st' & E & _); exists st'; exact E.
Qed.

Lemma handlers_return_only_MsgProcessed_witness :
  (exists st',
     OnMessageReceived Demo.ids (Demo.env false) ParentSide (Demo.msg 5 10)
       Demo.st0 = Ret MsgProcessed st') /\
  (exists st',
     OnCallReceived (Demo.env true) ParentSide (Demo.msg 7 3)
       [MainMaybeHandleForwardedMessages 2] Demo.st0
       = Ret (MsgProcessed, Some Demo.ok_reply) st').
Proof.
  split.
  - apply (proj1 (proj2 (proj2 (proj2
             (handlers_return_only_MsgProcessed Demo.ids (Demo.env false)))))
             ParentSide (Demo.msg 5 10) Demo.st0
             (with_loop MainThreadMessageLoop new_MiddlemanProtocol)).
    + split; reflexivity.
    + reflexivity.
    + left. discriminate.
  - apply (proj1 (proj2 (proj2 (proj2 (proj2
             (handlers_return_only_MsgProcessed Demo.ids (Demo.env true))))))
             (Demo.msg 7 3) true 2 [] Demo.st0
             (with_loop MainThreadMessageLoop new_MiddlemanProtocol)
             Demo.ok_reply); try reflexivity.
    lia.
Defined.

(** C9, as stated, fails: a call message received on the endpoint whose
    side is [ChildSide] ends in [MOZ_CRASH("NYI")]; the handler hands no
    status back. *)
Lemma sync_handler_on_ChildSide_returns_no_status :
  (exists st',
     OnCallReceived (Demo.env true) ChildSide (Demo.msg 7 3)
       [MainMaybeHandleForwardedMessages 5; MainRunNextTask 5] Demo.st0
       = Stop (Crash "NYI") st') /\
  (forall r a st',
     OnCallReceived (Demo.env true) ChildSide (Demo.msg 7 3)
       [MainMaybeHandleForwardedMessages 5; MainRunNextTask 5] Demo.st0
       <> Ret (r, a) st').
Proof.
  split.
  - eexists. lazy. reflexivity.
  - intros r a st'. lazy. discriminate.
Qed.

(** ** The slots along an execution *)

Lemma proto_set_proto_other s this p st :
  s <> this -> proto s (set_proto this p st) = proto s st.
Proof. destruct s, this; intros H; try reflexivity; contradiction. Qed.

Lemma proto_set_loops s ml fl st : proto s (set_loops ml fl st) = proto s st.
Proof. destruct s; reflexivity. Qed.

Lemma MaybeSendSyncMessage_alloc_inv env this st b st' :
  MaybeSendSyncMessage_alloc env this st = Ret b st' ->
  exists p,
    proto this st = Some p /\
    ((b = false /\ mSyncMessage p = None /\ st' = st) \/
     (b = true /\ mSyncMessage p <> None /\ mSyncMessageReply p = None /\
      st' = set_proto this
              (with_slots p (mSyncMessage p) (Some (new_Message env))) st)).
Proof.
  intros E. destruct (proto this st) as [p |] eqn:Hp.
  - exists p. split; [reflexivity |].
    destruct (mSyncMessage p) as [m |] eqn:Hm.
    + destruct (mSyncMessageReply p) as [r |] eqn:Hr.
      * rewrite (MaybeSendSyncMessage_alloc_occupied env this st p m r
                   Hp Hm Hr) in E. discriminate.
      * rewrite (MaybeSendSyncMessage_alloc_pending env this st p m
                   Hp Hm Hr) in E.
        inversion E; subst. right. repeat split; congruence.
    + rewrite (MaybeSendSyncMessage_alloc_none env this st p Hp Hm) in E.
      inversion E; subst. left. auto.
  - unfold MaybeSendSyncMessage_alloc in E. unfold_M. rewrite Hp in E.
    discriminate.
Qed.

Lemma MaybeSendSyncMessage_transmit_inv env this st st' :
  MaybeSendSyncMessage_transmit env this st = Ret tt st' ->
  exists p r,
    proto this st = Some p /\
    proto this st' = Some (with_slots p None (Some r)) /\
    forall s, s <> this -> proto s st' = proto s st.
Proof.
  intros E. destruct (proto this st) as [p |] eqn:Hp.
  - destruct (mSyncMessage p) as [m |] eqn:Hm.
    + destruct (sync_transmit env this (mSyncMessageIsCall p) (log st) m)
        as [ok r] eqn:Ht.
      rewrite (MaybeSendSyncMessage_transmit_spec env this st p m ok r
                 Hp Hm Ht) in E.
      exists p, r. split; [reflexivity |].
      destruct ok.
      * inversion E; subst. split.
        -- destruct this; reflexivity.
        -- intros s Hs. destruct s, this; try reflexivity; contradiction.
      * destruct (Side_eqb this ChildSide); [| discriminate].
        inversion E; subst. split.
        -- destruct this; reflexivity.
        -- intros s Hs. destruct s, this; try reflexivity; contradiction.
    + unfold MaybeSendSyncMessage_transmit in E. unfold_M.
      rewrite Hp, Hm in E. discriminate.
  - unfold MaybeSendSyncMessage_transmit in E. unfold_M. rewrite Hp in E.
    discriminate.
Qed.

Lemma HandleSyncMessage_begin_inv this m call st st' :
  HandleSyncMessage_begin this m call st = Ret tt st' ->
  this = ParentSide /\
  exists p,
    proto this st = Some p /\
    proto this st' =
      Some {| mOppositeMessageLoop := mOppositeMessageLoop p;
              mSyncMessage := Some m;
              mSyncMessageReply := mSyncMessageReply p;
              mSyncMessageIsCall := call |} /\
    forall s, s <> this -> proto s st' = proto s st.
Proof.
  intros E. destruct this.
  - split; [reflexivity |].
    destruct (gParentProtocol st) as [p |] eqn:Hp.
    + destruct (isSome (mOppositeMessageLoop p)) eqn:Hl.
      * destruct (HandleSyncMessage_begin_ParentSide m call st p Hp Hl)
          as (st1 & E1 & Hp1 & Hc1 & _).
        rewrite E1 in E. inversion E; subst st1.
        exists p. split; [exact Hp |]. split; [exact Hp1 |].
        intros s Hs. destruct s; [contradiction |]. simpl. rewrite Hc1.
        reflexivity.
      * unfold HandleSyncMessage_begin in E. unfold_M. simpl in E.
        rewrite Hp, Hl in E. discriminate.
    + unfold HandleSyncMessage_begin in E. unfold_M. simpl in E.
      rewrite Hp in E. discriminate.
  - pose proof (HandleSyncMessage_begin_ChildSide_stops m call st) as H.
    rewrite E in H. discriminate.
Qed.

Lemma HandleSyncMessage_end_inv this st a st' :
  HandleSyncMessage_end this st = Ret a st' ->
  exists p,
    proto this st = Some p /\
    a = mSyncMessageReply p /\
    proto this st' = Some (with_slots p (mSyncMessage p) None) /\
    forall s, s <> this -> proto s st' = proto s st.
Proof.
  intros E. destruct (proto this st) as [p |] eqn:Hp.
  - rewrite (HandleSyncMessage_end_spec this st p Hp) in E.
    inversion E; subst. exists p. split; [reflexivity |].
    split; [reflexivity |]. split; [apply proto_set_proto |].
    intros s Hs. apply proto_set_proto_other, Hs.
  - unfold HandleSyncMessage_end in E. unfold_M. rewrite Hp in E.
    discriminate.
Qed.

Lemma Side_eqb_eq a b : Side_eqb a b = true <-> a = b.
Proof. destruct a, b; simpl; split; congruence. Qed.

Lemma upd_same {A} (f : Side -> A) s v : upd f s v s = v.
Proof. unfold upd. destruct s; reflexivity. Qed.

Lemma upd_other {A} (f : Side -> A) s s' v : s' <> s -> upd f s v s' = f s'.
Proof. unfold upd. destruct s, s'; intros H; try reflexivity; contradiction. Qed.

Lemma Side_dec (a b : Side) : a = b \/ a <> b.
Proof. destruct a, b; auto; right; discriminate. Qed.

Lemma exchange_inv_slots c c' s p p' :
  sendPc c' s = sendPc c s ->
  recvPc c' s = recvPc c s ->
  slots p' = slots p ->
  exchange_inv c s p -> exchange_inv c' s p'.
Proof.
  unfold exchange_inv, at_most_one, slots. intros -> -> Hs H.
  inversion Hs as [[Hm Hr]]. rewrite Hm, Hr. exact H.
Qed.

(** The invariant of the exchange holds at every reachable
    configuration. *)
Lemma reachable_exchange_inv env c :
  reachable env c ->
  forall s p, proto s (sys c) = Some p -> exchange_inv c s p.
Proof.
  induction 1 as [c [Hpc Hsl] | c c' Hreach IH Hstep].
  - intros s p Hp. unfold exchange_inv.
    destruct (Hpc s) as [-> ->]. exact (Hsl s p Hp).
  - destruct Hstep as
      [c this m call st' Hrecv Hfree E
      | c this r st' Hrecv Hfree (p0 & Hp0 & Hr0) E
      | c this st' Hfree E
      | c this st' Hfree E
      | c this st' Hsend E
      | c st' Hsame];
      intros s p Hp; simpl in Hp.
    + apply HandleSyncMessage_begin_inv in E as (_ & q & Hq & Hq' & Hoth).
      destruct (Side_dec s this) as [-> | Hne].
      * rewrite Hq' in Hp. inversion Hp; subst p; clear Hp.
        specialize (IH this q Hq). unfold exchange_inv in *. simpl.
        rewrite upd_same. rewrite Hrecv, (Hfree this) in IH.
        rewrite (Hfree this). destruct IH as [_ Hr]. right. exact Hr.
      * rewrite (Hoth s Hne) in Hp. specialize (IH s p Hp).
        revert IH. apply exchange_inv_slots; simpl; auto.
        rewrite upd_other; auto.
    + apply HandleSyncMessage_end_inv in E as (q & Hq & _ & Hq' & Hoth).
      destruct (Side_dec s this) as [-> | Hne].
      * rewrite Hq' in Hp. inversion Hp; subst p; clear Hp.
        specialize (IH this q Hq). unfold exchange_inv in *. simpl.
        rewrite upd_same. rewrite Hrecv, (Hfree this) in IH.
        rewrite (Hfree this). rewrite Hp0 in Hq. inversion Hq; subst q.
        destruct IH as [Hm | Hr']; [| congruence]. split; [exact Hm | reflexivity].
      * rewrite (Hoth s Hne) in Hp. specialize (IH s p Hp).
        revert IH. apply exchange_inv_slots; simpl; auto.
        rewrite upd_other; auto.
    + apply MaybeSendSyncMessage_alloc_inv in E
        as (q & Hq & [(_ & _ & ->) | (Hb & _)]); [| discriminate].
      specialize (IH s p Hp). revert IH.
      apply exchange_inv_slots; reflexivity.
    + apply MaybeSendSyncMessage_alloc_inv in E
        as (q & Hq & [(Hb & _) | (_ & Hm & Hr & ->)]); [discriminate |].
      destruct (Side_dec s this) as [-> | Hne].
      * rewrite proto_set_proto in Hp. inversion Hp; subst p; clear Hp.
        specialize (IH this q Hq). unfold exchange_inv in *. simpl.
        rewrite upd_same. rewrite (Hfree this) in IH.
        destruct (recvPc c this).
        -- destruct IH as [Hm' _]. contradiction.
        -- split; [exact Hm | discriminate].
      * rewrite proto_set_proto_other in Hp by exact Hne.
        specialize (IH s p Hp). revert IH.
        apply exchange_inv_slots; simpl; auto.
        rewrite upd_other; auto.
    + apply MaybeSendSyncMessage_transmit_inv in E
        as (q & r & Hq & Hq' & Hoth).
      destruct (Side_dec s this) as [-> | Hne].
      * rewrite Hq' in Hp. inversion Hp; subst p; clear Hp.
        specialize (IH this q Hq). unfold exchange_inv in *. simpl.
        rewrite upd_same. rewrite Hsend in IH.
        destruct (recvPc c this); [contradiction |].
        left. reflexivity.
      * rewrite (Hoth s Hne) in Hp. specialize (IH s p Hp).
        revert IH. apply exchange_inv_slots; simpl; auto.
        rewrite upd_other; auto.
    + specialize (Hsame s). simpl in Hsame. rewrite Hp in Hsame.
      destruct (proto s (sys c)) as [q |] eqn:Hq; [| discriminate].
      simpl in Hsame. inversion Hsame as [[Hm Hr]].
      specialize (IH s q Hq). revert IH.
      apply exchange_inv_slots; simpl; auto. unfold slots. congruence.
Qed.

Lemma protos_same_emit st e s0 :
  protos_same st s0 -> protos_same st (emit e s0).
Proof. intros H s. rewrite proto_emit. apply H. Qed.

Lemma protos_same_set_loops st ml fl s0 :
  protos_same st s0 -> protos_same st (set_loops ml fl s0).
Proof. intros H s. rewrite proto_set_loops. apply H. Qed.

Lemma protos_same_set_contentChild st c s0 :
  protos_same st s0 -> protos_same st (set_contentChild c s0).
Proof. intros H s. destruct s; [apply (H ParentSide) | apply (H ChildSide)]. Qed.

Lemma protos_same_set_queue st q b s0 :
  protos_same st s0 -> protos_same st (set_queue q b s0).
Proof. intros H s. destruct s; [apply (H ParentSide) | apply (H ChildSide)]. Qed.

Create HintDb protos.
#[local] Hint Resolve protos_same_emit protos_same_set_loops
  protos_same_set_contentChild protos_same_set_queue : protos.

Lemma protos_same_slots st st' : protos_same st st' -> same_slots st st'.
Proof. intros H s. rewrite (H s). reflexivity. Qed.

Lemma protos_same_PostTask st l t :
  preserves (protos_same st) (PostTask l t).
Proof.
  unfold PostTask. apply preserves_modify. intros s0 H.
  destruct l; auto with protos.
Qed.

Lemma protos_same_DispatchToMainThread st r :
  preserves (protos_same st) (DispatchToMainThread r).
Proof.
  unfold DispatchToMainThread.
  repeat first
    [ apply protos_same_PostTask
    | pres_step ltac:(auto with protos) ].
Qed.

(** The asynchronous handler and the shutdown triggers are steps that
    leave the slots alone. *)
Lemma OnMessageReceived_same_slots ids env this m st :
  same_slots st (final_state (OnMessageReceived ids env this m st)).
Proof.
  apply protos_same_slots.
  assert (H : preserves (protos_same st) (OnMessageReceived ids env this m)).
  { unfold OnMessageReceived, PostOppositeRunnable.
    repeat first
      [ apply protos_same_DispatchToMainThread
      | apply protos_same_PostTask
      | apply frame_HandleMessageInMiddleman; auto with protos
      | pres_step ltac:(auto with protos) ]. }
  apply H. intros s. reflexivity.
Qed.

Lemma fire_same_slots env t st :
  same_slots st (final_state (fire env t st)).
Proof.
  apply protos_same_slots.
  assert (H : preserves (protos_same st) (fire env t))
    by (apply frame_fire; auto with protos).
  apply H. intros s. reflexivity.
Qed.

Lemma InitializeForwarding_initial b c :
  initial (idle_config (InitializeForwarding b c)).
Proof.
  split; [intros s; split; reflexivity |].
  intros s p H. destruct s, b; simpl in H; inversion H; subst;
    split; reflexivity.
Qed.

(** C1, as the code has it. At every reachable configuration and for
    every endpoint: while no thread is inside the transmit section of
    [MaybeSendSyncMessage] for that endpoint, at most one of
    [mSyncMessage] and [mSyncMessageReply] is set; inside that section,
    from [mSyncMessageReply = new Message()] until
    [mSyncMessage = nullptr], both are set.  A [MaybeSendSyncMessage] that
    finds a pending message while [mSyncMessageReply] is set stops at the
    assertion [!mSyncMessageReply] and changes nothing. *)
Theorem slots_exclusive_outside_the_transmit_section :
  forall env,
    (forall c, reachable env c ->
     forall s p, proto s (sys c) = Some p ->
       (sendPc c s = SendIdle -> at_most_one p) /\
       (sendPc c s = SendInTransmit -> both_set p = true)) /\
    (forall this st p m r,
       proto this st = Some p ->
       mSyncMessage p = Some m ->
       mSyncMessageReply p = Some r ->
       MaybeSendSyncMessage env this st
         = Stop (Crash "!mSyncMessageReply") st).
Proof.
  intros env. split.
  - intros c Hreach s p Hp.
    pose proof (reachable_exchange_inv env c Hreach s p Hp) as H.
    unfold exchange_inv in H. split; intros Hs; rewrite Hs in H.
    + destruct (recvPc c s); [left; apply H | exact H].
    + destruct (recvPc c s); [contradiction |].
      destruct H as [Hm Hr]. unfold both_set.
      destruct (mSyncMessage p), (mSyncMessageReply p); try reflexivity;
        congruence.
  - intros this st p m r Hp Hm Hr. unfold MaybeSendSyncMessage.
    rewrite (bind_Stop _ _ _ _ _
               (MaybeSendSyncMessage_alloc_occupied env this st p m r
                  Hp Hm Hr)).
    reflexivity.
Qed.

Lemma slots_exclusive_outside_the_transmit_section_witness :
  at_most_one (with_loop MainThreadMessageLoop new_MiddlemanProtocol) /\
  MaybeSendSyncMessage (Demo.env true) ParentSide
    (set_proto ParentSide
       {| mOppositeMessageLoop := Some MainThreadMessageLoop;
          mSyncMessage := Some (Demo.msg 7 3);
          mSyncMessageReply := Some Demo.ok_reply;
          mSyncMessageIsCall := true |} Demo.st0)
    = Stop (Crash "!mSyncMessageReply")
        (set_proto ParentSide
           {| mOppositeMessageLoop := Some MainThreadMessageLoop;
              mSyncMessage := Some (Demo.msg 7 3);
              mSyncMessageReply := Some Demo.ok_reply;
              mSyncMessageIsCall := true |} Demo.st0).
Proof.
  split.
  - apply (proj1 (proj1 (slots_exclusive_outside_the_transmit_section
                           (Demo.env true))
                    (idle_config Demo.st0)
                    (reachable_initial _ _
                       (InitializeForwarding_initial true Demo.actors))
                    ParentSide
                    (with_loop MainThreadMessageLoop new_MiddlemanProtocol)
                    eq_refl)).
    reflexivity.
  - eapply (proj2 (slots_exclusive_outside_the_transmit_section
                     (Demo.env true)));
      reflexivity.
Defined.

(** C1, as stated, fails: after [HandleSyncMessage] has stored a message
    on the [ParentSide] endpoint and [MaybeSendSyncMessage] has allocated
    the reply object, both slots are set, and they stay so for the whole
    call on the channel. *)
Lemma both_slots_set_inside_MaybeSendSyncMessage :
  exists c p,
    reachable (Demo.env true) c /\
    proto ParentSide (sys c) = Some p /\
    mSyncMessage p = Some (Demo.msg 7 3) /\
    mSyncMessageReply p = Some (Demo.msg 0 0) /\
    ~ at_most_one p /\
    ~ (forall c', reachable (Demo.env true) c' ->
       forall s q, proto s (sys c') = Some q -> at_most_one q).
Proof.
  set (c0 := idle_config Demo.st0).
  assert (R0 : reachable (Demo.env true) c0)
    by apply reachable_initial, InitializeForwarding_initial.
  pose proof (step_sync_begin (Demo.env true) c0 ParentSide (Demo.msg 7 3)
                true _ eq_refl (fun _ => eq_refl) eq_refl) as S1.
  match type of S1 with step _ _ ?c => set (c1 := c) in * end.
  pose proof (step_send_alloc (Demo.env true) c1 ParentSide _
                (fun _ => eq_refl) eq_refl) as S2.
  match type of S2 with step _ _ ?c => set (c2 := c) in * end.
  assert (R2 : reachable (Demo.env true) c2).
  { eapply reachable_step; [| exact S2].
    eapply reachable_step; [exact R0 | exact S1]. }
  assert (N : ~ at_most_one
                {| mOppositeMessageLoop := Some MainThreadMessageLoop;
                   mSyncMessage := Some (Demo.msg 7 3);
                   mSyncMessageReply := Some (Demo.msg 0 0);
                   mSyncMessageIsCall := true |}).
  { intros [H | H]; discriminate. }
  exists c2. eexists. split; [exact R2 |].
  split; [reflexivity |]. split; [reflexivity |]. split; [reflexivity |].
  split; [exact N |].
  intros H. exact (N (H c2 R2 ParentSide _ eq_refl)).
Qed.

(** ** A second synchronous send *)

Lemma HandleSyncMessage_begin_no_loop this m call st p :
  proto this st = Some p ->
  mOppositeMessageLoop p = None ->
  HandleSyncMessage_begin this m call st
    = Stop (Crash "mOppositeMessageLoop") st.
Proof.
  intros Hp Hl. unfold HandleSyncMessage_begin. unfold_M.
  rewrite Hp, Hl. reflexivity.
Qed.

(** C2, as the code has it. [HandleSyncMessage] does not look at
    [mSyncMessage]: with the opposite loop established, on the endpoint
    whose side is [ParentSide], it stores the new message in the slot,
    whatever was there, leaves [mSyncMessageReply] as it was, and appends
    one more [StaticMaybeSendSyncMessage] runnable; the one fatal check at
    its head is for a missing [mOppositeMessageLoop].  A second exchange
    does not overlap the first because of the blocking: at every reachable
    configuration in which the receiving thread is outside
    [HandleSyncMessage], both slots of the endpoint are empty. *)
Theorem second_sync_send_is_excluded_by_blocking_only :
  forall env,
    (forall m call st p,
       gParentProtocol st = Some p ->
       isSome (mOppositeMessageLoop p) = true ->
       exists st1 p1,
         HandleSyncMessage_begin ParentSide m call st = Ret tt st1 /\
         gParentProtocol st1 = Some p1 /\
         mSyncMessage p1 = Some m /\
         mSyncMessageReply p1 = mSyncMessageReply p /\
         gMainThreadRunnables st1 =
           gMainThreadRunnables st
             ++ [StaticMaybeSendSyncMessageRunnable ParentSide]) /\
    (forall this m call st p,
       proto this st = Some p ->
       mOppositeMessageLoop p = None ->
       HandleSyncMessage_begin this m call st
         = Stop (Crash "mOppositeMessageLoop") st) /\
    (forall c, reachable env c ->
     forall s p, proto s (sys c) = Some p ->
       recvPc c s = RecvIdle ->
       mSyncMessage p = None /\ mSyncMessageReply p = None).
Proof.
  intros env. split; [| split].
  - intros m call st p Hp Hl.
    destruct (HandleSyncMessage_begin_ParentSide m call st p Hp Hl)
      as (st1 & E & Hp1 & _ & Hq & _).
    exists st1. eexists. split; [exact E |]. split; [exact Hp1 |].
    split; [reflexivity |]. split; [reflexivity | exact Hq].
  - intros this m call st p Hp Hl.
    exact (HandleSyncMessage_begin_no_loop this m call st p Hp Hl).
  - intros c Hreach s p Hp Hidle.
    pose proof (reachable_exchange_inv env c Hreach s p Hp) as H.
    unfold exchange_inv in H. rewrite Hidle in H.
    destruct (sendPc c s); [exact H | contradiction].
Qed.

Lemma second_sync_send_is_excluded_by_blocking_only_witness :
  (exists st1 p1,
     HandleSyncMessage_begin ParentSide (Demo.msg 7 3) true Demo.st0
       = Ret tt st1 /\
     gParentProtocol st1 = Some p1 /\
     mSyncMessage p1 = Some (Demo.msg 7 3) /\
     mSyncMessageReply p1 = None /\
     gMainThreadRunnables st1 =
       [StaticMaybeSendSyncMessageRunnable ParentSide]) /\
  (mSyncMessage (with_loop MainThreadMessageLoop new_MiddlemanProtocol) = None
   /\ mSyncMessageReply (with_loop MainThreadMessageLoop new_MiddlemanProtocol)
      = None).
Proof.
  split.
  - apply (proj1 (second_sync_send_is_excluded_by_blocking_only
                    (Demo.env true))
             (Demo.msg 7 3) true Demo.st0
             (with_loop MainThreadMessageLoop new_MiddlemanProtocol)
             eq_refl eq_refl).
  - apply (proj2 (proj2 (second_sync_send_is_excluded_by_blocking_only
                           (Demo.env true)))
             (idle_config Demo.st0)
             (reachable_initial _ _
                (InitializeForwarding_initial true Demo.actors))
             ParentSide
             (with_loop MainThreadMessageLoop new_MiddlemanProtocol)
             eq_refl eq_refl).
Defined.

(** C2, as stated, fails: a [HandleSyncMessage] begun while
    [mSyncMessage] still holds the message of an earlier one passes every
    check and replaces that message. *)
Lemma second_sync_send_overwrites_the_first :
  exists st1 st2 p1 p2,
    HandleSyncMessage_begin ParentSide (Demo.msg 7 3) true Demo.st0
      = Ret tt st1 /\
    gParentProtocol st1 = Some p1 /\
    mSyncMessage p1 = Some (Demo.msg 7 3) /\
    HandleSyncMessage_begin ParentSide (Demo.msg 8 4) false st1
      = Ret tt st2 /\
    gParentProtocol st2 = Some p2 /\
    mSyncMessage p2 = Some (Demo.msg 8 4) /\
    gMainThreadRunnables st2 =
      [StaticMaybeSendSyncMessageRunnable ParentSide;
       StaticMaybeSendSyncMessageRunnable ParentSide].
Proof.
  do 4 eexists. split; [reflexivity |]. split; [reflexivity |].
  split; [reflexivity |]. split; [reflexivity |]. split; [reflexivity |].
  split; reflexivity.
Qed.

(** * Further properties of the forwarding code *)

(** ** The handler, branch by branch of the policy *)

Lemma OnMessageReceived_handled ids env m st l st1 :
  mOppositeMessageLoop (gChildProtocol st) = Some l ->
  HandleMessageInMiddleman ids env ChildSide m st = Ret true st1 ->
  OnMessageReceived ids env ChildSide m st = Ret MsgProcessed st1.
Proof.
  intros Hl E. unfold OnMessageReceived. unfold bind at 1.
  unfold this_protocol. simpl. rewrite Hl.
  rewrite (bind_Ret _ _ _ _ _ E). reflexivity.
Qed.

Lemma OnMessageReceived_forwarded ids env m st l st1 :
  mOppositeMessageLoop (gChildProtocol st) = Some l ->
  HandleMessageInMiddleman ids env ChildSide m st = Ret false st1 ->
  OnMessageReceived ids env ChildSide m st =
    Ret MsgProcessed
      (emit (EvPostTask l (RunnableTask (ForwardMessageAsyncRunnable ParentSide m)))
         (match l with
          | MainThreadMessageLoop =>
              set_loops
                (mainLoop st1
                   ++ [RunnableTask (ForwardMessageAsyncRunnable ParentSide m)])
                (forwardingLoop st1) st1
          | gForwardingMessageLoop =>
              set_loops (mainLoop st1)
                (forwardingLoop st1
                   ++ [RunnableTask (ForwardMessageAsyncRunnable ParentSide m)])
                st1
          end)).
Proof.
  intros Hl E. unfold OnMessageReceived. unfold bind at 1.
  unfold this_protocol. simpl. rewrite Hl.
  rewrite (bind_Ret _ _ _ _ _ E).
  pose proof (HandleMessageInMiddleman_keeps_child ids env ChildSide m st)
    as Hk.
  rewrite E in Hk. simpl in Hk.
  unfold PostOppositeRunnable. simpl. unfold_M. simpl. rewrite Hk, Hl.
  reflexivity.
Qed.

Lemma OnMessageReceived_stopped ids env m st l h st1 :
  mOppositeMessageLoop (gChildProtocol st) = Some l ->
  HandleMessageInMiddleman ids env ChildSide m st = Stop h st1 ->
  OnMessageReceived ids env ChildSide m st = Stop h st1.
Proof.
  intros Hl E. unfold OnMessageReceived. unfold bind at 1.
  unfold this_protocol. simpl. rewrite Hl.
  rewrite (bind_Stop _ _ _ _ _ E). reflexivity.
Qed.

Lemma deliver_to_ContentChild_spec {A} env m (a : A) st :
  (r <- ContentChild_OnMessageReceived env m ;;
   assert_processed r ;;;
   ret a) st =
    let (r, c) := PContentChild_OnMessageReceived env (contentChild st) m in
    let st' := emit (EvContentChildReceived m) (set_contentChild c st) in
    if IProtocolResult_eqb r MsgProcessed then Ret a st'
    else Stop (Crash "r == ipc::IProtocol::MsgProcessed") st'.
Proof.
  unfold ContentChild_OnMessageReceived, assert_processed. unfold_M.
  destruct (PContentChild_OnMessageReceived env (contentChild st) m) as [r c].
  destruct r; reflexivity.
Qed.

Lemma IProtocolResult_eqb_eq a b : IProtocolResult_eqb a b = true <-> a = b.
Proof. destruct a, b; simpl; split; congruence. Qed.

Lemma HandleMessageInMiddleman_middleman_only ids env m st :
  sent_to_both ids (type m) = false ->
  sent_to_middleman_only ids (type m) = true ->
  HandleMessageInMiddleman ids env ChildSide m st =
    let (r, c) := PContentChild_OnMessageReceived env (contentChild st) m in
    let st' := emit (EvContentChildReceived m) (set_contentChild c st) in
    if IProtocolResult_eqb r MsgProcessed then Ret true st'
    else Stop (Crash "r == ipc::IProtocol::MsgProcessed") st'.
Proof.
  intros Hb Hm. unfold HandleMessageInMiddleman. simpl. rewrite Hb, Hm.
  apply deliver_to_ContentChild_spec.
Qed.

Lemma HandleMessageInMiddleman_compositor ids env m st :
  sent_to_both ids (type m) = false ->
  sent_to_middleman_only ids (type m) = false ->
  in_range (PCompositorBridgeStart ids) (PCompositorBridgeEnd ids) (type m)
    = true ->
  HandleMessageInMiddleman ids env ChildSide m st =
    let st' := emit (EvCompositorChildReceived m) st in
    if IProtocolResult_eqb
         (CompositorBridgeChild_OnMessageReceived env (log st) m) MsgProcessed
    then Ret true st'
    else Stop (Crash "r == ipc::IProtocol::MsgProcessed") st'.
Proof.
  intros Hb Hm Hc. unfold HandleMessageInMiddleman. simpl.
  rewrite Hb, Hm, Hc.
  unfold CompositorChild_OnMessageReceived, assert_processed. unfold_M.
  destruct (CompositorBridgeChild_OnMessageReceived env (log st) m);
    reflexivity.
Qed.

Lemma HandleMessageInMiddleman_window_global ids env m st :
  sent_to_both ids (type m) = false ->
  sent_to_middleman_only ids (type m) = false ->
  in_range (PCompositorBridgeStart ids) (PCompositorBridgeEnd ids) (type m)
    = false ->
  in_range (PWindowGlobalStart ids) (PWindowGlobalEnd ids) (type m) = true ->
  HandleMessageInMiddleman ids env ChildSide m st =
    if Lookup (contentChild st) (routing_id m) then
      let (r, c) := PContentChild_OnMessageReceived env (contentChild st) m in
      let st' := emit (EvContentChildReceived m) (set_contentChild c st) in
      if IProtocolResult_eqb r MsgProcessed then Ret true st'
      else Stop (Crash "r == ipc::IProtocol::MsgProcessed") st'
    else Ret false st.
Proof.
  intros Hb Hm Hc Hw. unfold HandleMessageInMiddleman. simpl.
  rewrite Hb, Hm, Hc, Hw. unfold bind at 1. unfold get.
  destruct (Lookup (contentChild st) (routing_id m)); [| reflexivity].
  apply deliver_to_ContentChild_spec.
Qed.

Lemma HandleMessageInMiddleman_unlisted ids env m st :
  sent_to_both ids (type m) = false ->
  sent_to_middleman_only ids (type m) = false ->
  in_range (PCompositorBridgeStart ids) (PCompositorBridgeEnd ids) (type m)
    = false ->
  in_range (PWindowGlobalStart ids) (PWindowGlobalEnd ids) (type m) = false ->
  HandleMessageInMiddleman ids env ChildSide m st =
    Ret (MessageOriginatesFromMiddleman env m) st.
Proof.
  intros Hb Hm Hc Hw. unfold HandleMessageInMiddleman. simpl.
  rewrite Hb, Hm, Hc, Hw.
  destruct (MessageOriginatesFromMiddleman env m); reflexivity.
Qed.

Lemma unlisted_true ids t :
  unlisted ids t = true ->
  sent_to_both ids t = false /\
  sent_to_middleman_only ids t = false /\
  in_range (PCompositorBridgeStart ids) (PCompositorBridgeEnd ids) t = false /\
  in_range (PWindowGlobalStart ids) (PWindowGlobalEnd ids) t = false.
Proof.
  unfold unlisted. intros H.
  repeat (apply andb_true_iff in H; destruct H as [H ?]).
  repeat match goal with
         | X : negb _ = true |- _ => apply negb_true_iff in X
         end.
  auto.
Qed.

(** X1. Whatever its type, a message received on the endpoint whose side
    is [ParentSide] (opposite loop established) is never handed to a local
    actor: the handler returns [MsgProcessed], the actor tree and the
    record of deliveries are untouched, and a [ForwardMessageAsync]
    runnable for the [ChildSide] endpoint, carrying the same message, is
    appended to the main-thread queue, with a wake-up posted exactly when
    none was scheduled. *)
Theorem ParentSide_messages_are_only_forwarded :
  forall ids env m st p,
    gParentProtocol st = Some p ->
    mOppositeMessageLoop p <> None ->
    exists st',
      OnMessageReceived ids env ParentSide m st = Ret MsgProcessed st' /\
      gMainThreadRunnables st' =
        gMainThreadRunnables st ++ [ForwardMessageAsyncRunnable ChildSide m] /\
      gPostedProcessMainThreadRunnables st' = true /\
      contentChild st' = contentChild st /\
      log st' =
        (if gPostedProcessMainThreadRunnables st then []
         else [EvPostTask MainThreadMessageLoop ProcessMainThreadRunnablesTask])
        ++ log st /\
      forwardingLoop st' = forwardingLoop st.
Proof.
  intros ids env m st p Hp Hl. unfold OnMessageReceived.
  unfold bind at 1. unfold this_protocol. simpl. rewrite Hp.
  destruct (mOppositeMessageLoop p) as [l |]; [| congruence].
  unfold PostOppositeRunnable, DispatchToMainThread. simpl. unfold_M. simpl.
  destruct (gPostedProcessMainThreadRunnables st) eqn:Hf; simpl;
    eexists; (split; [reflexivity |]); simpl; rewrite ?Hf; repeat split.
Qed.

Lemma ParentSide_messages_are_only_forwarded_witness :
  exists st',
    OnMessageReceived Demo.ids (Demo.env true) ParentSide
      (Demo.msg 3276808 0) Demo.st0 = Ret MsgProcessed st' /\
    gMainThreadRunnables st' =
      gMainThreadRunnables Demo.st0
        ++ [ForwardMessageAsyncRunnable ChildSide (Demo.msg 3276808 0)] /\
    gPostedProcessMainThreadRunnables st' = true /\
    contentChild st' = contentChild Demo.st0 /\
    log st' =
      (if gPostedProcessMainThreadRunnables Demo.st0 then []
       else [EvPostTask MainThreadMessageLoop ProcessMainThreadRunnablesTask])
      ++ log Demo.st0 /\
    forwardingLoop st' = forwardingLoop Demo.st0.
Proof.
  apply (ParentSide_messages_are_only_forwarded Demo.ids (Demo.env true)
           (Demo.msg 3276808 0) Demo.st0
           (with_loop MainThreadMessageLoop new_MiddlemanProtocol)).
  - reflexivity.
  - discriminate.
Defined.

(** X2. A message received from the UI process whose type is in the
    middleman-only list (and not in the sent-to-both list, which is tested
    first) is handed to the local [ContentChild] once and is not
    forwarded: nothing is posted or queued.  The handler returns
    [MsgProcessed] when the delivery reports [MsgProcessed]; any other
    delivery result is fatal, after the delivery. *)
Theorem middleman_only_messages_stay_local :
  forall ids env m st l,
    mOppositeMessageLoop (gChildProtocol st) = Some l ->
    sent_to_both ids (type m) = false ->
    sent_to_middleman_only ids (type m) = true ->
    let r := fst (PContentChild_OnMessageReceived env (contentChild st) m) in
    let o := OnMessageReceived ids env ChildSide m st in
    log (final_state o) = EvContentChildReceived m :: log st /\
    nothing_posted st (final_state o) /\
    (r = MsgProcessed -> exists st', o = Ret MsgProcessed st') /\
    (r <> MsgProcessed ->
     exists st', o = Stop (Crash "r == ipc::IProtocol::MsgProcessed") st').
Proof.
  intros ids env m st l Hl Hb Hm r o.
  pose proof (HandleMessageInMiddleman_middleman_only ids env m st Hb Hm)
    as E.
  subst r o.
  destruct (PContentChild_OnMessageReceived env (contentChild st) m)
    as [r c].
  simpl in *.
  destruct (IProtocolResult_eqb r MsgProcessed) eqn:Hr.
  - rewrite (OnMessageReceived_handled ids env m st l _ Hl E). simpl.
    split; [reflexivity |]. split; [repeat split |].
    split; [eauto |]. intros Hn. apply IProtocolResult_eqb_eq in Hr.
    contradiction.
  - rewrite (OnMessageReceived_stopped ids env m st l _ _ Hl E). simpl.
    split; [reflexivity |]. split; [repeat split |].
    split; [| eauto]. intros He. apply IProtocolResult_eqb_eq in He.
    congruence.
Qed.

Lemma middleman_only_messages_stay_local_witness :
  let m := Demo.msg 3276808 0 in
  let st := Demo.st0 in
  let r :=
    fst (PContentChild_OnMessageReceived (Demo.env true) (contentChild st) m)
  in
  let o := OnMessageReceived Demo.ids (Demo.env true) ChildSide m st in
  log (final_state o) = EvContentChildReceived m :: log st /\
  nothing_posted st (final_state o) /\
  (r = MsgProcessed -> exists st', o = Ret MsgProcessed st') /\
  (r <> MsgProcessed ->
   exists st', o = Stop (Crash "r == ipc::IProtocol::MsgProcessed") st').
Proof.
  apply (middleman_only_messages_stay_local Demo.ids (Demo.env true)
           (Demo.msg 3276808 0) Demo.st0 gForwardingMessageLoop);
    reflexivity.
Defined.

(** X3. A message received from the UI process whose type lies in the
    [PCompositorBridge] range (and in neither list) goes to the local
    [CompositorBridgeChild] only: the [ContentChild] is not called, the
    actor tree is unchanged and nothing is posted or queued.  A delivery
    result other than [MsgProcessed] is fatal. *)
Theorem compositor_messages_stay_local :
  forall ids env m st l,
    mOppositeMessageLoop (gChildProtocol st) = Some l ->
    sent_to_both ids (type m) = false ->
    sent_to_middleman_only ids (type m) = false ->
    in_range (PCompositorBridgeStart ids) (PCompositorBridgeEnd ids) (type m)
      = true ->
    let r := CompositorBridgeChild_OnMessageReceived env (log st) m in
    let o := OnMessageReceived ids env ChildSide m st in
    log (final_state o) = EvCompositorChildReceived m :: log st /\
    contentChild (final_state o) = contentChild st /\
    nothing_posted st (final_state o) /\
    (r = MsgProcessed -> exists st', o = Ret MsgProcessed st') /\
    (r <> MsgProcessed ->
     exists st', o = Stop (Crash "r == ipc::IProtocol::MsgProcessed") st').
Proof.
  intros ids env m st l Hl Hb Hm Hc r o.
  pose proof (HandleMessageInMiddleman_compositor ids env m st Hb Hm Hc) as E.
  subst r o. simpl in E.
  destruct (IProtocolResult_eqb
              (CompositorBridgeChild_OnMessageReceived env (log st) m)
              MsgProcessed) eqn:Hr.
  - rewrite (OnMessageReceived_handled ids env m st l _ Hl E). simpl.
    split; [reflexivity |]. split; [reflexivity |].
    split; [repeat split |].
    split; [eauto |]. intros Hn. apply IProtocolResult_eqb_eq in Hr.
    contradiction.
  - rewrite (OnMessageReceived_stopped ids env m st l _ _ Hl E). simpl.
    split; [reflexivity |]. split; [reflexivity |].
    split; [repeat split |].
    split; [| eauto]. intros He. apply IProtocolResult_eqb_eq in He.
    congruence.
Qed.

Lemma compositor_messages_stay_local_witness :
  let m := Demo.msg 2621450 0 in
  let st := Demo.st0 in
  let r :=
    CompositorBridgeChild_OnMessageReceived (Demo.env true) (log st) m in
  let o := OnMessageReceived Demo.ids (Demo.env true) ChildSide m st in
  log (final_state o) = EvCompositorChildReceived m :: log st /\
  contentChild (final_state o) = contentChild st /\
  nothing_posted st (final_state o) /\
  (r = MsgProcessed -> exists st', o = Ret MsgProcessed st') /\
  (r <> MsgProcessed ->
   exists st', o = Stop (Crash "r == ipc::IProtocol::MsgProcessed") st').
Proof.
  apply (compositor_messages_stay_local Demo.ids (Demo.env true)
           (Demo.msg 2621450 0) Demo.st0 gForwardingMessageLoop);
    reflexivity.
Defined.

(** X4. A message received from the UI process whose type lies in the
    [PWindowGlobal] range (and in no earlier list or range) goes to
    whichever process has the actor: if [Lookup] finds its routing id, the
    local [ContentChild] receives it and nothing is forwarded; if not,
    nothing is delivered here and the copy is posted, as a
    [ForwardMessageAsync] runnable for the [ParentSide] endpoint, to the
    opposite loop. *)
Theorem window_global_messages_go_to_the_owner :
  forall ids env m st l,
    mOppositeMessageLoop (gChildProtocol st) = Some l ->
    sent_to_both ids (type m) = false ->
    sent_to_middleman_only ids (type m) = false ->
    in_range (PCompositorBridgeStart ids) (PCompositorBridgeEnd ids) (type m)
      = false ->
    in_range (PWindowGlobalStart ids) (PWindowGlobalEnd ids) (type m) = true ->
    let o := OnMessageReceived ids env ChildSide m st in
    (In (routing_id m) (LookupIds (contentChild st)) ->
     log (final_state o) = EvContentChildReceived m :: log st /\
     nothing_posted st (final_state o) /\
     (fst (PContentChild_OnMessageReceived env (contentChild st) m)
        = MsgProcessed ->
      exists st', o = Ret MsgProcessed st')) /\
    (~ In (routing_id m) (LookupIds (contentChild st)) ->
     exists st',
       o = Ret MsgProcessed st' /\
       log st' =
         EvPostTask l (RunnableTask (ForwardMessageAsyncRunnable ParentSide m))
           :: log st /\
       contentChild st' = contentChild st /\
       gMainThreadRunnables st' = gMainThreadRunnables st).
Proof.
  intros ids env m st l Hl Hb Hm Hc Hw o.
  pose proof (HandleMessageInMiddleman_window_global ids env m st
                Hb Hm Hc Hw) as E.
  subst o.
  assert (HL : Lookup (contentChild st) (routing_id m) = true <->
               In (routing_id m) (LookupIds (contentChild st))).
  { unfold Lookup. rewrite existsb_exists. split.
    - intros (x & Hin & Hx). apply Z.eqb_eq in Hx. subst. exact Hin.
    - intros Hin. exists (routing_id m). split; [exact Hin | apply Z.eqb_refl]. }
  destruct (Lookup (contentChild st) (routing_id m)) eqn:Hk.
  - split; [| intros Hn; exfalso; apply Hn, HL; reflexivity].
    intros _.
    destruct (PContentChild_OnMessageReceived env (contentChild st) m)
      as [r c].
    simpl in *. destruct (IProtocolResult_eqb r MsgProcessed) eqn:Hr.
    + rewrite (OnMessageReceived_handled ids env m st l _ Hl E). simpl.
      split; [reflexivity |]. split; [repeat split | eauto].
    + rewrite (OnMessageReceived_stopped ids env m st l _ _ Hl E). simpl.
      split; [reflexivity |]. split; [repeat split |].
      intros He. apply IProtocolResult_eqb_eq in He. congruence.
  - split; [intros Hin; apply HL in Hin; discriminate |].
    intros _. rewrite (OnMessageReceived_forwarded ids env m st l _ Hl E).
    eexists. split; [reflexivity |]. destruct l; repeat split.
Qed.

Lemma window_global_messages_go_to_the_owner_witness :
  let m := Demo.msg 9830401 41 in
  let st := Demo.st0 in
  let o := OnMessageReceived Demo.ids (Demo.env true) ChildSide m st in
  (In (routing_id m) (LookupIds (contentChild st)) ->
   log (final_state o) = EvContentChildReceived m :: log st /\
   nothing_posted st (final_state o) /\
   (fst (PContentChild_OnMessageReceived (Demo.env true) (contentChild st) m)
      = MsgProcessed ->
    exists st', o = Ret MsgProcessed st')) /\
  (~ In (routing_id m) (LookupIds (contentChild st)) ->
   exists st',
     o = Ret MsgProcessed st' /\
     log st' =
       EvPostTask gForwardingMessageLoop
         (RunnableTask (ForwardMessageAsyncRunnable ParentSide m))
         :: log st /\
     contentChild st' = contentChild st /\
     gMainThreadRunnables st' = gMainThreadRunnables st).
Proof.
  apply (window_global_messages_go_to_the_owner Demo.ids (Demo.env true)
           (Demo.msg 9830401 41) Demo.st0 gForwardingMessageLoop);
    reflexivity.
Defined.

(** X5. A message received from the UI process that no list or range of
    the policy names: if it is marked as originating from the middleman it
    is swallowed, the handler returns [MsgProcessed] and the state is
    exactly what it was; otherwise it is forwarded and not delivered: the
    only effect is the post of a [ForwardMessageAsync] runnable for the
    [ParentSide] endpoint, carrying the message as received, to the
    opposite loop. *)
Theorem unlisted_messages_are_swallowed_or_forwarded :
  forall ids env m st l,
    mOppositeMessageLoop (gChildProtocol st) = Some l ->
    unlisted ids (type m) = true ->
    (MessageOriginatesFromMiddleman env m = true ->
     OnMessageReceived ids env ChildSide m st = Ret MsgProcessed st) /\
    (MessageOriginatesFromMiddleman env m = false ->
     exists st',
       OnMessageReceived ids env ChildSide m st = Ret MsgProcessed st' /\
       log st' =
         EvPostTask l (RunnableTask (ForwardMessageAsyncRunnable ParentSide m))
           :: log st /\
       contentChild st' = contentChild st /\
       gMainThreadRunnables st' = gMainThreadRunnables st /\
       match l with
       | MainThreadMessageLoop =>
           mainLoop st' =
             mainLoop st
               ++ [RunnableTask (ForwardMessageAsyncRunnable ParentSide m)] /\
           forwardingLoop st' = forwardingLoop st
       | gForwardingMessageLoop =>
           forwardingLoop st' =
             forwardingLoop st
               ++ [RunnableTask (ForwardMessageAsyncRunnable ParentSide m)] /\
           mainLoop st' = mainLoop st
       end).
Proof.
  intros ids env m st l Hl Hu.
  destruct (unlisted_true ids (type m) Hu) as (Hb & Hm & Hc & Hw).
  pose proof (HandleMessageInMiddleman_unlisted ids env m st Hb Hm Hc Hw) as E.
  split; intros Ho; rewrite Ho in E.
  - exact (OnMessageReceived_handled ids env m st l st Hl E).
  - rewrite (OnMessageReceived_forwarded ids env m st l st Hl E).
    eexists. split; [reflexivity |]. destruct l; repeat split.
Qed.

Lemma unlisted_messages_are_swallowed_or_forwarded_witness :
  OnMessageReceived Demo.ids DemoMore.loopback_env ChildSide
    (Demo.msg 99 10) Demo.st0 = Ret MsgProcessed Demo.st0 /\
  exists st',
    OnMessageReceived Demo.ids DemoMore.loopback_env ChildSide
      (Demo.msg 5 10) Demo.st0 = Ret MsgProcessed st' /\
    log st' =
      EvPostTask gForwardingMessageLoop
        (RunnableTask (ForwardMessageAsyncRunnable ParentSide (Demo.msg 5 10)))
        :: log Demo.st0.
Proof.
  split.
  - apply (proj1 (unlisted_messages_are_swallowed_or_forwarded Demo.ids
                    DemoMore.loopback_env (Demo.msg 99 10) Demo.st0
                    gForwardingMessageLoop eq_refl eq_refl)).
    reflexivity.
  - destruct (proj2 (unlisted_messages_are_swallowed_or_forwarded Demo.ids
                       DemoMore.loopback_env (Demo.msg 5 10) Demo.st0
                       gForwardingMessageLoop eq_refl eq_refl) eq_refl)
      as (st' & E & Hlog & _).
    exists st'. split; assumption.
Defined.

(** X6. A middleman without a recording process (no opposite loop on the
    endpoint whose side is [ChildSide]) never forwards: whatever the
    policy decides, the handler posts and queues nothing, and it returns
    [MsgProcessed] whenever the local collaborators keep their contract.
    On the endpoint whose side is [ParentSide] a missing opposite loop is
    fatal before the policy is consulted. *)
Theorem without_recording_process_nothing_is_forwarded :
  forall ids env m st,
    mOppositeMessageLoop (gChildProtocol st) = None ->
    let o := OnMessageReceived ids env ChildSide m st in
    nothing_posted st (final_state o) /\
    (local_delivery_ok env -> exists st', o = Ret MsgProcessed st') /\
    (forall p,
       gParentProtocol st = Some p ->
       mOppositeMessageLoop p = None ->
       OnMessageReceived ids env ParentSide m st
         = Stop (Crash "mSide == ipc::ChildSide") st).
Proof.
  intros ids env m st Hl o. subst o.
  assert (E : OnMessageReceived ids env ChildSide m st =
              (_ <- HandleMessageInMiddleman ids env ChildSide m ;;
               ret MsgProcessed) st).
  { unfold OnMessageReceived. unfold bind at 1. unfold this_protocol.
    simpl. rewrite Hl. reflexivity. }
  rewrite E. split; [| split].
  - assert (H : preserves (nothing_posted st)
                  (HandleMessageInMiddleman ids env ChildSide m)).
    { apply frame_HandleMessageInMiddleman; intros; assumption. }
    specialize (H st (conj eq_refl (conj eq_refl (conj eq_refl eq_refl)))).
    unfold bind.
    destruct (HandleMessageInMiddleman ids env ChildSide m st); exact H.
  - intros Hok.
    destruct (HandleMessageInMiddleman_returns ids env ChildSide m st Hok)
      as (b & st1 & E1).
    rewrite (bind_Ret _ _ _ _ _ E1). eauto.
  - intros p Hp Hn. unfold OnMessageReceived. unfold bind at 1.
    unfold this_protocol. simpl. rewrite Hp, Hn. reflexivity.
Qed.

Lemma without_recording_process_nothing_is_forwarded_witness :
  let o :=
    OnMessageReceived Demo.ids (Demo.env true) ChildSide (Demo.msg 5 10)
      DemoMore.st_alone in
  nothing_posted DemoMore.st_alone (final_state o) /\
  (local_delivery_ok (Demo.env true) -> exists st', o = Ret MsgProcessed st').
Proof.
  destruct (without_recording_process_nothing_is_forwarded Demo.ids
              (Demo.env true) (Demo.msg 5 10) DemoMore.st_alone eq_refl)
    as (H1 & H2 & _).
  split; assumption.
Defined.

(** ** The synchronous path *)

(** X7. A pending synchronous message is transmitted once: after a
    [MaybeSendSyncMessage] that returned, a further [MaybeSendSyncMessage]
    on the same endpoint (the posted runnable running after
    [MaybeHandleForwardedMessages] did the work, or the reverse) returns
    at once and leaves the state as it is, with no channel operation and
    no notification. *)
Theorem MaybeSendSyncMessage_transmits_once :
  forall env this st st',
    MaybeSendSyncMessage env this st = Ret tt st' ->
    MaybeSendSyncMessage env this st' = Ret tt st' /\
    exists p', proto this st' = Some p' /\ mSyncMessage p' = None.
Proof.
  intros env this st st' E.
  assert (Hnone : forall s p, proto this s = Some p -> mSyncMessage p = None ->
                  MaybeSendSyncMessage env this s = Ret tt s).
  { intros s p Hp Hm. unfold MaybeSendSyncMessage.
    rewrite (bind_Ret _ _ _ _ _
               (MaybeSendSyncMessage_alloc_none env this s p Hp Hm)).
    reflexivity. }
  destruct (proto this st) as [p |] eqn:Hp.
  - destruct (mSyncMessage p) as [m |] eqn:Hm.
    + destruct (mSyncMessageReply p) as [r0 |] eqn:Hr.
      * unfold MaybeSendSyncMessage in E.
        rewrite (bind_Stop _ _ _ _ _
                   (MaybeSendSyncMessage_alloc_occupied env this st p m r0
                      Hp Hm Hr)) in E.
        discriminate.
      * destruct (sync_transmit env this (mSyncMessageIsCall p) (log st) m)
          as [ok r] eqn:Ht.
        rewrite (MaybeSendSyncMessage_spec env this st p m ok r Hp Hm Hr Ht)
          in E.
        assert (Hp' : proto this st' = Some (with_slots p None (Some r))).
        { destruct ok.
          - inversion E; subst. destruct this; reflexivity.
          - destruct this; simpl in E; [discriminate |].
            inversion E; subst. reflexivity. }
        split; [exact (Hnone st' _ Hp' eq_refl) |].
        eexists. split; [exact Hp' | reflexivity].
    + rewrite (Hnone st p Hp Hm) in E. inversion E; subst st'.
      split; [exact (Hnone st p Hp Hm) |]. eauto.
  - unfold MaybeSendSyncMessage, MaybeSendSyncMessage_alloc in E.
    unfold_M. rewrite Hp in E. discriminate.
Qed.

Lemma MaybeSendSyncMessage_transmits_once_witness :
  let st :=
    final_state
      (HandleSyncMessage_begin ParentSide (Demo.msg 7 3) true Demo.st0) in
  let st' := final_state (MaybeSendSyncMessage (Demo.env true) ParentSide st) in
  MaybeSendSyncMessage (Demo.env true) ParentSide st' = Ret tt st' /\
  exists p', proto ParentSide st' = Some p' /\ mSyncMessage p' = None.
Proof.
  intros st st'.
  apply (MaybeSendSyncMessage_transmits_once (Demo.env true) ParentSide st st').
  vm_compute. reflexivity.
Defined.

Lemma wait_for_reply_leaves_with_reply env this sched :
  forall inWait st st',
    wait_for_reply env this inWait sched st = Ret tt st' ->
    exists p r, proto this st' = Some p /\ mSyncMessageReply p = Some r.
Proof.
  induction sched as [| a sched IH]; intros inWait st st' E; simpl in E.
  - destruct (proto this st) as [p |] eqn:Hp; [| discriminate].
    destruct (negb inWait && isSome (mSyncMessageReply p)) eqn:Hc;
      [| discriminate].
    inversion E; subst st'. apply andb_true_iff in Hc as [_ Hc].
    destruct (mSyncMessageReply p) as [r |] eqn:Hr; [| discriminate].
    eauto.
  - destruct (proto this st) as [p |] eqn:Hp; [| discriminate].
    destruct (negb inWait && isSome (mSyncMessageReply p)) eqn:Hc.
    + inversion E; subst st'. apply andb_true_iff in Hc as [_ Hc].
      destruct (mSyncMessageReply p) as [r |] eqn:Hr; [| discriminate].
      eauto.
    + destruct (main_act env a st) as [u st1 | h st1]; [| discriminate].
      exact (IH _ _ _ E).
Qed.

(** X8. [HandleSyncMessage] never hands a null reply to the transport:
    whenever it returns, [aReply] is a reply object, the call was made on
    the endpoint whose side is [ParentSide], and [mSyncMessageReply] of
    that endpoint is empty again. *)
Theorem HandleSyncMessage_returns_a_reply :
  forall env this m call sched st a st',
    HandleSyncMessage env this m call sched st = Ret a st' ->
    this = ParentSide /\
    (exists r, a = Some r) /\
    exists p', proto this st' = Some p' /\ mSyncMessageReply p' = None.
Proof.
  intros env this m call sched st a st' E.
  unfold HandleSyncMessage in E.
  apply bind_Ret_inv in E as ([] & st1 & E1 & E).
  apply bind_Ret_inv in E as ([] & st2 & E2 & E3).
  apply HandleSyncMessage_begin_inv in E1 as (Hside & _).
  apply wait_for_reply_leaves_with_reply in E2 as (p & r & Hp & Hr).
  apply HandleSyncMessage_end_inv in E3 as (q & Hq & Ha & Hq' & _).
  rewrite Hp in Hq. inversion Hq; subst q.
  split; [exact Hside |]. split; [exists r; congruence |].
  eexists. split; [exact Hq' | reflexivity].
Qed.

Lemma HandleSyncMessage_returns_a_reply_witness :
  exists a st',
    HandleSyncMessage (Demo.env true) ParentSide (Demo.msg 7 3) true
      [MainRunNextTask 5] Demo.st0 = Ret a st' /\
    (exists r, a = Some r) /\
    exists p', proto ParentSide st' = Some p' /\ mSyncMessageReply p' = None.
Proof.
  set (o := HandleSyncMessage (Demo.env true) ParentSide (Demo.msg 7 3) true
              [MainRunNextTask 5] Demo.st0).
  assert (E : o = Ret (Some Demo.ok_reply) (final_state o))
    by (vm_compute; reflexivity).
  exists (Some Demo.ok_reply), (final_state o).
  split; [exact E |].
  exact (proj2 (HandleSyncMessage_returns_a_reply (Demo.env true) ParentSide
                  (Demo.msg 7 3) true [MainRunNextTask 5] Demo.st0 _ _ E)).
Defined.

(** Symbolic evaluation of the entry points on a state given by its
    fields. *)
Ltac unfold_entry_points :=
  unfold OnCallReceived, OnMessageReceivedSync, OnMessageReceived,
    HandleSyncMessage, HandleSyncMessage_begin, HandleSyncMessage_end,
    PostOppositeRunnable, DispatchToMainThread, MaybeHandleForwardedMessages,
    ProcessMainThreadRunnables, Run, ForwardMessageAsync,
    MaybeSendSyncMessage, MaybeSendSyncMessage_alloc,
    MaybeSendSyncMessage_transmit.

Ltac run_model := repeat (progress (unfold_entry_points; unfold_M; simpl)).

Ltac notified :=
  match goal with
  | |- context [?a <? ?b] =>
      replace (a <? b) with true
        by (symmetry; apply Nat.ltb_lt; unfold notifyCount; simpl; lia)
  end.

(** X10. An asynchronous message [m1] and then a synchronous message [m2]
    arrive from the recording process.  If the main thread next runs the
    posted wake-up task, they go out to the UI process in the order they
    came.  If it next calls [MaybeHandleForwardedMessages], which sends
    the pending synchronous message before it drains the queue, [m2] goes
    out before [m1]. *)
Theorem sync_message_can_overtake_queued_async_message :
  forall ids env m1 m2 call fuel st p r,
    gParentProtocol st = Some p ->
    isSome (mOppositeMessageLoop p) = true ->
    mSyncMessageReply p = None ->
    queue_is [] false st ->
    mainLoop st = [] ->
    (forall s l m, channel_Send env s l m = true) ->
    (forall l, sync_transmit env ParentSide call l m2 = (true, r)) ->
    2 < fuel ->
    (exists st',
       (OnMessageReceived ids env ParentSide m1 ;;;
        HandleSyncMessage env ParentSide m2 call [MainRunNextTask fuel]) st
         = Ret (Some r) st' /\
       channel_ops (log st') =
         channel_ops (log st)
           ++ [AsyncSend ChildSide m1; SyncSend ChildSide call m2]) /\
    (exists st',
       (OnMessageReceived ids env ParentSide m1 ;;;
        HandleSyncMessage env ParentSide m2 call
          [MainMaybeHandleForwardedMessages fuel]) st
         = Ret (Some r) st' /\
       channel_ops (log st') =
         channel_ops (log st)
           ++ [SyncSend ChildSide call m2; AsyncSend ChildSide m1]).
Proof.
  intros ids env m1 m2 call fuel st p r Hp Hl Hr [Hq Hf] Hml Hsend Ht Hfuel.
  destruct fuel as [| [| [| fuel]]]; try lia.
  destruct st as [gc gp q f ml fl cc lg]. simpl in *. subst gp q f ml.
  destruct p as [lp mp rp cp]. simpl in *. subst rp.
  destruct lp as [lp |]; [| discriminate].
  unfold sync_transmit in Ht. simpl in Ht.
  split.
  - run_model. rewrite Hsend. run_model. rewrite Ht. run_model. notified.
    run_model. eexists. split; [reflexivity |]. simpl.
    rewrite <- app_assoc. reflexivity.
  - run_model. rewrite Ht. run_model. rewrite Hsend. run_model. notified.
    run_model. eexists. split; [reflexivity |]. simpl.
    rewrite <- app_assoc. reflexivity.
Qed.

Lemma sync_message_can_overtake_queued_async_message_witness :
  (exists st',
     (OnMessageReceived Demo.ids (Demo.env true) ParentSide (Demo.msg 5 10) ;;;
      HandleSyncMessage (Demo.env true) ParentSide (Demo.msg 7 3) true
        [MainRunNextTask 3]) Demo.st0 = Ret (Some Demo.ok_reply) st' /\
     channel_ops (log st') =
       channel_ops (log Demo.st0)
         ++ [AsyncSend ChildSide (Demo.msg 5 10);
             SyncSend ChildSide true (Demo.msg 7 3)]) /\
  (exists st',
     (OnMessageReceived Demo.ids (Demo.env true) ParentSide (Demo.msg 5 10) ;;;
      HandleSyncMessage (Demo.env true) ParentSide (Demo.msg 7 3) true
        [MainMaybeHandleForwardedMessages 3]) Demo.st0
       = Ret (Some Demo.ok_reply) st' /\
     channel_ops (log st') =
       channel_ops (log Demo.st0)
         ++ [SyncSend ChildSide true (Demo.msg 7 3);
             AsyncSend ChildSide (Demo.msg 5 10)]).
Proof.
  apply (sync_message_can_overtake_queued_async_message Demo.ids
           (Demo.env true) (Demo.msg 5 10) (Demo.msg 7 3) true 3 Demo.st0
           (with_loop MainThreadMessageLoop new_MiddlemanProtocol)
           Demo.ok_reply); try reflexivity.
  - split; reflexivity.
  - lia.
Defined.

(** ** Order of the asynchronous forwards *)

Lemma channel_ops_frame e l :
  match e with
  | EvChannelSend _ _ _ | EvChannelSync _ _ _ _ _ => False
  | _ => True
  end ->
  channel_ops (e :: l) = channel_ops l.
Proof. destruct e; simpl; intros H; try reflexivity; contradiction. Qed.

Lemma OnMessageReceived_ParentSide_queues ids env m st p :
  gParentProtocol st = Some p ->
  mOppositeMessageLoop p <> None ->
  exists st',
    OnMessageReceived ids env ParentSide m st = Ret MsgProcessed st' /\
    gMainThreadRunnables st' =
      gMainThreadRunnables st ++ [ForwardMessageAsyncRunnable ChildSide m] /\
    gParentProtocol st' = gParentProtocol st /\
    channel_ops (log st') = channel_ops (log st).
Proof.
  intros Hp Hl. unfold OnMessageReceived.
  unfold bind at 1. unfold this_protocol. simpl. rewrite Hp.
  destruct (mOppositeMessageLoop p) as [l |]; [| congruence].
  unfold PostOppositeRunnable, DispatchToMainThread. simpl. unfold_M. simpl.
  destruct (gPostedProcessMainThreadRunnables st) eqn:Hf; simpl;
    eexists; (split; [reflexivity |]); simpl; repeat split; exact Hp.
Qed.

Lemma receive_all_on_ParentSide ids env ms : forall st p,
  gParentProtocol st = Some p ->
  mOppositeMessageLoop p <> None ->
  exists st',
    run_ops ids env (map (OpOnMessageReceived ParentSide) ms) st = Ret tt st' /\
    gMainThreadRunnables st' =
      gMainThreadRunnables st ++ map (ForwardMessageAsyncRunnable ChildSide) ms
    /\
    channel_ops (log st') = channel_ops (log st).
Proof.
  induction ms as [| m ms IH]; intros st p Hp Hl; simpl.
  - exists st. rewrite app_nil_r. auto.
  - destruct (OnMessageReceived_ParentSide_queues ids env m st p Hp Hl)
      as (st1 & E1 & Hq1 & Hp1 & Hc1).
    rewrite Hp in Hp1.
    destruct (IH st1 p Hp1 Hl) as (st2 & E2 & Hq2 & Hc2).
    exists st2. unfold bind at 1 2. rewrite E1. simpl.
    split; [exact E2 |]. split.
    + rewrite Hq2, Hq1, <- app_assoc. reflexivity.
    + congruence.
Qed.

Lemma Run_forwards_in_order env ms : forall st,
  (forall l m, channel_Send env ChildSide l m = true) ->
  exists st',
    Run_in_order env (map (ForwardMessageAsyncRunnable ChildSide) ms) st
      = Ret tt st' /\
    channel_ops (log st') =
      channel_ops (log st) ++ map (AsyncSend ChildSide) ms.
Proof.
  induction ms as [| m ms IH]; intros st Hs; simpl.
  - exists st. rewrite app_nil_r. auto.
  - assert (E : Run env (ForwardMessageAsyncRunnable ChildSide m) st =
                Ret tt (emit (EvChannelSend ChildSide m true)
                          (emit (EvRun (ForwardMessageAsyncRunnable ChildSide m))
                                st))).
    { unfold Run, ForwardMessageAsync. unfold_M. simpl. rewrite Hs.
      reflexivity. }
    destruct (IH (emit (EvChannelSend ChildSide m true)
                    (emit (EvRun (ForwardMessageAsyncRunnable ChildSide m))
                          st)) Hs) as (st2 & E2 & Hc2).
    exists st2. rewrite (bind_Ret _ _ _ _ _ E). split; [exact E2 |].
    rewrite Hc2. simpl. rewrite <- app_assoc. reflexivity.
Qed.

(** X11. Asynchronous messages from the recording process reach the UI
    process in the order they were received: after any number of messages
    received on the [ParentSide] endpoint, with the main-thread queue
    empty before, the queue holds one [ForwardMessageAsync] runnable per
    message, in order, nothing has been sent yet, and one drain, as long
    as every send succeeds, sends exactly those messages, unchanged and in
    that order, on the channel of the [ChildSide] endpoint. *)
Theorem async_messages_to_the_UI_keep_their_order :
  forall ids env ms st p fuel,
    gParentProtocol st = Some p ->
    mOppositeMessageLoop p <> None ->
    gMainThreadRunnables st = [] ->
    (forall l m, channel_Send env ChildSide l m = true) ->
    length ms < fuel ->
    exists st1 st2,
      run_ops ids env (map (OpOnMessageReceived ParentSide) ms) st
        = Ret tt st1 /\
      gMainThreadRunnables st1 = map (ForwardMessageAsyncRunnable ChildSide) ms
      /\
      channel_ops (log st1) = channel_ops (log st) /\
      ProcessMainThreadRunnables env fuel st1 = Ret tt st2 /\
      channel_ops (log st2) =
        channel_ops (log st) ++ map (AsyncSend ChildSide) ms /\
      gMainThreadRunnables st2 = [].
Proof.
  intros ids env ms st p fuel Hp Hl Hq Hs Hfuel.
  destruct (receive_all_on_ParentSide ids env ms st p Hp Hl)
    as (st1 & E1 & Hq1 & Hc1).
  rewrite Hq in Hq1. simpl in Hq1.
  destruct (Run_forwards_in_order env ms st1 Hs) as (sr & Er & Hcr).
  exists st1. eexists. split; [exact E1 |]. split; [exact Hq1 |].
  split; [exact Hc1 |].
  unfold ProcessMainThreadRunnables. unfold bind at 1.
  pose proof (ProcessMainThreadRunnables_loop_runs env
                (map (ForwardMessageAsyncRunnable ChildSide) ms) []
                (gPostedProcessMainThreadRunnables st1) fuel st1
                (conj Hq1 eq_refl)) as X.
  change (length (@nil Runnable)) with 0 in X.
  rewrite X by (rewrite length_map; exact Hfuel).
  rewrite Er. split; [reflexivity |]. simpl.
  split; [congruence | reflexivity].
Qed.

Lemma async_messages_to_the_UI_keep_their_order_witness :
  exists st1 st2,
    run_ops Demo.ids (Demo.env true)
      (map (OpOnMessageReceived ParentSide)
           [Demo.msg 5 10; Demo.msg 6 11; Demo.msg 5 12]) Demo.st0
      = Ret tt st1 /\
    gMainThreadRunnables st1 =
      map (ForwardMessageAsyncRunnable ChildSide)
          [Demo.msg 5 10; Demo.msg 6 11; Demo.msg 5 12] /\
    channel_ops (log st1) = channel_ops (log Demo.st0) /\
    ProcessMainThreadRunnables (Demo.env true) 4 st1 = Ret tt st2 /\
    channel_ops (log st2) =
      channel_ops (log Demo.st0)
        ++ map (AsyncSend ChildSide)
               [Demo.msg 5 10; Demo.msg 6 11; Demo.msg 5 12] /\
    gMainThreadRunnables st2 = [].
Proof.
  apply (async_messages_to_the_UI_keep_their_order Demo.ids (Demo.env true)
           [Demo.msg 5 10; Demo.msg 6 11; Demo.msg 5 12] Demo.st0
           (with_loop MainThreadMessageLoop new_MiddlemanProtocol) 4);
    try reflexivity.
  - discriminate.
  - simpl. lia.
Defined.

Lemma OnMessageReceived_ChildSide_posts ids env m st :
  mOppositeMessageLoop (gChildProtocol st) = Some gForwardingMessageLoop ->
  unlisted ids (type m) = true ->
  MessageOriginatesFromMiddleman env m = false ->
  exists st',
    OnMessageReceived ids env ChildSide m st = Ret MsgProcessed st' /\
    forwardingLoop st' =
      forwardingLoop st
        ++ [RunnableTask (ForwardMessageAsyncRunnable ParentSide m)] /\
    gChildProtocol st' = gChildProtocol st /\
    log st' =
      EvPostTask gForwardingMessageLoop
        (RunnableTask (ForwardMessageAsyncRunnable ParentSide m)) :: log st.
Proof.
  intros Hl Hu Ho.
  destruct (unlisted_true ids (type m) Hu) as (Hb & Hm & Hc & Hw).
  pose proof (HandleMessageInMiddleman_unlisted ids env m st Hb Hm Hc Hw) as E.
  rewrite Ho in E.
  rewrite (OnMessageReceived_forwarded ids env m st _ st Hl E).
  eexists. split; [reflexivity |]. repeat split.
Qed.

Lemma receive_all_on_ChildSide ids env ms : forall st,
  mOppositeMessageLoop (gChildProtocol st) = Some gForwardingMessageLoop ->
  Forall (fun m => unlisted ids (type m) = true /\
                   MessageOriginatesFromMiddleman env m = false) ms ->
  exists st',
    run_ops ids env (map (OpOnMessageReceived ChildSide) ms) st = Ret tt st' /\
    forwardingLoop st' =
      forwardingLoop st
        ++ map (fun m => RunnableTask (ForwardMessageAsyncRunnable ParentSide m))
               ms /\
    channel_ops (log st') = channel_ops (log st) /\
    shutdownPosts st' = shutdownPosts st /\
    failedSends st' = failedSends st.
Proof.
  induction ms as [| m ms IH]; intros st Hl Hall; simpl.
  - exists st. rewrite app_nil_r. auto.
  - inversion Hall as [| m' ms' [Hu Ho] Hall']; subst.
    destruct (OnMessageReceived_ChildSide_posts ids env m st Hl Hu Ho)
      as (st1 & E1 & Hf1 & Hg1 & Hlog1).
    rewrite <- Hg1 in Hl.
    destruct (IH st1 Hl Hall') as (st2 & E2 & Hf2 & Hc2 & Hs2 & Hx2).
    exists st2. unfold bind at 1 2. rewrite E1. simpl.
    split; [exact E2 |]. split.
    + rewrite Hf2, Hf1, <- app_assoc. reflexivity.
    + rewrite Hc2, Hs2, Hx2. unfold shutdownPosts, failedSends.
      rewrite Hlog1, !count_cons. simpl. auto.
Qed.

Lemma forwarding_loop_sends_in_order ids env ms : forall st rest,
  forwardingLoop st =
    map (fun m => RunnableTask (ForwardMessageAsyncRunnable ParentSide m)) ms
      ++ rest ->
  exists st',
    run_ops ids env (forwarding_loop_runs (length ms)) st = Ret tt st' /\
    forwardingLoop st' = rest /\
    channel_ops (log st') =
      channel_ops (log st) ++ map (AsyncSend ParentSide) ms /\
    shutdownPosts st' + failedSends st = shutdownPosts st + failedSends st'.
Proof.
  induction ms as [| m ms IH]; intros st rest Hf; simpl.
  - exists st. rewrite app_nil_r. simpl in Hf. repeat split; auto.
  - simpl in Hf.
    assert (E : exists st1,
              run_op ids env OpForwardingLoopRun st = Ret tt st1 /\
              forwardingLoop st1 =
                map (fun m => RunnableTask
                                (ForwardMessageAsyncRunnable ParentSide m)) ms
                  ++ rest /\
              channel_ops (log st1) =
                channel_ops (log st) ++ [AsyncSend ParentSide m] /\
              shutdownPosts st1 + failedSends st =
                shutdownPosts st + failedSends st1).
    { simpl. unfold bind at 1. unfold get. rewrite Hf. run_model.
      match goal with
      | |- context [channel_Send env ParentSide ?l m] =>
          destruct (channel_Send env ParentSide l m) eqn:Hs
      end; simpl;
        eexists; (split; [reflexivity |]); simpl;
        (split; [reflexivity |]); (split; [reflexivity |]);
        unfold shutdownPosts, failedSends, count; simpl; lia. }
    destruct E as (st1 & E1 & Hf1 & Hc1 & Hs1).
    destruct (IH st1 rest Hf1) as (st2 & E2 & Hf2 & Hc2 & Hs2).
    exists st2. rewrite (bind_Ret _ _ _ _ _ E1).
    split; [exact E2 |]. split; [exact Hf2 |]. split.
    + rewrite Hc2, Hc1, <- app_assoc. reflexivity.
    + lia.
Qed.

(** X12. Messages from the UI process that the policy only forwards reach
    the recording process in the order they were received: each receipt
    appends one task to the forwarding loop, and the forwarding thread,
    running these tasks, attempts the sends on the channel of the
    [ParentSide] endpoint in that order, with the messages unchanged.  A
    failed send does not stop the thread: every message is still
    attempted, and each failure posts one shutdown task. *)
Theorem async_messages_to_the_recording_process_keep_their_order :
  forall ids env ms st,
    mOppositeMessageLoop (gChildProtocol st) = Some gForwardingMessageLoop ->
    forwardingLoop st = [] ->
    Forall (fun m => unlisted ids (type m) = true /\
                     MessageOriginatesFromMiddleman env m = false) ms ->
    exists st1 st2,
      run_ops ids env (map (OpOnMessageReceived ChildSide) ms) st
        = Ret tt st1 /\
      forwardingLoop st1 =
        map (fun m => RunnableTask (ForwardMessageAsyncRunnable ParentSide m))
            ms /\
      channel_ops (log st1) = channel_ops (log st) /\
      run_ops ids env (forwarding_loop_runs (length ms)) st1 = Ret tt st2 /\
      forwardingLoop st2 = [] /\
      channel_ops (log st2) =
        channel_ops (log st) ++ map (AsyncSend ParentSide) ms /\
      shutdownPosts st2 + failedSends st = shutdownPosts st + failedSends st2.
Proof.
  intros ids env ms st Hl Hf Hall.
  destruct (receive_all_on_ChildSide ids env ms st Hl Hall)
    as (st1 & E1 & Hf1 & Hc1 & Hs1 & Hx1).
  rewrite Hf in Hf1. simpl in Hf1.
  destruct (forwarding_loop_sends_in_order ids env ms st1 [])
    as (st2 & E2 & Hf2 & Hc2 & Hs2).
  { rewrite app_nil_r. exact Hf1. }
  exists st1, st2. repeat split; auto.
  - congruence.
  - lia.
Qed.

Lemma async_messages_to_the_recording_process_keep_their_order_witness :
  exists st1 st2,
    run_ops Demo.ids (Demo.env false)
      (map (OpOnMessageReceived ChildSide) [Demo.msg 5 10; Demo.msg 6 11])
      Demo.st0 = Ret tt st1 /\
    forwardingLoop st1 =
      map (fun m => RunnableTask (ForwardMessageAsyncRunnable ParentSide m))
          [Demo.msg 5 10; Demo.msg 6 11] /\
    channel_ops (log st1) = channel_ops (log Demo.st0) /\
    run_ops Demo.ids (Demo.env false) (forwarding_loop_runs 2) st1
      = Ret tt st2 /\
    forwardingLoop st2 = [] /\
    channel_ops (log st2) =
      channel_ops (log Demo.st0)
        ++ map (AsyncSend ParentSide) [Demo.msg 5 10; Demo.msg 6 11] /\
    shutdownPosts st2 + failedSends Demo.st0 =
      shutdownPosts Demo.st0 + failedSends st2.
Proof.
  apply (async_messages_to_the_recording_process_keep_their_order Demo.ids
           (Demo.env false) [Demo.msg 5 10; Demo.msg 6 11] Demo.st0).
  - reflexivity.
  - reflexivity.
  - repeat constructor.
Defined.

(** ** No runnable is left without a wake-up *)

Lemma preserves_ret_preserves {A} P (m : M A) :
  preserves P m -> ret_preserves P m.
Proof.
  intros H st a st' HP E. specialize (H st HP). rewrite E in H. exact H.
Qed.

Lemma ret_preserves_bind {A B} P (m : M A) (k : A -> M B) :
  ret_preserves P m -> (forall a, ret_preserves P (k a)) ->
  ret_preserves P (bind m k).
Proof.
  intros Hm Hk st b st' HP E. apply bind_Ret_inv in E as (a & st1 & E1 & E2).
  exact (Hk a st1 b st' (Hm st a st1 HP E1) E2).
Qed.

Ltac pending_leaf :=
  intros; unfold wakeup_pending in *; simpl;
  repeat match goal with
         | H : _ /\ _ |- _ => destruct H
         | |- context [set_proto ?s _ _] => destruct s; simpl
         | |- context [match ?l with MainThreadMessageLoop => _ | _ => _ end] =>
             destruct l; simpl
         end;
  (split; [assumption | intros; try apply in_or_app; auto]).

Lemma wakeup_pending_PostTask l t :
  preserves wakeup_pending (PostTask l t).
Proof. unfold PostTask. apply preserves_modify. pending_leaf. Qed.

Lemma wakeup_pending_HandleMessageInMiddleman ids env aSide m :
  preserves wakeup_pending (HandleMessageInMiddleman ids env aSide m).
Proof. apply frame_HandleMessageInMiddleman; intros; assumption. Qed.

Lemma wakeup_pending_ForwardMessageAsync env aProtocol m :
  preserves wakeup_pending (ForwardMessageAsync env aProtocol m).
Proof.
  unfold ForwardMessageAsync, BeginShutdown.
  repeat first [ apply wakeup_pending_PostTask | pres_step pending_leaf ].
Qed.

Lemma wakeup_pending_set_sync_slots this a b c :
  preserves wakeup_pending (set_sync_slots this a b c).
Proof. unfold set_sync_slots. pres pending_leaf. Qed.

Lemma wakeup_pending_MaybeSendSyncMessage env this :
  preserves wakeup_pending (MaybeSendSyncMessage env this).
Proof.
  unfold MaybeSendSyncMessage, MaybeSendSyncMessage_alloc,
    MaybeSendSyncMessage_transmit, BeginShutdown, NotifyAll.
  repeat first
    [ apply wakeup_pending_PostTask
    | apply wakeup_pending_set_sync_slots
    | pres_step pending_leaf ].
Qed.

Lemma wakeup_pending_Run env r : preserves wakeup_pending (Run env r).
Proof.
  unfold Run. apply preserves_bind.
  - apply preserves_modify. pending_leaf.
  - intros _. destruct r;
      [ apply wakeup_pending_ForwardMessageAsync
      | apply wakeup_pending_MaybeSendSyncMessage ].
Qed.

Lemma wakeup_pending_DispatchToMainThread r :
  preserves wakeup_pending (DispatchToMainThread r).
Proof.
  intros st [Hq Hp]. unfold DispatchToMainThread. unfold_M. simpl.
  destruct (gPostedProcessMainThreadRunnables st) eqn:Hf; simpl;
    unfold wakeup_pending; simpl.
  - split; [right; reflexivity |]. intros _. apply Hp. reflexivity.
  - split; [right; reflexivity |]. intros _. apply in_or_app. right.
    left. reflexivity.
Qed.

Lemma ProcessMainThreadRunnables_drained env fuel st a st' :
  ProcessMainThreadRunnables env fuel st = Ret a st' ->
  gMainThreadRunnables st' = [] /\
  gPostedProcessMainThreadRunnables st' = false.
Proof.
  unfold ProcessMainThreadRunnables. intros E.
  apply bind_Ret_inv in E as (u & s1 & _ & E).
  unfold bind, modify in E. inversion E; subst. split; reflexivity.
Qed.

Lemma wakeup_pending_ProcessMainThreadRunnables env fuel st a st' :
  ProcessMainThreadRunnables env fuel st = Ret a st' -> wakeup_pending st'.
Proof.
  intros E.
  apply ProcessMainThreadRunnables_drained in E as [Hq Hf].
  split; [left; exact Hq |]. rewrite Hf. discriminate.
Qed.

Lemma wakeup_pending_PostOppositeRunnable this r :
  preserves wakeup_pending (PostOppositeRunnable this r).
Proof.
  unfold PostOppositeRunnable. destruct (Side_eqb this ChildSide).
  - apply preserves_bind; [apply preserves_this_protocol |].
    intros p. destruct (mOppositeMessageLoop p);
      [apply wakeup_pending_PostTask | apply preserves_crash].
  - apply wakeup_pending_DispatchToMainThread.
Qed.

Lemma wakeup_pending_OnMessageReceived ids env this m :
  preserves wakeup_pending (OnMessageReceived ids env this m).
Proof.
  unfold OnMessageReceived.
  repeat first
    [ apply wakeup_pending_PostOppositeRunnable
    | apply wakeup_pending_HandleMessageInMiddleman
    | pres_step idtac ].
Qed.

Lemma wakeup_pending_main_act env a :
  ret_preserves wakeup_pending (main_act env a).
Proof.
  destruct a as [fuel | fuel]; simpl.
  - intros st x st' HK E. unfold bind at 1 in E. unfold get in E.
    destruct (mainLoop st) as [| t rest] eqn:Hml.
    + inversion E; subst. exact HK.
    + unfold bind, modify in E. destruct t; simpl in E.
      * discriminate.
      * exact (wakeup_pending_ProcessMainThreadRunnables env fuel _ _ _ E).
      * apply (preserves_ret_preserves _ _ (wakeup_pending_Run env r)
                 _ _ _) in E; [exact E |].
        destruct HK as [Hq Hp]. split; [exact Hq |]. simpl. intros Hf.
        specialize (Hp Hf). rewrite Hml in Hp.
        destruct Hp as [Hp | Hp]; [discriminate | exact Hp].
  - unfold MaybeHandleForwardedMessages. intros st x st' HK E.
    apply bind_Ret_inv in E as (s0 & s1 & _ & E).
    apply bind_Ret_inv in E as (u & s2 & _ & E).
    exact (wakeup_pending_ProcessMainThreadRunnables env fuel _ _ _ E).
Qed.

Lemma wakeup_pending_wait_for_reply env this sched : forall inWait,
  ret_preserves wakeup_pending (wait_for_reply env this inWait sched).
Proof.
  induction sched as [| a sched IH]; intros inWait st x st' HK E; simpl in E.
  - destruct (proto this st); [| discriminate].
    destruct (negb inWait && isSome (mSyncMessageReply m)); [| discriminate].
    inversion E; subst. exact HK.
  - destruct (proto this st); [| discriminate].
    destruct (negb inWait && isSome (mSyncMessageReply m)).
    + inversion E; subst. exact HK.
    + destruct (main_act env a st) as [u st1 | h st1] eqn:Ea;
        [| discriminate].
      exact (IH _ _ _ _ (wakeup_pending_main_act env a _ _ _ HK Ea) E).
Qed.

Lemma wakeup_pending_HandleSyncMessage env this m call sched :
  ret_preserves wakeup_pending (HandleSyncMessage env this m call sched).
Proof.
  unfold HandleSyncMessage.
  apply ret_preserves_bind; [| intros _; apply ret_preserves_bind].
  - apply preserves_ret_preserves.
    unfold HandleSyncMessage_begin, NotifyAll.
    repeat first
      [ apply wakeup_pending_PostOppositeRunnable
      | apply wakeup_pending_set_sync_slots
      | pres_step pending_leaf ].
  - apply wakeup_pending_wait_for_reply.
  - intros _. apply preserves_ret_preserves. unfold HandleSyncMessage_end.
    repeat first
      [ apply wakeup_pending_set_sync_slots | pres_step pending_leaf ].
Qed.

Lemma wakeup_pending_run_op ids env o :
  ret_preserves wakeup_pending (run_op ids env o).
Proof.
  destruct o; simpl.
  - apply preserves_ret_preserves.
    apply preserves_bind; [apply wakeup_pending_OnMessageReceived |].
    intros _. apply preserves_ret.
  - apply ret_preserves_bind;
      [ unfold OnMessageReceivedSync; apply ret_preserves_bind;
        [ apply wakeup_pending_HandleSyncMessage
        | intros ?; apply preserves_ret_preserves, preserves_ret ]
      | intros ?; apply preserves_ret_preserves, preserves_ret ].
  - apply ret_preserves_bind;
      [ unfold OnCallReceived; apply ret_preserves_bind;
        [ apply wakeup_pending_HandleSyncMessage
        | intros ?; apply preserves_ret_preserves, preserves_ret ]
      | intros ?; apply preserves_ret_preserves, preserves_ret ].
  - apply preserves_ret_preserves. destruct t; simpl;
      unfold OnChannelClose, OnChannelError, BeginShutdown;
      repeat first
        [ apply wakeup_pending_PostTask
        | apply wakeup_pending_ForwardMessageAsync
        | pres_step pending_leaf ].
  - apply preserves_ret_preserves, wakeup_pending_DispatchToMainThread.
  - apply wakeup_pending_main_act.
  - intros st x st' HK E. unfold bind at 1 in E. unfold get in E.
    destruct (forwardingLoop st) as [| t rest].
    + inversion E; subst. exact HK.
    + unfold bind, modify in E. destruct t; simpl in E.
      * discriminate.
      * exact (wakeup_pending_ProcessMainThreadRunnables env 0 _ _ _ E).
      * apply (preserves_ret_preserves _ _ (wakeup_pending_Run env r)
                 _ _ _) in E; [exact E |].
        exact HK.
Qed.

Lemma wakeup_pending_run_ops ids env os :
  ret_preserves wakeup_pending (run_ops ids env os).
Proof.
  induction os as [| o os IH]; simpl.
  - intros st a st' HK E. inversion E; subst. exact HK.
  - apply ret_preserves_bind; [apply wakeup_pending_run_op |].
    intros _. exact IH.
Qed.

(** X13. No runnable is left in the main-thread queue without a wake-up:
    after any sequence of entry-point calls that returns, starting from
    the state [InitializeForwarding] leaves (or any state with the same
    property), a non-empty [gMainThreadRunnables] has
    [gPostedProcessMainThreadRunnables] set and a
    [ProcessMainThreadRunnables] task waiting on the main thread's
    loop. *)
Theorem queued_runnables_always_have_a_wakeup_pending :
  forall ids env os,
    (forall st a st',
       wakeup_pending st ->
       run_ops ids env os st = Ret a st' ->
       wakeup_pending st') /\
    (forall b c a st',
       run_ops ids env os (InitializeForwarding b c) = Ret a st' ->
       gMainThreadRunnables st' <> [] ->
       gPostedProcessMainThreadRunnables st' = true /\
       In ProcessMainThreadRunnablesTask (mainLoop st')).
Proof.
  intros ids env os. split.
  - exact (wakeup_pending_run_ops ids env os).
  - intros b c a st' E Hne.
    assert (H0 : wakeup_pending (InitializeForwarding b c)).
    { split; [left; reflexivity | simpl; discriminate]. }
    destruct (wakeup_pending_run_ops ids env os _ _ _ H0 E) as [[Hq | Hf] Hp];
      [contradiction |].
    split; [exact Hf | exact (Hp Hf)].
Qed.

Lemma queued_runnables_always_have_a_wakeup_pending_witness :
  exists st',
    run_ops Demo.ids (Demo.env true)
      [OpOnMessageReceived ParentSide (Demo.msg 5 10);
       OpMain (MainMaybeHandleForwardedMessages 3);
       OpOnMessageReceived ParentSide (Demo.msg 6 11)] Demo.st0
      = Ret tt st' /\
    gPostedProcessMainThreadRunnables st' = true /\
    In ProcessMainThreadRunnablesTask (mainLoop st').
Proof.
  set (o := run_ops Demo.ids (Demo.env true)
              [OpOnMessageReceived ParentSide (Demo.msg 5 10);
               OpMain (MainMaybeHandleForwardedMessages 3);
               OpOnMessageReceived ParentSide (Demo.msg 6 11)] Demo.st0).
  assert (E : o = Ret tt (final_state o)) by (vm_compute; reflexivity).
  exists (final_state o). split; [exact E |].
  apply (proj2 (queued_runnables_always_have_a_wakeup_pending Demo.ids
                  (Demo.env true) _) true Demo.actors tt (final_state o) E).
  vm_compute. discriminate.
Defined.

(** ** The scheduled flag and the wake-ups that wait *)




(** ** One exchange for one synchronous message *)

Lemma sync_in_progress_frame before m call (f : Sys -> Sys) :
  (forall st, gParentProtocol (f st) = gParentProtocol st) ->
  (forall st, sync_exchanges ChildSide (log (f st))
              = sync_exchanges ChildSide (log st)) ->
  forall st, sync_in_progress before m call st ->
             sync_in_progress before m call (f st).
Proof.
  intros Hp Hl st (p & Ep & H). exists p. rewrite Hp, Hl. split; assumption.
Qed.

Ltac progress_leaf :=
  apply sync_in_progress_frame; intros; reflexivity.

Lemma sync_in_progress_PostTask before m call l t :
  preserves (sync_in_progress before m call) (PostTask l t).
Proof.
  unfold PostTask. apply preserves_modify.
  apply sync_in_progress_frame; intros; destruct l; reflexivity.
Qed.

Lemma sync_in_progress_ForwardMessageAsync before m call env s x :
  preserves (sync_in_progress before m call) (ForwardMessageAsync env s x).
Proof.
  unfold ForwardMessageAsync, BeginShutdown.
  repeat first [ apply sync_in_progress_PostTask | pres_step progress_leaf ].
Qed.

Lemma sync_in_progress_MaybeSendSyncMessage_ChildSide before m call env :
  preserves (sync_in_progress before m call)
            (MaybeSendSyncMessage env ChildSide).
Proof.
  unfold MaybeSendSyncMessage, MaybeSendSyncMessage_alloc,
    MaybeSendSyncMessage_transmit, BeginShutdown, NotifyAll, set_sync_slots.
  repeat first [ apply sync_in_progress_PostTask | pres_step progress_leaf ].
Qed.

Lemma sync_in_progress_MaybeSendSyncMessage_ParentSide before m call env :
  ret_preserves (sync_in_progress before m call)
                (MaybeSendSyncMessage env ParentSide).
Proof.
  intros st a st' (p & Ep & [(Hm & Hc & Hr & Hl) | (r & Hm & Hr & Hl)]) E.
  - destruct (sync_transmit env ParentSide (mSyncMessageIsCall p) (log st) m)
      as [ok r] eqn:Et.
    rewrite (MaybeSendSyncMessage_spec env ParentSide st p m ok r Ep Hm Hr Et)
      in E.
    destruct ok; simpl in E; [| discriminate].
    inversion E; subst st'; clear E.
    eexists. split; [reflexivity |]. right. exists r. simpl.
    split; [reflexivity |]. split; [reflexivity |].
    rewrite Hl, Hc. reflexivity.
  - unfold MaybeSendSyncMessage in E.
    rewrite (bind_Ret _ _ _ _ _
               (MaybeSendSyncMessage_alloc_none env ParentSide st p Ep Hm))
      in E.
    inversion E; subst st'. exists p. split; [exact Ep |]. right. eauto.
Qed.

Lemma sync_in_progress_Run before m call env r :
  ret_preserves (sync_in_progress before m call) (Run env r).
Proof.
  unfold Run. apply ret_preserves_bind.
  - apply preserves_ret_preserves, preserves_modify. progress_leaf.
  - intros _. destruct r as [s x | s].
    + apply preserves_ret_preserves, sync_in_progress_ForwardMessageAsync.
    + destruct s;
        first [ apply sync_in_progress_MaybeSendSyncMessage_ParentSide
              | apply preserves_ret_preserves,
                  sync_in_progress_MaybeSendSyncMessage_ChildSide ].
Qed.

Lemma sync_in_progress_loop before m call env fuel : forall i,
  ret_preserves (sync_in_progress before m call)
                (ProcessMainThreadRunnables_loop env fuel i).
Proof.
  induction fuel as [| fuel IH]; intros i st a st' H E; simpl in E.
  - discriminate.
  - destruct (nth_error (gMainThreadRunnables st) i) as [r |].
    + revert E. apply ret_preserves_bind; [| intros _; apply IH | exact H].
      apply sync_in_progress_Run.
    + inversion E; subst. exact H.
Qed.

Lemma sync_in_progress_ProcessMainThreadRunnables before m call env fuel :
  ret_preserves (sync_in_progress before m call)
                (ProcessMainThreadRunnables env fuel).
Proof.
  unfold ProcessMainThreadRunnables.
  apply ret_preserves_bind; [apply sync_in_progress_loop |].
  intros _. apply preserves_ret_preserves.
  repeat pres_step progress_leaf.
Qed.

Lemma sync_in_progress_main_act before m call env a :
  ret_preserves (sync_in_progress before m call) (main_act env a).
Proof.
  destruct a as [fuel | fuel]; simpl.
  - intros st x st' H E. unfold bind at 1 in E. unfold get in E.
    destruct (mainLoop st) as [| t rest].
    + inversion E; subst. exact H.
    + revert E. apply ret_preserves_bind.
      * apply preserves_ret_preserves, preserves_modify. progress_leaf.
      * intros _. destruct t; simpl.
        -- intros s0 y s1 _ E. discriminate.
        -- apply sync_in_progress_ProcessMainThreadRunnables.
        -- apply sync_in_progress_Run.
      * exact H.
  - unfold MaybeHandleForwardedMessages.
    apply ret_preserves_bind; [apply preserves_ret_preserves, preserves_get |].
    intros s0. apply ret_preserves_bind.
    + destruct (isSome (gParentProtocol s0)).
      * apply sync_in_progress_MaybeSendSyncMessage_ParentSide.
      * apply preserves_ret_preserves, preserves_ret.
    + intros _. apply sync_in_progress_ProcessMainThreadRunnables.
Qed.

Lemma sync_in_progress_wait_for_reply before m call env sched :
  forall inWait,
    ret_preserves (sync_in_progress before m call)
                  (wait_for_reply env ParentSide inWait sched).
Proof.
  induction sched as [| a sched IH]; intros inWait st x st' H E; simpl in E.
  - destruct (gParentProtocol st); [| discriminate].
    destruct (negb inWait && isSome (mSyncMessageReply m0)); [| discriminate].
    inversion E; subst. exact H.
  - destruct (gParentProtocol st); [| discriminate].
    destruct (negb inWait && isSome (mSyncMessageReply m0)).
    + inversion E; subst. exact H.
    + destruct (main_act env a st) as [u st1 | h st1] eqn:Ea;
        [| discriminate].
      exact (IH _ _ _ _ (sync_in_progress_main_act _ _ _ env a _ _ _ H Ea) E).
Qed.

Lemma HandleSyncMessage_begin_exchanges m call st st' :
  HandleSyncMessage_begin ParentSide m call st = Ret tt st' ->
  sync_exchanges ChildSide (log st') = sync_exchanges ChildSide (log st).
Proof.
  destruct st as [gc gp q f ml fl cc lg].
  destruct gp as [[lp mp rp cp] |]; [| discriminate].
  destruct lp as [lp |]; [| discriminate].
  destruct f; run_model; intros E; inversion E; subst; reflexivity.
Qed.

Lemma HandleSyncMessage_one_exchange env m call sched st p a st' :
  gParentProtocol st = Some p ->
  mSyncMessageReply p = None ->
  HandleSyncMessage env ParentSide m call sched st = Ret a st' ->
  exists r,
    a = Some r /\
    sync_exchanges ChildSide (log st') =
      sync_exchanges ChildSide (log st)
        ++ [{| exViaCall := call; exMessage := m;
               exSucceeded := true; exReply := r |}].
Proof.
  intros Hp Hr E. unfold HandleSyncMessage in E.
  apply bind_Ret_inv in E as ([] & st1 & E1 & E).
  apply bind_Ret_inv in E as ([] & st2 & E2 & E3).
  pose proof (HandleSyncMessage_begin_exchanges _ _ _ _ E1) as Hl1.
  apply HandleSyncMessage_begin_inv in E1 as (_ & p0 & Hp0 & Hp1 & _).
  simpl in Hp0, Hp1. rewrite Hp in Hp0. inversion Hp0; subst p0; clear Hp0.
  assert (H1 : sync_in_progress (sync_exchanges ChildSide (log st)) m call st1).
  { eexists. split; [exact Hp1 |]. left. simpl.
    split; [reflexivity |]. split; [reflexivity |].
    split; [exact Hr | exact Hl1]. }
  pose proof (sync_in_progress_wait_for_reply _ _ _ env sched false
                _ _ _ H1 E2) as (p2 & Hp2 & H2).
  apply wait_for_reply_leaves_with_reply in E2 as (p2' & r & Hp2' & Hr2).
  simpl in Hp2'. rewrite Hp2 in Hp2'. inversion Hp2'; subst p2'; clear Hp2'.
  destruct H2 as [(_ & _ & Hn & _) | (r' & Hm2 & Hr2' & Hl2)];
    [congruence |].
  rewrite Hr2 in Hr2'. inversion Hr2'; subst r'; clear Hr2'.
  rewrite (HandleSyncMessage_end_spec ParentSide st2 p2 Hp2) in E3.
  inversion E3; subst. exists r. split; [exact Hr2 |].
  simpl. destruct p2; exact Hl2.
Qed.

Lemma sync_exchange_on_a_simple_schedule env m call fuel sched act st p ok r :
  gParentProtocol st = Some p ->
  mSyncMessageReply p = None ->
  isSome (mOppositeMessageLoop p) = true ->
  gMainThreadRunnables st = [] ->
  act = MainMaybeHandleForwardedMessages fuel \/
  (act = MainRunNextTask fuel /\ mainLoop st = [] /\
   gPostedProcessMainThreadRunnables st = false) ->
  (forall l, sync_transmit env ParentSide call l m = (ok, r)) ->
  1 < fuel ->
  exists st',
    HandleSyncMessage env ParentSide m call (act :: sched) st
      = (if ok then Ret (Some r) st'
         else Stop (Crash "mSide == ipc::ChildSide") st') /\
    sync_exchanges ChildSide (log st') =
      sync_exchanges ChildSide (log st)
        ++ [{| exViaCall := call; exMessage := m;
               exSucceeded := ok; exReply := r |}].
Proof.
  intros Hp Hr Hl Hq Hact Ht Hfuel.
  destruct fuel as [| [| fuel]]; try lia.
  destruct st as [gc gp q f ml fl cc lg]. simpl in *. subst gp q.
  destruct p as [lp mp rp cp]. simpl in *. subst rp.
  destruct lp as [lp |]; [| discriminate].
  unfold sync_transmit in Ht. simpl in Ht.
  destruct Hact as [-> | (-> & -> & ->)].
  - destruct call, f, ok, sched; run_model; rewrite Ht; run_model;
      try notified; run_model;
      (eexists; split; [reflexivity | reflexivity]).
  - destruct call, ok, sched; run_model; rewrite Ht; run_model;
      try notified; run_model;
      (eexists; split; [reflexivity | reflexivity]).
Qed.

(** X9. With the three unlocked writes at the head of
    [HandleSyncMessage] taken as one step, a synchronous message received
    on the endpoint whose side is [ParentSide], whose reply slot is
    empty, is passed on exactly once and as it came.  Whatever the main
    thread does while the handler waits, a handler that returns has
    caused exactly one synchronous exchange on the channel of the
    [ChildSide] endpoint (the channel to the UI process): it carried the
    message as received, went out the way the message came
    ([OnCallReceived] as a [Call], the synchronous [OnMessageReceived] as
    a [Send] with reply), succeeded, and its reply is what the handler
    hands back with [MsgProcessed].  When the main thread's next turn is
    [MaybeHandleForwardedMessages], or the posted wake-up task, the
    handler returns in this way if the exchange succeeds, and stops at the
    release assertion of [MaybeSendSyncMessage], after the one exchange,
    if it fails. *)
Theorem sync_message_is_passed_on_as_it_came :
  forall env m (call : bool) st p,
    gParentProtocol st = Some p ->
    mSyncMessageReply p = None ->
    let handler :=
      if call then OnCallReceived env ParentSide m
      else OnMessageReceivedSync env ParentSide m in
    let exchange (ok : bool) (r : Message) :=
      {| exViaCall := call; exMessage := m;
         exSucceeded := ok; exReply := r |} in
    (forall sched a st',
       handler sched st = Ret a st' ->
       exists r,
         a = (MsgProcessed, Some r) /\
         sync_exchanges ChildSide (log st') =
           sync_exchanges ChildSide (log st) ++ [exchange true r]) /\
    (forall fuel sched act ok r,
       isSome (mOppositeMessageLoop p) = true ->
       gMainThreadRunnables st = [] ->
       act = MainMaybeHandleForwardedMessages fuel \/
       (act = MainRunNextTask fuel /\ mainLoop st = [] /\
        gPostedProcessMainThreadRunnables st = false) ->
       (forall l, sync_transmit env ParentSide call l m = (ok, r)) ->
       1 < fuel ->
       exists st',
         handler (act :: sched) st
           = (if ok then Ret (MsgProcessed, Some r) st'
              else Stop (Crash "mSide == ipc::ChildSide") st') /\
         sync_exchanges ChildSide (log st') =
           sync_exchanges ChildSide (log st) ++ [exchange ok r]).
Proof.
  intros env m call st p Hp Hr handler exchange. split.
  - intros sched a st' E.
    assert (E' : exists x,
               HandleSyncMessage env ParentSide m call sched st = Ret x st'
               /\ a = (MsgProcessed, x)).
    { subst handler. destruct call;
        unfold OnCallReceived, OnMessageReceivedSync in E;
        apply bind_Ret_inv in E as (x & s1 & E1 & E2);
        inversion E2; subst; eauto. }
    destruct E' as (x & E1 & ->).
    destruct (HandleSyncMessage_one_exchange env m call sched st p x st'
                Hp Hr E1) as (r & -> & Hl).
    exists r. split; [reflexivity | exact Hl].
  - intros fuel sched act ok r Hl Hq Hact Ht Hfuel.
    destruct (sync_exchange_on_a_simple_schedule env m call fuel sched act
                st p ok r Hp Hr Hl Hq Hact Ht Hfuel) as (st' & E & Hlog).
    exists st'. split; [| exact Hlog].
    subst handler. destruct call;
      unfold OnCallReceived, OnMessageReceivedSync;
      unfold bind at 1; rewrite E; destruct ok; reflexivity.
Qed.

Lemma sync_message_is_passed_on_as_it_came_witness :
  exists st',
    OnCallReceived (Demo.env true) ParentSide (Demo.msg 7 3)
      [MainRunNextTask 2] Demo.st0
      = Ret (MsgProcessed, Some Demo.ok_reply) st' /\
    sync_exchanges ChildSide (log st') =
      [{| exViaCall := true; exMessage := Demo.msg 7 3;
          exSucceeded := true; exReply := Demo.ok_reply |}].
Proof.
  destruct (sync_message_is_passed_on_as_it_came (Demo.env true)
              (Demo.msg 7 3) true Demo.st0
              (with_loop MainThreadMessageLoop new_MiddlemanProtocol)
              eq_refl eq_refl) as [_ H].
  destruct (H 2 [] (MainRunNextTask 2) true Demo.ok_reply) as (st' & E & Hl).
  - reflexivity.
  - reflexivity.
  - right. split; [reflexivity |]. split; reflexivity.
  - intros l. reflexivity.
  - lia.
  - exists st'. split; [exact E | exact Hl].
Defined.

(** ** The unlocked writes *)

Lemma HandleSyncMessage_unlocked_without_turns env this m call sched st :
  HandleSyncMessage_unlocked env this m call [] sched st
  = HandleSyncMessage env this m call sched st.
Proof.
  destruct st as [gc gp q f ml fl cc lg].
  destruct this.
  - destruct gp as [[lp mp rp cp] |]; [| reflexivity].
    destruct lp as [lp |]; [| reflexivity].
    unfold HandleSyncMessage_unlocked, HandleSyncMessage.
    destruct f; run_model; reflexivity.
  - destruct gc as [lp mp rp cp].
    destruct lp as [lp |]; [| reflexivity].
    unfold HandleSyncMessage_unlocked, HandleSyncMessage.
    destruct lp; run_model; reflexivity.
Qed.

(** X21. The message and the call flag of [HandleSyncMessage] are written
    without the monitor.  When the main thread takes no turn between the
    two writes, the handler is the one analysed so far.  When the main
    thread calls [MaybeHandleForwardedMessages] after the message is
    stored and before [mSyncMessageIsCall] is, the message goes out in the
    way the flag left by the previous exchange says, whatever way it
    came, and the handler returns the reply of that exchange. *)
Theorem unlocked_flag_lets_a_message_go_out_the_way_the_last_one_came :
  forall env m call fuel sched st p r,
    gParentProtocol st = Some p ->
    isSome (mOppositeMessageLoop p) = true ->
    mSyncMessageReply p = None ->
    gMainThreadRunnables st = [] ->
    (forall l,
       sync_transmit env ParentSide (mSyncMessageIsCall p) l m = (true, r)) ->
    0 < fuel ->
    HandleSyncMessage_unlocked env ParentSide m call [] sched st
      = HandleSyncMessage env ParentSide m call sched st /\
    exists st',
      HandleSyncMessage_unlocked env ParentSide m call
        [MainMaybeHandleForwardedMessages fuel] sched st
        = Ret (Some r) st' /\
      sync_exchanges ChildSide (log st') =
        sync_exchanges ChildSide (log st)
          ++ [{| exViaCall := mSyncMessageIsCall p; exMessage := m;
                 exSucceeded := true; exReply := r |}].
Proof.
  intros env m call fuel sched st p r Hp Hl Hr Hq Ht Hfuel.
  split; [apply HandleSyncMessage_unlocked_without_turns |].
  destruct fuel as [| fuel]; try lia.
  destruct st as [gc gp q f ml fl cc lg]. simpl in *. subst gp q.
  destruct p as [lp mp rp cp]. simpl in *. subst rp.
  destruct lp as [lp |]; [| discriminate].
  unfold sync_transmit in Ht. simpl in Ht.
  unfold HandleSyncMessage_unlocked.
  destruct cp, sched; run_model; rewrite Ht; run_model;
    (eexists; split; [reflexivity | reflexivity]).
Qed.

Lemma unlocked_flag_lets_a_message_go_out_the_way_the_last_one_came_witness :
  exists st',
    HandleSyncMessage_unlocked (Demo.env true) ParentSide (Demo.msg 7 3) true
      [MainMaybeHandleForwardedMessages 1] [] Demo.st0
      = Ret (Some Demo.ok_reply) st' /\
    sync_exchanges ChildSide (log st') =
      [{| exViaCall := false; exMessage := Demo.msg 7 3;
          exSucceeded := true; exReply := Demo.ok_reply |}].
Proof.
  apply (unlocked_flag_lets_a_message_go_out_the_way_the_last_one_came
           (Demo.env true) (Demo.msg 7 3) true 1 [] Demo.st0
           (with_loop MainThreadMessageLoop new_MiddlemanProtocol)
           Demo.ok_reply); try reflexivity.
  lia.
Defined.

Local Open Scope Z_scope.

(** * Helper functions of ProcessRecordReplay.h *)

Lemma PageSize_divides_size_t_modulus :
  size_t_modulus = PageSize * 2 ^ 52.
Proof. reflexivity. Qed.

Lemma RoundupSizeToPageBoundary_no_wrap (aSize : Z) :
  0 <= aSize <= size_t_modulus - PageSize ->
  RoundupSizeToPageBoundary aSize
  = if aSize mod PageSize =? 0 then aSize
    else PageSize * (aSize / PageSize + 1).
Proof.
  unfold RoundupSizeToPageBoundary, to_size_t.
  rewrite PageSize_divides_size_t_modulus. unfold PageSize.
  change (4096 * 2 ^ 52) with 18446744073709551616.
  intros H.
  pose proof (Z.mod_pos_bound aSize 4096 ltac:(lia)) as Hm.
  pose proof (Z.div_mod aSize 4096 ltac:(lia)) as Hd.
  destruct (aSize mod 4096 =? 0) eqn:E; cbn [negb]; [reflexivity|].
  apply Z.eqb_neq in E.
  rewrite (Z.mod_small (aSize + 4096)) by lia.
  rewrite Z.mod_small by lia. lia.
Qed.

(** X14. RoundupSizeToPageBoundary, for a size that is at most
    2^64 - 4096, returns the least multiple of the page size that is not
    below the size: the result is a multiple of 4096, lies in
    [aSize, aSize + 4096), no multiple of 4096 lies between the size and
    it, and rounding the result again changes nothing. *)
Theorem RoundupSizeToPageBoundary_is_the_least_page_multiple (aSize : Z) :
  0 <= aSize <= size_t_modulus - PageSize ->
  let r := RoundupSizeToPageBoundary aSize in
  r mod PageSize = 0
  /\ aSize <= r < aSize + PageSize
  /\ is_size_t r
  /\ (forall k, k mod PageSize = 0 -> aSize <= k -> r <= k)
  /\ RoundupSizeToPageBoundary r = r.
Proof.
  intros H r.
  assert (Hr : r = if aSize mod PageSize =? 0 then aSize
                   else PageSize * (aSize / PageSize + 1))
    by (apply RoundupSizeToPageBoundary_no_wrap; exact H).
  assert (H0 : r mod PageSize = 0).
  { rewrite Hr. destruct (aSize mod PageSize =? 0) eqn:E.
    - apply Z.eqb_eq; exact E.
    - rewrite Z.mul_comm. apply Z.mod_mul. unfold PageSize; lia. }
  unfold is_size_t, size_t_modulus, PageSize in *.
  change (2 ^ 64) with 18446744073709551616 in *.
  pose proof (Z.mod_pos_bound aSize 4096 ltac:(lia)) as Hm.
  pose proof (Z.div_mod aSize 4096 ltac:(lia)) as Hd.
  assert (Hb : aSize <= r < aSize + 4096).
  { rewrite Hr. destruct (aSize mod 4096 =? 0) eqn:E; lia. }
  split; [exact H0|]. split; [exact Hb|].
  split.
  { split; [lia|]. rewrite Hr.
    destruct (aSize mod 4096 =? 0) eqn:E; [lia|].
    apply Z.eqb_neq in E. lia. }
  split.
  { intros k Hk Hle.
    pose proof (Z.div_mod k 4096 ltac:(lia)) as Hdk.
    pose proof (Z.div_mod r 4096 ltac:(lia)) as Hdr.
    rewrite Hk in Hdk. rewrite H0 in Hdr.
    assert (r / 4096 <= k / 4096 \/ k / 4096 + 1 <= r / 4096) as [L|L] by lia;
      lia. }
  unfold RoundupSizeToPageBoundary, PageSize.
  rewrite H0. reflexivity.
Qed.

Lemma RoundupSizeToPageBoundary_is_the_least_page_multiple_witness :
  0 <= 5000 <= size_t_modulus - PageSize
  /\ RoundupSizeToPageBoundary 5000 mod PageSize = 0
  /\ 5000 <= RoundupSizeToPageBoundary 5000 < 5000 + PageSize.
Proof.
  assert (H : 0 <= 5000 <= size_t_modulus - PageSize)
    by (unfold size_t_modulus, PageSize; simpl; lia).
  split; [exact H|].
  destruct (RoundupSizeToPageBoundary_is_the_least_page_multiple 5000 H)
    as (A & B & _).
  split; [exact A | exact B].
Defined.

(** X15. RoundupSizeToPageBoundary wraps around for the sizes above
    2^64 - 4096: the sum overflows size_t and the function returns 0, a
    value below the size it was given. *)
Theorem RoundupSizeToPageBoundary_wraps_to_zero (aSize : Z) :
  size_t_modulus - PageSize < aSize < size_t_modulus ->
  RoundupSizeToPageBoundary aSize = 0.
Proof.
  unfold RoundupSizeToPageBoundary, to_size_t.
  rewrite PageSize_divides_size_t_modulus. unfold PageSize.
  change (4096 * 2 ^ 52) with 18446744073709551616.
  intros H.
  pose proof (Z.mod_pos_bound aSize 4096 ltac:(lia)) as Hm.
  pose proof (Z.div_mod aSize 4096 ltac:(lia)) as Hd.
  assert (Hq : aSize / 4096 = 4503599627370495) by lia.
  assert (E : (aSize mod 4096 =? 0) = false) by (apply Z.eqb_neq; lia).
  rewrite E; cbn [negb].
  replace (aSize + 4096) with (aSize + 4096 - 18446744073709551616
                               + 1 * 18446744073709551616) by lia.
  rewrite Z.mod_add by lia.
  rewrite (Z.mod_small (aSize + 4096 - 18446744073709551616)) by lia.
  replace (aSize + 4096 - 18446744073709551616 - aSize mod 4096) with 0 by lia.
  reflexivity.
Qed.

Lemma RoundupSizeToPageBoundary_wraps_to_zero_witness :
  RoundupSizeToPageBoundary (size_t_modulus - 1) = 0.
Proof.
  apply RoundupSizeToPageBoundary_wraps_to_zero.
  unfold size_t_modulus, PageSize; simpl; lia.
Defined.

(** X16. PageBase returns the start of the page an address lies in: a
    multiple of 4096 that is at most the address and less than one page
    below it; it is its own result on a page start, and two addresses
    have the same page base exactly when they lie in the same page. *)
Theorem PageBase_is_the_start_of_the_page (aAddress : Z) :
  0 <= aAddress ->
  PageBase aAddress mod PageSize = 0
  /\ PageBase aAddress <= aAddress < PageBase aAddress + PageSize
  /\ PageBase (PageBase aAddress) = PageBase aAddress
  /\ (forall b, 0 <= b ->
        (PageBase aAddress = PageBase b <->
         aAddress / PageSize = b / PageSize)).
Proof.
  unfold PageBase, PageSize. intros H.
  pose proof (Z.mod_pos_bound aAddress 4096 ltac:(lia)) as Hm.
  pose proof (Z.div_mod aAddress 4096 ltac:(lia)) as Hd.
  assert (E : aAddress - aAddress mod 4096 = aAddress / 4096 * 4096) by lia.
  assert (H0 : (aAddress - aAddress mod 4096) mod 4096 = 0).
  { rewrite E. apply Z.mod_mul. lia. }
  split; [exact H0|]. split; [lia|]. split; [rewrite H0; lia|].
  intros b Hb.
  pose proof (Z.mod_pos_bound b 4096 ltac:(lia)) as Hmb.
  pose proof (Z.div_mod b 4096 ltac:(lia)) as Hdb.
  split; intros; lia.
Qed.

Lemma PageBase_is_the_start_of_the_page_witness :
  PageBase 10000 = 8192 /\ PageBase 10000 mod PageSize = 0.
Proof.
  split; [reflexivity|].
  apply (PageBase_is_the_start_of_the_page 10000). lia.
Defined.

Lemma MemoryContains_no_wrap (aBase aSize aPtr aPtrSize : Z) :
  0 <= aBase -> 0 <= aSize -> aBase + aSize < size_t_modulus ->
  0 <= aPtr -> 0 <= aPtrSize -> aPtr + aPtrSize < size_t_modulus ->
  MemoryContains aBase aSize aPtr aPtrSize
  = (aBase <=? aPtr) && (aPtr + aPtrSize <=? aBase + aSize).
Proof.
  intros. unfold MemoryContains, to_size_t.
  rewrite !Z.mod_small by lia. reflexivity.
Qed.

(** X17. For two non-empty ranges that end below the top of the 64-bit
    address space, MemoryContains and MemoryIntersects decide what their
    names say about the bytes of the ranges: MemoryContains holds exactly
    when every byte of the pointer range is a byte of the base range,
    MemoryIntersects holds exactly when the ranges have a byte in common,
    and so does not depend on the order of the two ranges.  For a base
    range that ends exactly at the top of the address space the end wraps
    to 0: a range that starts above its base and ends below the top lies
    inside it, but MemoryContains answers false, MemoryIntersects answers
    false with the base range first and true with it second. *)
Theorem MemoryIntersects_iff_a_common_byte
        (aBase0 aSize0 aBase1 aSize1 : Z) :
  is_size_t aBase0 -> is_size_t aBase1 ->
  0 < aSize0 -> 0 < aSize1 ->
  aBase1 + aSize1 < size_t_modulus ->
  (aBase0 + aSize0 < size_t_modulus ->
   (MemoryContains aBase0 aSize0 aBase1 aSize1 = true <->
    forall a, in_memory aBase1 aSize1 a -> in_memory aBase0 aSize0 a)
   /\ (MemoryIntersects aBase0 aSize0 aBase1 aSize1 = true <->
       exists a, in_memory aBase0 aSize0 a /\ in_memory aBase1 aSize1 a)
   /\ MemoryIntersects aBase0 aSize0 aBase1 aSize1
      = MemoryIntersects aBase1 aSize1 aBase0 aSize0)
  /\ (aBase0 + aSize0 = size_t_modulus -> aBase0 < aBase1 ->
      (forall a, in_memory aBase1 aSize1 a -> in_memory aBase0 aSize0 a)
      /\ MemoryContains aBase0 aSize0 aBase1 aSize1 = false
      /\ MemoryIntersects aBase0 aSize0 aBase1 aSize1 = false
      /\ MemoryIntersects aBase1 aSize1 aBase0 aSize0 = true).
Proof.
  unfold is_size_t. intros Hb0 Hb1 H0 H1 Htop1. split.
  - intros Htop0. unfold MemoryIntersects.
    assert (Wsmall : forall z, 0 <= z < size_t_modulus -> to_size_t z = z).
    { intros z Hz. apply Z.mod_small. exact Hz. }
    rewrite (Wsmall (aBase1 + aSize1)) by lia.
    rewrite (Wsmall (aBase0 + aSize0)) by lia.
    rewrite (Wsmall (aBase1 + aSize1 - 1)) by lia.
    rewrite (Wsmall (aBase0 + aSize0 - 1)) by lia.
    rewrite !MemoryContains_no_wrap by lia.
    unfold in_memory.
    split; [|split].
    + rewrite andb_true_iff, !Z.leb_le. split.
      * intros [A B] a Ha. lia.
      * intros H. pose proof (H aBase1 ltac:(lia)).
        pose proof (H (aBase1 + aSize1 - 1) ltac:(lia)). lia.
    + rewrite !orb_true_iff, !andb_true_iff, !Z.leb_le. split.
      * intros [[[A B]|[A B]]|[A B]].
        -- exists aBase1. lia.
        -- exists (aBase1 + aSize1 - 1). lia.
        -- exists aBase0. lia.
      * intros [a [A B]].
        destruct (Z_le_gt_dec aBase0 aBase1);
          [destruct (Z_le_gt_dec (aBase1 + 1) (aBase0 + aSize0))|]; lia.
    + apply eq_true_iff_eq.
      rewrite !orb_true_iff, !andb_true_iff, !Z.leb_le. lia.
  - intros Htop0 Hlt.
    assert (W0 : to_size_t (aBase0 + aSize0) = 0).
    { unfold to_size_t. rewrite Htop0. apply Z.mod_same.
      unfold size_t_modulus. lia. }
    assert (Wsmall : forall z, 0 <= z < size_t_modulus -> to_size_t z = z).
    { intros z Hz. apply Z.mod_small. exact Hz. }
    split; [unfold in_memory; intros a Ha; lia |].
    split; [| split].
    + unfold MemoryContains. rewrite W0, (Wsmall (aBase1 + aSize1)) by lia.
      apply andb_false_iff. right. apply Z.leb_gt. lia.
    + unfold MemoryIntersects, MemoryContains.
      rewrite W0, (Wsmall (aBase1 + aSize1)) by lia.
      rewrite (Wsmall (aBase1 + aSize1 - 1)) by lia.
      rewrite (Wsmall (aBase1 + aSize1 - 1 + 1)) by lia.
      rewrite (Wsmall (aBase1 + 1)) by lia.
      rewrite (Wsmall (aBase0 + 1)) by lia.
      rewrite !orb_false_iff, !andb_false_iff, !Z.leb_gt. lia.
    + unfold MemoryIntersects, MemoryContains.
      rewrite W0. rewrite (Wsmall (aBase1 + aSize1)) by lia.
      replace (to_size_t (0 - 1)) with (size_t_modulus - 1) by reflexivity.
      replace (size_t_modulus - 1 + 1) with size_t_modulus by lia.
      replace (to_size_t size_t_modulus) with 0 by reflexivity.
      rewrite !orb_true_iff, !andb_true_iff, !Z.leb_le. lia.
Qed.

Lemma MemoryIntersects_iff_a_common_byte_witness :
  MemoryIntersects 100 10 105 10 = MemoryIntersects 105 10 100 10
  /\ MemoryIntersects (size_t_modulus - 4096) 4096 (size_t_modulus - 100) 10
     = false
  /\ MemoryIntersects (size_t_modulus - 100) 10 (size_t_modulus - 4096) 4096
     = true.
Proof.
  assert (S1 : is_size_t 100 /\ is_size_t 105
               /\ is_size_t (size_t_modulus - 4096)
               /\ is_size_t (size_t_modulus - 100))
    by (unfold is_size_t, size_t_modulus; simpl; lia).
  destruct S1 as (A & B & C & D).
  split.
  - destruct (MemoryIntersects_iff_a_common_byte 100 10 105 10 A B)
      as [N _]; try lia.
    + unfold size_t_modulus; simpl; lia.
    + apply N. unfold size_t_modulus; simpl; lia.
  - destruct (MemoryIntersects_iff_a_common_byte
                (size_t_modulus - 4096) 4096 (size_t_modulus - 100) 10 C D)
      as [_ T]; try lia.
    destruct T as (_ & _ & T1 & T2); try lia.
    split; [exact T1 | exact T2].
Defined.

Section VectorFacts.

Variable Entry : Type.
Variable Entry_eqb : Entry -> Entry -> bool.
Hypothesis Entry_eqb_eq : forall x y, Entry_eqb x y = true <-> x = y.

Lemma VectorContains_In (v : list Entry) (e : Entry) :
  VectorContains Entry_eqb v e = true <-> In e v.
Proof.
  induction v as [|x v IH]; simpl.
  - split; [discriminate | tauto].
  - destruct (Entry_eqb x e) eqn:E.
    + apply Entry_eqb_eq in E. tauto.
    + rewrite IH. split; [tauto|]. intros [A|A]; [|exact A].
      apply Entry_eqb_eq in A. congruence.
Qed.

Lemma VectorAddOrRemoveEntry_from_absent (seen v : list Entry) (e : Entry)
      (aAdding : bool) :
  ~ In e v ->
  VectorAddOrRemoveEntry_from Entry_eqb seen v e aAdding
  = if aAdding then Some (seen ++ v ++ [e]) else None.
Proof.
  revert seen. induction v as [|x v IH]; intros seen Hn; simpl.
  - reflexivity.
  - destruct (Entry_eqb x e) eqn:E.
    + apply Entry_eqb_eq in E. exfalso. apply Hn. left. exact E.
    + rewrite IH by (intros A; apply Hn; right; exact A).
      rewrite <- app_assoc. reflexivity.
Qed.

Lemma VectorAddOrRemoveEntry_from_present (seen v : list Entry) (e : Entry)
      (aAdding : bool) :
  In e v ->
  exists before after,
    v = before ++ e :: after /\ ~ In e before
    /\ VectorAddOrRemoveEntry_from Entry_eqb seen v e aAdding
       = if aAdding then None else Some (seen ++ before ++ after).
Proof.
  revert seen. induction v as [|x v IH]; intros seen Hin; simpl.
  - destruct Hin.
  - destruct (Entry_eqb x e) eqn:E.
    + apply Entry_eqb_eq in E. subst x. exists [], v.
      split; [reflexivity|]. split; [intros A; exact A|].
      destruct aAdding; reflexivity.
    + assert (Hv : In e v).
      { destruct Hin as [A|A]; [|exact A].
        apply Entry_eqb_eq in A. congruence. }
      destruct (IH (seen ++ [x]) Hv) as (b & a & Ev & Hb & Er).
      exists (x :: b), a. split; [simpl; congruence|].
      split.
      { intros [A|A]; [|exact (Hb A)].
        apply Entry_eqb_eq in A. congruence. }
      rewrite Er. rewrite <- app_assoc. reflexivity.
Qed.

End VectorFacts.

(** X18. VectorAddOrRemoveEntry succeeds only for a request that fits
    the vector.  Adding an entry the vector does not hold appends it at
    the end; removing an entry the vector holds takes out its first
    occurrence and leaves the other elements in their order.  Adding an
    entry that is already there, and removing one that is not, fail the
    release assertion. *)
Theorem VectorAddOrRemoveEntry_outcomes (Entry : Type)
        (Entry_eqb : Entry -> Entry -> bool) (v : list Entry) (e : Entry) :
  (forall x y, Entry_eqb x y = true <-> x = y) ->
  (VectorContains Entry_eqb v e = false ->
     VectorAddOrRemoveEntry Entry_eqb v e true = Some (v ++ [e])
     /\ VectorAddOrRemoveEntry Entry_eqb v e false = None)
  /\ (VectorContains Entry_eqb v e = true ->
        VectorAddOrRemoveEntry Entry_eqb v e true = None
        /\ exists before after,
             v = before ++ e :: after /\ ~ In e before
             /\ VectorAddOrRemoveEntry Entry_eqb v e false
                = Some (before ++ after)).
Proof.
  intros Entry_eqb_eq.
  pose proof (VectorContains_In Entry Entry_eqb Entry_eqb_eq) as Contains_In.
  pose proof (VectorAddOrRemoveEntry_from_absent Entry Entry_eqb Entry_eqb_eq)
    as from_absent.
  pose proof (VectorAddOrRemoveEntry_from_present Entry Entry_eqb Entry_eqb_eq)
    as from_present.
  unfold VectorAddOrRemoveEntry. split; intros H.
  - assert (Hn : ~ In e v).
    { intros A. apply Contains_In in A. congruence. }
    rewrite !from_absent by exact Hn.
    split; reflexivity.
  - apply Contains_In in H.
    destruct (from_present [] v e true H)
      as (b & a & Ev & Hb & Er).
    split; [exact Er|].
    destruct (from_present [] v e false H)
      as (b' & a' & Ev' & Hb' & Er').
    exists b', a'. split; [exact Ev'|]. split; [exact Hb'|exact Er'].
Qed.

Lemma VectorAddOrRemoveEntry_outcomes_witness :
  VectorAddOrRemoveEntry Z.eqb [1; 2; 3] 4 true = Some [1; 2; 3; 4]
  /\ VectorAddOrRemoveEntry Z.eqb [1; 2; 3] 4 false = None.
Proof.
  apply (proj1 (VectorAddOrRemoveEntry_outcomes Z Z.eqb [1; 2; 3] 4 Z.eqb_eq)).
  reflexivity.
Defined.

(** X19. A vector without duplicates stays one under
    VectorAddOrRemoveEntry, and the call changes the membership of the
    given entry only: after a successful add the entry is in the
    vector, after a successful remove it is not, and every other entry
    is in the result exactly when it was in the vector.  Removing an
    entry right after adding it gives back the vector. *)
Theorem VectorAddOrRemoveEntry_keeps_entries_unique (Entry : Type)
        (Entry_eqb : Entry -> Entry -> bool)
        (v v' : list Entry) (e : Entry) (aAdding : bool) :
  (forall x y, Entry_eqb x y = true <-> x = y) ->
  NoDup v ->
  VectorAddOrRemoveEntry Entry_eqb v e aAdding = Some v' ->
  NoDup v'
  /\ VectorContains Entry_eqb v e = negb aAdding
  /\ VectorContains Entry_eqb v' e = aAdding
  /\ (forall x, x <> e ->
        VectorContains Entry_eqb v' x = VectorContains Entry_eqb v x)
  /\ (aAdding = true ->
        VectorAddOrRemoveEntry Entry_eqb v' e false = Some v).
Proof.
  intros Entry_eqb_eq Hnd Hr.
  pose proof (VectorContains_In Entry Entry_eqb Entry_eqb_eq) as Contains_In.
  pose proof (VectorAddOrRemoveEntry_from_absent Entry Entry_eqb Entry_eqb_eq)
    as from_absent.
  pose proof (VectorAddOrRemoveEntry_from_present Entry Entry_eqb Entry_eqb_eq)
    as from_present.
  unfold VectorAddOrRemoveEntry in *.
  destruct (VectorContains Entry_eqb v e) eqn:Hc.
  - apply Contains_In in Hc.
    destruct (from_present [] v e aAdding Hc)
      as (b & a & Ev & Hb & Er).
    rewrite Er in Hr. destruct aAdding; [discriminate|].
    simpl in Hr. injection Hr as <-. subst v.
    assert (Hnd' : NoDup (b ++ a)) by (eapply NoDup_remove_1; exact Hnd).
    assert (Hne : ~ In e (b ++ a)) by (eapply NoDup_remove_2; exact Hnd).
    split; [exact Hnd'|]. split; [reflexivity|].
    split.
    { destruct (VectorContains Entry_eqb (b ++ a) e) eqn:C; [|reflexivity].
      apply Contains_In in C. contradiction. }
    split; [|discriminate].
    intros x Hx. apply eq_true_iff_eq.
    rewrite !Contains_In, !in_app_iff. simpl.
    split; [tauto|]. intros [A|[A|A]]; [tauto| congruence |tauto].
  - assert (Hn : ~ In e v).
    { intros A. apply Contains_In in A. congruence. }
    rewrite from_absent in Hr by exact Hn.
    destruct aAdding; [|discriminate].
    simpl in Hr. injection Hr as <-.
    split.
    { apply NoDup_app; [exact Hnd | repeat constructor; intros [] |].
      intros a A [B|[]]. subst a. exact (Hn A). }
    split; [reflexivity|].
    split.
    { apply Contains_In. apply in_app_iff. right. left. reflexivity. }
    split.
    { intros x Hx. apply eq_true_iff_eq.
      rewrite !Contains_In, in_app_iff. simpl.
      split; [|tauto]. intros [A|[A|[]]]; [exact A | congruence]. }
    intros _.
    assert (Hin : In e (v ++ [e]))
      by (apply in_app_iff; right; left; reflexivity).
    destruct (from_present [] (v ++ [e]) e false Hin)
      as (b & a & Ev & Hb & Er).
    rewrite Er. simpl.
    assert (b = v /\ a = []) as [-> ->].
    { clear Er Hin. revert b Ev Hb Hn. clear.
      induction v as [|x v IH]; intros b Ev Hb Hn.
      - destruct b as [|y b]; simpl in Ev.
        + injection Ev as <-. split; reflexivity.
        + injection Ev as <- Ev. destruct b; discriminate.
      - destruct b as [|y b]; simpl in Ev.
        + injection Ev as -> _. exfalso. apply Hn. left. reflexivity.
        + injection Ev as <- Ev.
          destruct (IH b Ev) as [-> ->].
          * intros A. apply Hb. right. exact A.
          * intros A. apply Hn. right. exact A.
          * split; reflexivity. }
    rewrite app_nil_r. reflexivity.
Qed.

Lemma VectorAddOrRemoveEntry_keeps_entries_unique_witness :
  NoDup [1; 3] /\ VectorContains Z.eqb [1; 3] 2 = false.
Proof.
  destruct (VectorAddOrRemoveEntry_keeps_entries_unique Z Z.eqb
              [1; 2; 3] [1; 3] 2 false Z.eqb_eq) as (A & _ & B & _).
  - repeat constructor; simpl; intros H; lia.
  - reflexivity.
  - split; [exact A | exact B].
Defined.

(** * The canvas memory of ParentGraphics.cpp *)

Lemma to_size_t_small (z : Z) : is_size_t z -> to_size_t z = z.
Proof. unfold is_size_t, to_size_t. intros H. apply Z.mod_small. exact H. Qed.

Lemma memcpy_spec (dst src : list Byte.byte) (dstOff srcOff n : Z) :
  0 <= dstOff -> 0 <= srcOff -> 0 <= n ->
  dstOff + n <= Z.of_nat (length dst) ->
  srcOff + n <= Z.of_nat (length src) ->
  exists buffer,
    memcpy dst dstOff src srcOff n = Some buffer
    /\ length buffer = length dst
    /\ (forall i, 0 <= i < n ->
          byte_at buffer (dstOff + i) = byte_at src (srcOff + i))
    /\ (forall i, i < dstOff \/ dstOff + n <= i ->
          byte_at buffer i = byte_at dst i).
Proof.
  intros Hd Hs Hn Hdl Hsl. unfold memcpy.
  assert (E1 : (dstOff + n <=? Z.of_nat (length dst)) = true)
    by (apply Z.leb_le; exact Hdl).
  assert (E2 : (srcOff + n <=? Z.of_nat (length src)) = true)
    by (apply Z.leb_le; exact Hsl).
  rewrite E1, E2. cbn [andb]. eexists. split; [reflexivity|].
  set (a := firstn (Z.to_nat dstOff) dst).
  set (b := firstn (Z.to_nat n) (skipn (Z.to_nat srcOff) src)).
  set (c := skipn (Z.to_nat (dstOff + n)) dst).
  assert (La : length a = Z.to_nat dstOff).
  { unfold a. rewrite length_firstn. lia. }
  assert (Lb : length b = Z.to_nat n).
  { unfold b. rewrite length_firstn, length_skipn. lia. }
  assert (Lc : length c = (length dst - Z.to_nat (dstOff + n))%nat).
  { unfold c. rewrite length_skipn. reflexivity. }
  split; [rewrite !length_app; lia|].
  split.
  - intros i Hi. unfold byte_at.
    destruct (dstOff + i <? 0) eqn:F1; [apply Z.ltb_lt in F1; lia|].
    destruct (srcOff + i <? 0) eqn:F2; [apply Z.ltb_lt in F2; lia|].
    rewrite nth_error_app2 by lia.
    rewrite nth_error_app1 by lia.
    unfold b. rewrite nth_error_firstn.
    replace (Z.to_nat (dstOff + i) - length a <? Z.to_nat n)%nat with true
      by (symmetry; apply Nat.ltb_lt; lia).
    rewrite nth_error_skipn. f_equal. lia.
  - intros i Hi. unfold byte_at.
    destruct (i <? 0) eqn:F1; [reflexivity|]. apply Z.ltb_ge in F1.
    destruct Hi as [Hi|Hi].
    + rewrite nth_error_app1 by lia.
      unfold a. rewrite nth_error_firstn.
      replace (Z.to_nat i <? Z.to_nat dstOff)%nat with true
        by (symmetry; apply Nat.ltb_lt; lia).
      reflexivity.
    + rewrite nth_error_app2 by lia.
      rewrite nth_error_app2 by lia.
      unfold c. rewrite nth_error_skipn. f_equal. lia.
Qed.

Lemma copy_rows_spec (aWidth aHeight aStride size : Z)
      (aData : list Byte.byte) :
  0 <= aWidth -> aWidth * 4 <= aStride -> aHeight < size_t_modulus ->
  aHeight * aStride <= size -> size < size_t_modulus ->
  Z.of_nat (length aData) = size ->
  forall (rows : nat) (y : Z) (buffer : list Byte.byte),
    0 <= y -> y + Z.of_nat rows = aHeight ->
    Z.of_nat (length buffer) = size ->
    exists memory,
      copy_rows rows y aWidth aStride aData buffer = Some memory
      /\ length memory = length buffer
      /\ (forall i, i < y * (aWidth * 4) ->
            byte_at memory i = byte_at buffer i)
      /\ (forall y' x, y <= y' < aHeight -> 0 <= x < aWidth * 4 ->
            byte_at memory (y' * (aWidth * 4) + x)
            = byte_at aData (y' * aStride + x)).
Proof.
  intros Hw Hws Hh Hhs Hsz Hdata.
  induction rows as [|rows IH]; intros y buffer Hy Hrows Hbuf.
  - exists buffer. split; [reflexivity|]. split; [reflexivity|].
    split; [reflexivity|]. intros y' x Hy'. lia.
  - cbn [copy_rows].
    assert (Hyh : y + 1 <= aHeight) by lia.
    assert (B1 : (y + 1) * (aWidth * 4) <= (y + 1) * aStride) by nia.
    assert (B2 : (y + 1) * aStride <= aHeight * aStride) by nia.
    assert (B3 : 0 <= y * aWidth) by nia.
    assert (B4 : 0 <= y * aStride) by nia.
    rewrite (to_size_t_small (y * aStride)) by (unfold is_size_t; nia).
    rewrite (to_size_t_small (y * aWidth)) by (unfold is_size_t; nia).
    rewrite (to_size_t_small (y * aWidth * 4)) by (unfold is_size_t; nia).
    rewrite (to_size_t_small (aWidth * 4)) by (unfold is_size_t; nia).
    rewrite (to_size_t_small (y + 1)) by (unfold is_size_t; nia).
    destruct (memcpy_spec buffer aData (y * aWidth * 4) (y * aStride)
                          (aWidth * 4))
      as (b1 & E1 & L1 & In1 & Out1); try nia.
    rewrite E1.
    destruct (IH (y + 1) b1) as (m & Em & Lm & Low & Rows); try lia.
    exists m. split; [exact Em|]. split; [congruence|].
    split.
    + intros i Hi. rewrite Low by nia. apply Out1. left. nia.
    + intros y' x Hy' Hx.
      assert (y' = y \/ y + 1 <= y') as [->|Hgt] by lia.
      * rewrite Low by nia.
        replace (y * (aWidth * 4) + x) with (y * aWidth * 4 + x) by lia.
        apply In1. exact Hx.
      * apply Rows; [lia | exact Hx].
Qed.

Lemma CheckedInt_mul_le (a b bound : Z) :
  is_size_t bound ->
  match CheckedInt_mul a b with Some v => v <=? bound | None => false end
  = (a * b <=? bound).
Proof.
  unfold is_size_t, CheckedInt_mul. intros H.
  destruct (a * b <? size_t_modulus) eqn:E; [reflexivity|].
  apply Z.ltb_ge in E. symmetry. apply Z.leb_gt. lia.
Qed.

Lemma byte_at_inside (m : list Byte.byte) (i : Z) :
  0 <= i < Z.of_nat (length m) -> exists b, byte_at m i = Some b.
Proof.
  intros H. unfold byte_at.
  destruct (i <? 0) eqn:E; [apply Z.ltb_lt in E; lia|].
  destruct (nth_error m (Z.to_nat i)) as [b|] eqn:N; [exists b; reflexivity|].
  apply nth_error_None in N. lia.
Qed.

Lemma UpdateMiddlemanCanvas_memory_failed
      (GraphicsMemorySize aWidth aHeight aStride : Z)
      (aData buffer : option (list Byte.byte)) (fresh : list Byte.byte) :
  is_size_t GraphicsMemorySize -> is_size_t aStride ->
  aStride < aWidth * 4 \/ GraphicsMemorySize < aHeight * aStride
  \/ aData = None ->
  UpdateMiddlemanCanvas_memory GraphicsMemorySize aWidth aHeight aStride
    aData buffer fresh = CanvasAssertFailed.
Proof.
  intros HG Hs H. unfold UpdateMiddlemanCanvas_memory.
  rewrite (CheckedInt_mul_le aWidth 4 aStride Hs).
  rewrite (CheckedInt_mul_le aHeight aStride GraphicsMemorySize HG).
  destruct (aWidth * 4 <=? aStride) eqn:E1; [| reflexivity].
  destruct (aHeight * aStride <=? GraphicsMemorySize) eqn:E2; [| reflexivity].
  apply Z.leb_le in E1, E2.
  destruct H as [H | [H | H]]; [lia | lia |].
  subst aData. reflexivity.
Qed.

Lemma UpdateMiddlemanCanvas_memory_ready
      (GraphicsMemorySize aWidth aHeight aStride : Z)
      (data : list Byte.byte) (buffer : option (list Byte.byte))
      (fresh : list Byte.byte) :
  is_size_t GraphicsMemorySize ->
  is_size_t aWidth -> is_size_t aHeight -> is_size_t aStride ->
  Z.of_nat (length data) = GraphicsMemorySize ->
  (forall b, buffer = Some b -> Z.of_nat (length b) = GraphicsMemorySize) ->
  Z.of_nat (length fresh) = GraphicsMemorySize ->
  aWidth * 4 <= aStride -> aHeight * aStride <= GraphicsMemorySize ->
  exists memory,
    UpdateMiddlemanCanvas_memory GraphicsMemorySize aWidth aHeight aStride
      (Some data) buffer fresh
    = CanvasReady memory (aWidth * aHeight * 4)
        (if aStride =? aWidth * 4 then buffer else Some memory)
    /\ (aStride = aWidth * 4 -> memory = data)
    /\ Z.of_nat (length memory) = GraphicsMemorySize
    /\ aWidth * aHeight * 4 <= Z.of_nat (length memory)
    /\ forall y x, 0 <= y < aHeight -> 0 <= x < aWidth * 4 ->
         exists b,
           byte_at memory (y * (aWidth * 4) + x) = Some b
           /\ byte_at data (y * aStride + x) = Some b.
Proof.
  intros HG Hw Hh Hs Ld Hbuf Hfresh E1 E2.
  unfold UpdateMiddlemanCanvas_memory.
  rewrite (CheckedInt_mul_le aWidth 4 aStride Hs).
  rewrite (CheckedInt_mul_le aHeight aStride GraphicsMemorySize HG).
  unfold is_size_t in *.
  replace (aWidth * 4 <=? aStride) with true
    by (symmetry; apply Z.leb_le; exact E1).
  replace (aHeight * aStride <=? GraphicsMemorySize) with true
    by (symmetry; apply Z.leb_le; exact E2).
  assert (Hwh : 0 <= aWidth * aHeight * 4 <= GraphicsMemorySize) by nia.
  assert (Hlen : to_size_t (to_size_t (aWidth * aHeight) * 4)
                 = aWidth * aHeight * 4).
  { rewrite (to_size_t_small (aWidth * aHeight)) by (unfold is_size_t; nia).
    apply to_size_t_small. unfold is_size_t; nia. }
  rewrite Hlen.
  rewrite (to_size_t_small (aWidth * 4)) by (unfold is_size_t; lia).
  assert (Hsrc : forall y x, 0 <= y < aHeight -> 0 <= x < aWidth * 4 ->
                   exists b, byte_at data (y * aStride + x) = Some b).
  { intros y x Hy Hx. apply byte_at_inside. nia. }
  destruct (aStride =? aWidth * 4) eqn:E3; cbn [negb].
  - apply Z.eqb_eq in E3.
    exists data. split; [reflexivity |]. split; [reflexivity |].
    split; [exact Ld |]. split; [lia |].
    intros y x Hy Hx. destruct (Hsrc y x Hy Hx) as [b Hb].
    exists b. rewrite <- E3. split; exact Hb.
  - apply Z.eqb_neq in E3.
    set (buffer0 := match buffer with Some b => b | None => fresh end).
    assert (L0 : Z.of_nat (length buffer0) = GraphicsMemorySize).
    { unfold buffer0. destruct buffer as [b|];
        [apply Hbuf; reflexivity | exact Hfresh]. }
    destruct (copy_rows_spec aWidth aHeight aStride GraphicsMemorySize data
                ltac:(lia) E1 ltac:(lia) E2 ltac:(lia) Ld
                (Z.to_nat aHeight) 0 buffer0 ltac:(lia) ltac:(lia) L0)
      as (m & Em & Lm & _ & Rows).
    rewrite Em.
    exists m. split; [reflexivity |]. split; [intros A; contradiction |].
    split; [lia |]. split; [lia |].
    intros y x Hy Hx. destruct (Hsrc y x Hy Hx) as [b Hb].
    exists b. rewrite Rows by assumption. split; exact Hb.
Qed.

(** X20. UpdateMiddlemanCanvas, given graphics memory and a transform
    buffer of GraphicsMemorySize bytes, never reads or writes outside the
    two allocations.  It stops at its argument assertions exactly when
    four times the width exceeds the stride, height times stride exceeds
    GraphicsMemorySize, or the data pointer is null.  Otherwise the
    memory it gives the JS engine holds the picture with its rows packed
    (byte x of row y is the byte at offset y * stride + x of the data),
    the byte length it gives is width * height * 4 and lies within that
    memory, and what happens next is decided in this order: a failed
    detach of the last buffer is fatal where diagnostic assertions are
    compiled in, a null ArrayBuffer is fatal, a failed UpdateCanvas is
    fatal, and else the call returns with the new ArrayBuffer as the last
    buffer. *)
Theorem UpdateMiddlemanCanvas_packs_the_rows_within_bounds
        (GraphicsMemorySize : Z)
        (ArrayBuffer_allocated : Z -> list Byte.byte -> bool)
        (DetachArrayBuffer : ArrayBuffer -> bool)
        (UpdateCanvas_failed : ArrayBuffer -> Z -> Z -> string -> bool)
        (MOZ_DIAGNOSTIC_ASSERT_enabled : bool)
        (aWidth aHeight aStride : Z) (aData : option (list Byte.byte))
        (aOptions : string) (fresh : list Byte.byte) (g : Graphics) :
  is_size_t GraphicsMemorySize ->
  is_size_t aWidth -> is_size_t aHeight -> is_size_t aStride ->
  (forall data, aData = Some data ->
     Z.of_nat (length data) = GraphicsMemorySize) ->
  (forall b, gBufferMemory g = Some b ->
     Z.of_nat (length b) = GraphicsMemorySize) ->
  Z.of_nat (length fresh) = GraphicsMemorySize ->
  let result :=
    UpdateMiddlemanCanvas GraphicsMemorySize ArrayBuffer_allocated
      DetachArrayBuffer UpdateCanvas_failed MOZ_DIAGNOSTIC_ASSERT_enabled
      aWidth aHeight aStride aData aOptions fresh g in
  result <> CanvasOutOfBoundsAccess
  /\ (result = CanvasFatal CanvasArgumentAssert <->
      aStride < aWidth * 4 \/ GraphicsMemorySize < aHeight * aStride
      \/ aData = None)
  /\ (forall data,
        aData = Some data ->
        aWidth * 4 <= aStride ->
        aHeight * aStride <= GraphicsMemorySize ->
        exists memory,
          (forall y x, 0 <= y < aHeight -> 0 <= x < aWidth * 4 ->
             exists b,
               byte_at memory (y * (aWidth * 4) + x) = Some b
               /\ byte_at data (y * aStride + x) = Some b)
          /\ (aStride = aWidth * 4 -> memory = data)
          /\ aWidth * aHeight * 4 <= Z.of_nat (length memory)
          /\ let bufferObject :=
               {| contents := memory;
                  byteLength := aWidth * aHeight * 4 |} in
             let detached :=
               match gLastBuffer g with
               | Some (Some last) => DetachArrayBuffer last
               | _ => true
               end in
             result =
               if negb detached && MOZ_DIAGNOSTIC_ASSERT_enabled
               then CanvasFatal CanvasDetachAssert
               else if negb (ArrayBuffer_allocated
                               (aWidth * aHeight * 4) memory)
               then CanvasFatal CanvasBufferObjectAssert
               else if UpdateCanvas_failed bufferObject aWidth aHeight
                         aOptions
               then CanvasFatal CanvasUpdateCanvasCrash
               else CanvasUpdated
                      {| gBufferMemory :=
                           if aStride =? aWidth * 4 then gBufferMemory g
                           else Some memory;
                         gLastBuffer := Some (Some bufferObject) |}).
Proof.
  intros HG Hw Hh Hs Hdata Hbuf Hfresh result.
  assert (Hcases :
            (aStride < aWidth * 4 \/ GraphicsMemorySize < aHeight * aStride
             \/ aData = None)
            \/ (exists data, aData = Some data /\ aWidth * 4 <= aStride
                             /\ aHeight * aStride <= GraphicsMemorySize)).
  { destruct aData as [data |]; [| left; right; right; reflexivity].
    destruct (Z_lt_le_dec aStride (aWidth * 4)); [left; left; assumption |].
    destruct (Z_lt_le_dec GraphicsMemorySize (aHeight * aStride));
      [left; right; left; assumption |].
    right. exists data. split; [reflexivity |]. split; assumption. }
  assert (Hready :
            forall data, aData = Some data -> aWidth * 4 <= aStride ->
              aHeight * aStride <= GraphicsMemorySize ->
              exists memory,
                (forall y x, 0 <= y < aHeight -> 0 <= x < aWidth * 4 ->
                   exists b,
                     byte_at memory (y * (aWidth * 4) + x) = Some b
                     /\ byte_at data (y * aStride + x) = Some b)
                /\ (aStride = aWidth * 4 -> memory = data)
                /\ aWidth * aHeight * 4 <= Z.of_nat (length memory)
                /\ result =
                   if negb match gLastBuffer g with
                           | Some (Some last) => DetachArrayBuffer last
                           | _ => true
                           end && MOZ_DIAGNOSTIC_ASSERT_enabled
                   then CanvasFatal CanvasDetachAssert
                   else if negb (ArrayBuffer_allocated
                                   (aWidth * aHeight * 4) memory)
                   then CanvasFatal CanvasBufferObjectAssert
                   else if UpdateCanvas_failed
                             {| contents := memory;
                                byteLength := aWidth * aHeight * 4 |}
                             aWidth aHeight aOptions
                   then CanvasFatal CanvasUpdateCanvasCrash
                   else CanvasUpdated
                          {| gBufferMemory :=
                               if aStride =? aWidth * 4 then gBufferMemory g
                               else Some memory;
                             gLastBuffer :=
                               Some (Some {| contents := memory;
                                             byteLength :=
                                               aWidth * aHeight * 4 |}) |}).
  { intros data Ed E1 E2. subst aData.
    destruct (UpdateMiddlemanCanvas_memory_ready GraphicsMemorySize aWidth
                aHeight aStride data (gBufferMemory g) fresh HG Hw Hh Hs
                (Hdata data eq_refl) Hbuf Hfresh E1 E2)
      as (memory & Em & Hsame & _ & Hlen & Hrows).
    exists memory. split; [exact Hrows |]. split; [exact Hsame |].
    split; [exact Hlen |].
    subst result. unfold UpdateMiddlemanCanvas. rewrite Em.
    unfold NewArrayBufferWithUserOwnedContents.
    destruct (negb _ && MOZ_DIAGNOSTIC_ASSERT_enabled); [reflexivity |].
    destruct (ArrayBuffer_allocated (aWidth * aHeight * 4) memory);
      reflexivity. }
  split; [| split].
  - destruct Hcases as [Hf | (data & Ed & E1 & E2)].
    + subst result. unfold UpdateMiddlemanCanvas.
      rewrite (UpdateMiddlemanCanvas_memory_failed _ _ _ _ _ _ _ HG Hs Hf).
      discriminate.
    + destruct (Hready data Ed E1 E2) as (memory & _ & _ & _ & R).
      rewrite R.
      destruct (negb _ && MOZ_DIAGNOSTIC_ASSERT_enabled); [discriminate |].
      destruct (negb (ArrayBuffer_allocated _ _)); [discriminate |].
      destruct (UpdateCanvas_failed _ _ _ _); discriminate.
  - split.
    + intros R. destruct Hcases as [Hf | (data & Ed & E1 & E2)];
        [exact Hf |].
      exfalso.
      destruct (Hready data Ed E1 E2) as (memory & _ & _ & _ & R').
      rewrite R' in R. revert R.
      destruct (negb _ && MOZ_DIAGNOSTIC_ASSERT_enabled); [discriminate |].
      destruct (negb (ArrayBuffer_allocated _ _)); [discriminate |].
      destruct (UpdateCanvas_failed _ _ _ _); discriminate.
    + intros Hf. subst result. unfold UpdateMiddlemanCanvas.
      rewrite (UpdateMiddlemanCanvas_memory_failed _ _ _ _ _ _ _ HG Hs Hf).
      reflexivity.
  - intros data Ed E1 E2.
    destruct (Hready data Ed E1 E2) as (memory & Hrows & Hsame & Hlen & R).
    exists memory. split; [exact Hrows |]. split; [exact Hsame |].
    split; [exact Hlen |]. exact R.
Qed.

Lemma UpdateMiddlemanCanvas_packs_the_rows_within_bounds_witness :
  UpdateMiddlemanCanvas 16 (fun _ _ => true) (fun _ => true)
    (fun _ _ _ _ => false) true 1 2 6
    (Some (repeat Byte.xff 16)) EmptyString (repeat Byte.x00 16)
    {| gBufferMemory := None; gLastBuffer := None |}
  <> CanvasOutOfBoundsAccess.
Proof.
  refine (proj1 (UpdateMiddlemanCanvas_packs_the_rows_within_bounds
                   16 (fun _ _ => true) (fun _ => true)
                   (fun _ _ _ _ => false) true 1 2 6
                   (Some (repeat Byte.xff 16)) EmptyString
                   (repeat Byte.x00 16)
                   {| gBufferMemory := None; gLastBuffer := None |}
                   _ _ _ _ _ _ _)).
  - unfold is_size_t, size_t_modulus. simpl. lia.
  - unfold is_size_t, size_t_modulus. simpl. lia.
  - unfold is_size_t, size_t_modulus. simpl. lia.
  - unfold is_size_t, size_t_modulus. simpl. lia.
  - intros data E. injection E as <-. reflexivity.
  - intros b E. discriminate E.
  - reflexivity.
Defined.

Local Close Scope Z_scope.
